(** * Bombman: the simulation core of [bombman.py]

    A shallow embedding of the classes [Positionable], [Player], [Bomb],
    [Map], [PlaySetup] and of [Game.simulation_step], followed by the
    properties of the simulation that the specification states.

    Conventions of the embedding.

    - Python integers ([dt], [state_time], [time_of_existence], [bombs_left],
      player numbers) are [Z].
    - Python floats occur only in coordinates.  The float operations the
      source uses are the fields of the class [Coord]; every definition and
      theorem below is parametric in them, so nothing proved here depends on
      how the arithmetic rounds.  The instance [Coord_Q] interprets them in
      the rationals and is used to run the definitions.
    - Objects that are mutated through references are kept in stores.  A
      reference to a [Player] is its index in [players] (the list
      [Map.players] is filled once by the constructor and never changes its
      shape); a reference to a [Bomb] is its index in [bomb_objects], the
      store of every bomb allocated so far, and [bombs] is the Python list
      [Map.bombs] of such references.
    - An uncaught Python exception is the result [None].
    - Strings are byte strings, as in the Python 2 the program is written
      for: a character is an [ascii], and [isdigit] holds of ['0'..'9']. *)

From Stdlib Require Import ZArith QArith Qround String Ascii Lia ZifyNat.
From stdpp Require Import base option list gmap strings.

Local Open Scope Z_scope.

(** ** Arithmetic on coordinates *)

Class Coord (F : Type) : Type := {
  float_of_int : Z -> F;      (* float(n), also an int operand of a float operation *)
  fadd : F -> F -> F;         (* a + b *)
  fsub : F -> F -> F;         (* a - b *)
  fmul : F -> F -> F;         (* a * b *)
  fdiv : F -> F -> F;         (* a / b *)
  math_floor : F -> Z;        (* int(math.floor(a)) *)
  f_0_0 : F;                  (* 0.0 *)
  f_0_5 : F;                  (* 0.5 *)
  f_1000_0 : F                (* 1000.0 *)
}.

#[export] Instance Coord_Q : Coord Q := {|
  float_of_int := inject_Z;
  fadd := Qplus;
  fsub := Qminus;
  fmul := Qmult;
  fdiv := Qdiv;
  math_floor := Qfloor;
  f_0_0 := 0%Q;
  f_0_5 := (1 # 2)%Q;
  f_1000_0 := (1000 # 1)%Q
|}.

(** ** Enumerations *)

(** [Player.STATE_*], in the order of their values 0..8. *)
Inductive State : Set :=
  | STATE_IDLE_UP | STATE_IDLE_RIGHT | STATE_IDLE_DOWN | STATE_IDLE_LEFT
  | STATE_WALKING_UP | STATE_WALKING_RIGHT | STATE_WALKING_DOWN
  | STATE_WALKING_LEFT | STATE_DEAD.

(** [PlayerKeyMaps.ACTION_*], in the order of their values 0..6. *)
Inductive Action : Set :=
  | ACTION_UP | ACTION_RIGHT | ACTION_DOWN | ACTION_LEFT
  | ACTION_BOMB | ACTION_SPECIAL | ACTION_MENU.

(** [Map.TILE_*]. *)
Inductive Tile : Set := TILE_FLOOR | TILE_BLOCK | TILE_WALL.

#[export] Instance State_eq_dec : EqDecision State.
Proof. solve_decision. Defined.
#[export] Instance Action_eq_dec : EqDecision Action.
Proof. solve_decision. Defined.
#[export] Instance Tile_eq_dec : EqDecision Tile.
Proof. solve_decision. Defined.

Definition COLOR_WHITE : Z := 0.
Definition INITIAL_SPEED : Z := 3.
Definition MAP_WIDTH : Z := 15.
Definition MAP_HEIGHT : Z := 11.

(** ** Objects *)

Section Objects.
Context {F : Type} `{Coord F}.

Record Player : Type := mkPlayer {
  position : F * F;
  number : Z;
  team_color : Z;
  state : State;
  state_time : Z;
  speed : Z;
  bombs_left : Z
}.

Record Bomb : Type := mkBomb {
  bomb_position : F * F;
  time_of_existence : Z;
  player : option nat;        (* None, or a reference to the owner *)
  explodes_in : Z
}.

(** [Positionable]: the base class of [Player] and [Bomb]. *)
Class Positionable (A : Type) : Type := {
  get_position : A -> F * F;
  set_position : F * F -> A -> A
}.

#[export] Instance Player_Positionable : Positionable Player := {|
  get_position := position;
  set_position pos p :=
    mkPlayer pos (number p) (team_color p) (state p) (state_time p) (speed p)
      (bombs_left p)
|}.

#[export] Instance Bomb_Positionable : Positionable Bomb := {|
  get_position := bomb_position;
  set_position pos b :=
    mkBomb pos (time_of_existence b) (player b) (explodes_in b)
|}.

Definition move_to_tile_center {A : Type} `{Positionable A} (self : A) : A :=
  set_position
    (fadd (float_of_int (math_floor (get_position self).1)) f_0_5,
     fadd (float_of_int (math_floor (get_position self).2)) f_0_5) self.

(** [Player.__init__] *)
Definition Player_init : Player := {|
  position := (f_0_0, f_0_0);
  number := 0;
  team_color := COLOR_WHITE;
  state := STATE_IDLE_DOWN;
  state_time := 0;
  speed := INITIAL_SPEED;
  bombs_left := 5
|}.

Definition set_number (n : Z) (p : Player) : Player :=
  mkPlayer (position p) n (team_color p) (state p) (state_time p) (speed p)
    (bombs_left p).

Definition set_state (s : State) (p : Player) : Player :=
  mkPlayer (position p) (number p) (team_color p) s (state_time p) (speed p)
    (bombs_left p).

Definition set_state_time (t : Z) (p : Player) : Player :=
  mkPlayer (position p) (number p) (team_color p) (state p) t (speed p)
    (bombs_left p).

Definition set_bombs_left (n : Z) (p : Player) : Player :=
  mkPlayer (position p) (number p) (team_color p) (state p) (state_time p)
    (speed p) n.

(** [Player.bomb_exploded] *)
Definition bomb_exploded (p : Player) : Player :=
  set_bombs_left (bombs_left p + 1) p.

(** [Bomb.__init__] *)
Definition Bomb_init : Bomb := {|
  bomb_position := (f_0_0, f_0_0);
  time_of_existence := 0;
  player := None;
  explodes_in := 3000
|}.

Definition set_time_of_existence (t : Z) (b : Bomb) : Bomb :=
  mkBomb (bomb_position b) t (player b) (explodes_in b).

Definition set_player (o : option nat) (b : Bomb) : Bomb :=
  mkBomb (bomb_position b) (time_of_existence b) o (explodes_in b).

End Objects.

Arguments Player F : clear implicits.
Arguments Bomb F : clear implicits.

(** Python's [list.remove(x)]: deletes the first element equal to [x];
    [None] is its [ValueError] when there is none.  On a list of references
    equality is object identity, as for [Bomb], which defines no [__eq__]. *)
Fixpoint list_remove {A : Type} `{EqDecision A} (x : A) (l : list A)
    : option (list A) :=
  match l with
  | [] => None
  | y :: l' => if decide (x = y) then Some l' else cons y <$> list_remove x l'
  end.

(** ** The map *)

Section GameMap.
Context {F : Type} `{Coord F}.

Record Map : Type := mkMap {
  tiles : list (list Tile);
  environment_name : string;
  players : list (Player F);
  players_by_numbers : gmap Z (option nat);
  bomb_objects : list (Bomb F);     (* store of the allocated bombs *)
  bombs : list nat                  (* [self.bombs]: references, in insertion order *)
}.

Definition set_players (ps : list (Player F)) (m : Map) : Map :=
  mkMap (tiles m) (environment_name m) ps (players_by_numbers m)
    (bomb_objects m) (bombs m).

Definition set_bomb_objects (bs : list (Bomb F)) (m : Map) : Map :=
  mkMap (tiles m) (environment_name m) (players m) (players_by_numbers m)
    bs (bombs m).

Definition set_bombs (l : list nat) (m : Map) : Map :=
  mkMap (tiles m) (environment_name m) (players m) (players_by_numbers m)
    (bomb_objects m) l.

(** One round of the loop of [Map.tile_has_bomb]. *)
Definition same_tile (a b : F * F) : bool :=
  bool_decide (math_floor a.1 = math_floor b.1)
  && bool_decide (math_floor a.2 = math_floor b.2).

(** [Map.tile_has_bomb].  [self.bombs] holds references; a reference that
    does not point into the store cannot exist in Python and is skipped. *)
Fixpoint tile_has_bomb_loop (objects : list (Bomb F)) (l : list nat)
    (tile_coordinates : F * F) : bool :=
  match l with
  | [] => false
  | r :: l' =>
      match objects !! r with
      | Some bomb =>
          if same_tile tile_coordinates (bomb_position bomb) then true
          else tile_has_bomb_loop objects l' tile_coordinates
      | None => tile_has_bomb_loop objects l' tile_coordinates
      end
  end.

Definition tile_has_bomb (self : Map) (tile_coordinates : F * F) : bool :=
  tile_has_bomb_loop (bomb_objects self) (bombs self) tile_coordinates.

(** [Map.add_bomb], together with the allocation of the object by [Bomb()]:
    the new bomb gets the next free address of the store and that address is
    appended to [self.bombs]. *)
Definition add_bomb (self : Map) (bomb : Bomb F) : Map :=
  set_bombs (bombs self ++ [length (bomb_objects self)])
    (set_bomb_objects (bomb_objects self ++ [bomb]) self).

Definition get_bombs (self : Map) : list nat := bombs self.
Definition get_players (self : Map) : list (Player F) := players self.
Definition get_tiles (self : Map) : list (list Tile) := tiles self.
Definition get_environment_name (self : Map) : string := environment_name self.
Definition get_players_by_numbers (self : Map) : gmap Z (option nat) :=
  players_by_numbers self.

(** ** [Player.react_to_inputs] *)

Definition distance_to_travel (dt : Z) (p : Player F) : F :=
  fmul (fdiv (float_of_int dt) f_1000_0) (float_of_int (speed p)).

(** The first [if]/[elif] chain: the state the tick starts from. *)
Definition collapse (s : State) : State :=
  if bool_decide (s = STATE_WALKING_UP) || bool_decide (s = STATE_IDLE_UP)
  then STATE_IDLE_UP
  else if bool_decide (s = STATE_WALKING_RIGHT) || bool_decide (s = STATE_IDLE_RIGHT)
  then STATE_IDLE_RIGHT
  else if bool_decide (s = STATE_WALKING_DOWN) || bool_decide (s = STATE_IDLE_DOWN)
  then STATE_IDLE_DOWN
  else STATE_IDLE_LEFT.

(** The local state of the [for] loop: the player object, the flag [moved]
    and the map. *)
Record LoopState : Type := mkLoop {
  loop_player : Player F;
  loop_moved : bool;
  loop_map : Map
}.

(** The movement [if]/[elif] chain of the loop body. *)
Definition react_move (d : F) (input_action : Action) (p : Player F)
    (moved : bool) : Player F * bool :=
  if negb moved && bool_decide (input_action = ACTION_UP) then
    (set_state STATE_WALKING_UP
       (set_position ((position p).1, fsub (position p).2 d) p), true)
  else if negb moved && bool_decide (input_action = ACTION_DOWN) then
    (set_state STATE_WALKING_DOWN
       (set_position ((position p).1, fadd (position p).2 d) p), true)
  else if negb moved && bool_decide (input_action = ACTION_RIGHT) then
    (set_state STATE_WALKING_RIGHT
       (set_position (fadd (position p).1 d, (position p).2) p), true)
  else if negb moved && bool_decide (input_action = ACTION_LEFT) then
    (set_state STATE_WALKING_LEFT
       (set_position (fsub (position p).1 d, (position p).2) p), true)
  else (p, moved).

(** The bomb [if] of the loop body; [self] is the reference to the player
    that reacts. *)
Definition react_bomb (self : nat) (input_action : Action) (p : Player F)
    (game_map : Map) : Player F * Map :=
  if bool_decide (input_action = ACTION_BOMB)
     && bool_decide (bombs_left p >= 1)
     && negb (tile_has_bomb game_map (position p))
  then
    let new_bomb := Bomb_init in
    let new_bomb := set_position (position p) new_bomb in
    let new_bomb := set_player (Some self) new_bomb in
    let new_bomb := move_to_tile_center new_bomb in
    let game_map := add_bomb game_map new_bomb in
    (set_bombs_left (bombs_left p - 1) p, game_map)
  else (p, game_map).

(** The body of [for item in input_actions]. *)
Definition react_item (self : nat) (d : F) (st : LoopState) (item : Z * Action)
    : LoopState :=
  if bool_decide (item.1 ≠ number (loop_player st)) then st
  else
    let input_action := item.2 in
    let pm := react_move d input_action (loop_player st) (loop_moved st) in
    let pg := react_bomb self input_action pm.1 (loop_map st) in
    mkLoop pg.1 pm.2 pg.2.

Definition react_loop (self : nat) (d : F) (input_actions : list (Z * Action))
    (st : LoopState) : LoopState :=
  fold_left (react_item self d) input_actions st.

(** [Player.react_to_inputs] for the player object [p] stored at [self];
    the result is the mutated player object and the mutated map (in which
    the player has not been written back yet). *)
Definition react_to_inputs (self : nat) (p : Player F)
    (input_actions : list (Z * Action)) (dt : Z) (game_map : Map)
    : Player F * Map :=
  let d := distance_to_travel dt p in
  let old_state := state p in
  let p := set_state (collapse (state p)) p in
  let st := react_loop self d input_actions (mkLoop p false game_map) in
  let p := loop_player st in
  let p :=
    if bool_decide (old_state = state p)
    then set_state_time (state_time p + dt) p
    else set_state_time 0 p in
  (p, loop_map st).

(** ** [Map.update] *)

(** The [while] loop, with [fuel] bounding the number of rounds.  [None] is
    an exception ([None.bomb_exploded()], or [remove] of an absent element)
    or exhausted fuel; [update_run] below shows that neither occurs on a
    map whose references are sound. *)
Fixpoint update_loop (fuel : nat) (dt : Z) (i : nat) (self : Map) : option Map :=
  match fuel with
  | O => None
  | S fuel' =>
      if bool_decide (Z.of_nat i <= Z.of_nat (length (bombs self)) - 1) then
        r ← bombs self !! i;
        bomb ← bomb_objects self !! r;
        let bomb := set_time_of_existence (time_of_existence bomb + dt) bomb in
        let self := set_bomb_objects (<[r := bomb]> (bomb_objects self)) self in
        if bool_decide (time_of_existence bomb > explodes_in bomb) then
          o ← player bomb;
          owner ← players self !! o;
          let self := set_players (<[o := bomb_exploded owner]> (players self)) self in
          l ← list_remove r (bombs self);
          update_loop fuel' dt i (set_bombs l self)
        else update_loop fuel' dt (i + 1) self
      else Some self
  end.

(** Every round either removes a bomb or advances [i], so
    [length (bombs self) + 1] rounds suffice. *)
Definition update (self : Map) (dt : Z) : option Map :=
  update_loop (S (length (bombs self))) dt 0 self.

(** ** [Game.simulation_step] *)

(** [for player in players: player.react_to_inputs(...)], the loop variable
    running over the references [i, i+1, ...]. *)
Fixpoint players_react (n : nat) (i : nat) (actions : list (Z * Action))
    (dt : Z) (game_map : Map) : Map :=
  match n with
  | O => game_map
  | S n' =>
      match players game_map !! i with
      | Some p =>
          let r := react_to_inputs i p actions dt game_map in
          players_react n' (S i) actions dt
            (set_players (<[i := r.1]> (players r.2)) r.2)
      | None => game_map
      end
  end.

Definition simulation_step (actions_being_performed : list (Z * Action))
    (dt : Z) (game_map : Map) : option Map :=
  update
    (players_react (length (players game_map)) 0 actions_being_performed dt
       game_map) dt.

End GameMap.

Arguments Map F : clear implicits.
Arguments LoopState F : clear implicits.

(** ** [PlaySetup] *)

Record PlaySetup : Type := mkPlaySetup {
  player_slots : list (option (Z * Z))    (* (player_number, team_color) or None *)
}.

(** [PlaySetup.__init__]: ten empty slots, then player 0 against three AIs. *)
Definition PlaySetup_init : PlaySetup :=
  mkPlaySetup
    (<[3%nat := Some (-1, 3)]>
       (<[2%nat := Some (-1, 2)]>
          (<[1%nat := Some (-1, 1)]>
             (<[0%nat := Some (0, 0)]> (replicate 10 None))))).

Definition get_slots (self : PlaySetup) : list (option (Z * Z)) :=
  player_slots self.

(** ** Strings *)

(** [s.replace(c, e)] for a one-character [c] and the empty string [e]. *)
Fixpoint remove_char (c : ascii) (s : string) : string :=
  match s with
  | EmptyString => EmptyString
  | String a s' =>
      if decide (a = c) then remove_char c s' else String a (remove_char c s')
  end.

(** [s.split(sep)] for a one-character [sep]. *)
Fixpoint split (sep : ascii) (s : string) : list string :=
  match s with
  | EmptyString => [EmptyString]
  | String a s' =>
      if decide (a = sep) then EmptyString :: split sep s'
      else
        match split sep s' with
        | w :: ws => String a w :: ws
        | [] => [String a EmptyString]
        end
  end.

(** [c.isdigit()] and [int(c)] on the characters of a byte string. *)
Definition isdigit (c : ascii) : bool :=
  (48 <=? nat_of_ascii c)%nat && (nat_of_ascii c <=? 57)%nat.

Definition int_of_digit (c : ascii) : nat := (nat_of_ascii c - 48)%nat.

Definition MAP1 : string :=
  ("env1;" ++
  "ff;" ++
  "ffffbbbbsdk!!!!!!!!;" ++
  "x . x x x x x x . x x x x . x" ++
  ". 0 . x x x x . 9 . x x . 3 ." ++
  "x . x x . x x x . x x . x . x" ++
  "x x x . 4 . x x x x . 5 . x x" ++
  "x x x x . x x x x x x . x x x" ++
  "# x x x x x # # # # x x x x #" ++
  "x x x x . x x x x x x . x x x" ++
  "x x x . 7 . x x x x . 6 . x x" ++
  "x . x x . x x . x x x . x . x" ++
  ". 2 . x x x . 8 . x x x . 1 ." ++
  "x . x x x x x . x x x x x . x")%string.

(** ** [Map.__init__] *)

Section MapInit.
Context {F : Type} `{Coord F}.

(** The variables of the tile loop. *)
Record TileLoop : Type := mkTileLoop {
  tl_line : Z;
  tl_column : Z;
  tl_tiles : list (list Tile);
  tl_starting_positions : list (F * F)
}.

(** [self.tiles[-1].append(tile)]; [None] is the [IndexError] of [[-1]] on
    an empty list. *)
Fixpoint append_to_last (rows : list (list Tile)) (tile : Tile)
    : option (list (list Tile)) :=
  match rows with
  | [] => None
  | row :: rows' =>
      match rows' with
      | [] => Some [row ++ [tile]]
      | _ :: _ => cons row <$> append_to_last rows' tile
      end
  end.

Definition tile_of_character (tile_character : ascii) : Tile :=
  if decide (tile_character = "x"%char) then TILE_BLOCK
  else if decide (tile_character = "#"%char) then TILE_WALL
  else TILE_FLOOR.

(** The body of [for i in range(len(string_split[3]))]. *)
Definition tile_step (i : Z) (tile_character : ascii) (st : TileLoop)
    : option TileLoop :=
  let st :=
    if bool_decide (i mod MAP_WIDTH = 0)
    then mkTileLoop (tl_line st + 1) 0 (tl_tiles st ++ [[]])
           (tl_starting_positions st)
    else st in
  let tile := tile_of_character tile_character in
  rows ← append_to_last (tl_tiles st) tile;
  let starting_positions :=
    if isdigit tile_character
    then <[int_of_digit tile_character :=
             (float_of_int (tl_column st), float_of_int (tl_line st))]>
           (tl_starting_positions st)
    else tl_starting_positions st in
  Some (mkTileLoop (tl_line st) (tl_column st + 1) rows starting_positions).

Fixpoint tile_loop (i : Z) (s : list ascii) (st : TileLoop) : option TileLoop :=
  match s with
  | [] => Some st
  | tile_character :: s' =>
      st' ← tile_step i tile_character st;
      tile_loop (i + 1) s' st'
  end.

(** The body of [for i in range(len(player_slots))]; [None] is the
    [IndexError] of [starting_positions[i]]. *)
Definition slot_step (i : nat) (slot : option (Z * Z))
    (starting_positions : list (F * F))
    (st : list (Player F) * gmap Z (option nat))
    : option (list (Player F) * gmap Z (option nat)) :=
  match slot with
  | Some _ =>
      start ← starting_positions !! i;
      let new_player := Player_init in
      let new_player := set_number (Z.of_nat i) new_player in
      let new_player :=
        set_position (fadd start.1 f_0_5, fadd start.2 f_0_5) new_player in
      Some (st.1 ++ [new_player],
            <[Z.of_nat i := Some (length st.1)]> st.2)
  | None => Some (st.1, <[Z.of_nat i := None]> st.2)
  end.

Fixpoint slot_loop (i : nat) (slots : list (option (Z * Z)))
    (starting_positions : list (F * F))
    (st : list (Player F) * gmap Z (option nat))
    : option (list (Player F) * gmap Z (option nat)) :=
  match slots with
  | [] => Some st
  | slot :: slots' =>
      st' ← slot_step i slot starting_positions st;
      slot_loop (S i) slots' starting_positions st'
  end.

(** [Map.__init__]; [None] is an [IndexError]. *)
Definition Map_init (map_data : string) (play_setup : PlaySetup)
    : option (Map F) :=
  let starting_positions := replicate 10 (f_0_0, f_0_0) in
  let map_data := remove_char "010"%char (remove_char " "%char map_data) in
  let string_split := split ";"%char map_data in
  environment ← string_split !! 0%nat;
  tile_string ← string_split !! 3%nat;
  st ← tile_loop 0 (list_ascii_of_string tile_string)
         (mkTileLoop (-1) 0 [] starting_positions);
  let player_slots := get_slots play_setup in
  ps ← slot_loop 0 player_slots (tl_starting_positions st)
         ([], {[ (-1) := None ]});
  Some (mkMap (tl_tiles st) environment ps.1 ps.2 [] []).

End MapInit.

Arguments TileLoop F : clear implicits.

(** ** Notions used to state the properties *)

Inductive Direction : Set := Up | Down | Right | Left.

#[export] Instance Direction_eq_dec : EqDecision Direction.
Proof. solve_decision. Defined.

Definition direction_of_action (a : Action) : option Direction :=
  match a with
  | ACTION_UP => Some Up
  | ACTION_DOWN => Some Down
  | ACTION_RIGHT => Some Right
  | ACTION_LEFT => Some Left
  | _ => None
  end.

Definition action_of_direction (d : Direction) : Action :=
  match d with
  | Up => ACTION_UP
  | Down => ACTION_DOWN
  | Right => ACTION_RIGHT
  | Left => ACTION_LEFT
  end.

Definition walking (d : Direction) : State :=
  match d with
  | Up => STATE_WALKING_UP
  | Down => STATE_WALKING_DOWN
  | Right => STATE_WALKING_RIGHT
  | Left => STATE_WALKING_LEFT
  end.



(** The first directional action for player [n], in list order. *)
Fixpoint first_direction (n : Z) (input_actions : list (Z * Action))
    : option Direction :=
  match input_actions with
  | [] => None
  | item :: rest =>
      if decide (item.1 = n) then
        match direction_of_action item.2 with
        | Some d => Some d
        | None => first_direction n rest
        end
      else first_direction n rest
  end.

(** The direction the specification's priority order Up, Down, Right, Left
    selects among the directional actions present for player [n]. *)
Definition priority_direction (n : Z) (input_actions : list (Z * Action))
    : option Direction :=
  if bool_decide ((n, ACTION_UP) ∈ input_actions) then Some Up
  else if bool_decide ((n, ACTION_DOWN) ∈ input_actions) then Some Down
  else if bool_decide ((n, ACTION_RIGHT) ∈ input_actions) then Some Right
  else if bool_decide ((n, ACTION_LEFT) ∈ input_actions) then Some Left
  else None.

(** The tile sequence of a map string: its fourth field, white characters
    removed. *)
Definition tile_sequence (map_data : string) : option (list ascii) :=
  list_ascii_of_string <$>
    split ";"%char (remove_char "010"%char (remove_char " "%char map_data))
      !! 3%nat.

(** The character [c] marks the starting position of player [d]. *)
Definition is_spawn (d : nat) (c : ascii) : Prop :=
  isdigit c = true ∧ int_of_digit c = d.

#[export] Instance is_spawn_dec d c : Decision (is_spawn d c).
Proof. unfold is_spawn. apply _. Defined.

(** [k] is the last place of the tile sequence [ts] that marks the starting
    position of player [d]. *)
Definition last_spawn (ts : list ascii) (d k : nat) : Prop :=
  (∃ c, ts !! k = Some c ∧ is_spawn d c)
  ∧ ∀ k' c', (k < k')%nat → ts !! k' = Some c' → ¬ is_spawn d c'.

(** No place of [ts] marks the starting position of player [d]. *)
Definition no_spawn (ts : list ascii) (d : nat) : Prop :=
  ∀ k c, ts !! k = Some c → ¬ is_spawn d c.

(** The character that marks the starting position of slot [i]: the digit
    [i], for [i] below 10. *)
Definition digit_of_slot (i : nat) : ascii := ascii_of_nat (48 + i).

(** [k] is the last place of [ts] that holds the character [c]. *)
Definition last_occurrence (ts : list ascii) (c : ascii) (k : nat) : Prop :=
  ts !! k = Some c ∧ ∀ k', (k < k')%nat → ts !! k' ≠ Some c.

(** A boolean check of [last_occurrence]. *)
Definition last_occurrenceb (ts : list ascii) (c : ascii) (k : nat) : bool :=
  bool_decide (ts !! k = Some c) && bool_decide (c ∉ drop (S k) ts).

Section Notions.
Context {F : Type} `{Coord F}.

(** The position of a player that starts on the tile with raster index [k]. *)
Definition spawn_position (k : nat) : F * F :=
  (fadd (float_of_int (Z.of_nat k mod MAP_WIDTH)) f_0_5,
   fadd (float_of_int (Z.of_nat k / MAP_WIDTH)) f_0_5).

(** One step of length [d] in direction [dir]; the y axis points down. *)
Definition step_in (dir : Direction) (d : F) (pos : F * F) : F * F :=
  match dir with
  | Up => (pos.1, fsub pos.2 d)
  | Down => (pos.1, fadd pos.2 d)
  | Right => (fadd pos.1 d, pos.2)
  | Left => (fsub pos.1 d, pos.2)
  end.

(** The centre of the tile that contains [pos]. *)
Definition tile_center (pos : F * F) : F * F :=
  (fadd (float_of_int (math_floor pos.1)) f_0_5,
   fadd (float_of_int (math_floor pos.2)) f_0_5).

(** The bomb a player at [pos], stored at [self], places. *)
Definition placed_bomb (self : nat) (pos : F * F) : Bomb F :=
  mkBomb (tile_center pos) 0 (Some self) 3000.

(** A bomb placement is possible for player [p] on map [m]. *)
Definition can_place (p : Player F) (m : Map F) : Prop :=
  bombs_left p >= 1 ∧ tile_has_bomb m (position p) = false.


(** The bomb at address [r] of the store [objects] outlives its fuse once
    [dt] more milliseconds have passed. *)
Definition expires (dt : Z) (objects : list (Bomb F)) (r : nat) : bool :=
  match objects !! r with
  | Some b => bool_decide (time_of_existence b + dt > explodes_in b)
  | None => false
  end.

Definition owner (objects : list (Bomb F)) (r : nat) : option nat :=
  objects !! r ≫= player.

(** The bombs of [l] that expire after [dt] and belong to the player at [o]. *)
Definition expired_of (dt : Z) (objects : list (Bomb F)) (o : nat)
    (l : list nat) : list nat :=
  filter (λ r, owner objects r = Some o ∧ expires dt objects r = true) l.

(** A bomb after [dt] more milliseconds. *)
Definition aged (dt : Z) (b : Bomb F) : Bomb F :=
  set_time_of_existence (time_of_existence b + dt) b.

(** The owner of the bomb at [r] gets one bomb back. *)
Definition credit (objects : list (Bomb F)) (ps : list (Player F)) (r : nat)
    : list (Player F) :=
  match owner objects r with
  | Some o =>
      match ps !! o with
      | Some p => <[o := bomb_exploded p]> ps
      | None => ps
      end
  | None => ps
  end.

(** The references of a map are sound: [self.bombs] holds distinct objects,
    each allocated and owned by a player of the map. *)
Definition wf_map (m : Map F) : Prop :=
  NoDup (bombs m) ∧
  ∀ r, r ∈ bombs m →
    ∃ b o, bomb_objects m !! r = Some b ∧ player b = Some o
           ∧ (o < length (players m))%nat.

Definition total_time (dts : list Z) : Z := foldr Z.add 0 dts.

(** No player of the map has a negative number of bombs left. *)
Definition budgets_ok (m : Map F) : Prop :=
  Forall (λ p, 0 <= bombs_left p) (players m).

(** A sequence of calls [simulation_step], each with its actions and its
    [dt]. *)
Fixpoint simulation (steps : list (list (Z * Action) * Z)) (game_map : Map F)
    : option (Map F) :=
  match steps with
  | [] => Some game_map
  | step :: steps' =>
      m ← simulation_step step.1 step.2 game_map; simulation steps' m
  end.

(** A boolean check of [wf_map]. *)
Definition wf_mapb (m : Map F) : bool :=
  bool_decide (NoDup (bombs m))
  && forallb
       (λ r, match owner (bomb_objects m) r with
             | Some o => bool_decide (o < length (players m))%nat
             | None => false
             end)
       (bombs m).

(** A sequence of calls [update(dt)]. *)
Fixpoint updates (self : Map F) (dts : list Z) : option (Map F) :=
  match dts with
  | [] => Some self
  | dt :: dts' => m ← update self dt; updates m dts'
  end.

(** The state of the tile loop after the non-empty prefix [pre] of the tile
    sequence: complete rows [full], then the row being filled. *)
Definition rows_inv (pre : list ascii) (st : TileLoop F) : Prop :=
  let j := (length pre - 1)%nat in
  ∃ full last,
    tl_tiles st = full ++ [last]
    ∧ length full = (j / 15)%nat
    ∧ Forall (λ row, length row = 15%nat) full
    ∧ length last = (j mod 15 + 1)%nat
    ∧ concat (full ++ [last]) = tile_of_character <$> pre
    ∧ tl_line st = Z.of_nat (j / 15)
    ∧ tl_column st = Z.of_nat (j mod 15 + 1).

(** The starting positions recorded after the prefix [pre]. *)
Definition spawn_inv (pre : list ascii) (st : TileLoop F) : Prop :=
  length (tl_starting_positions st) = 10%nat
  ∧ ∀ d, (d < 10)%nat →
      (∃ k, last_spawn pre d k
            ∧ tl_starting_positions st !! d
              = Some (float_of_int (Z.of_nat k mod MAP_WIDTH),
                      float_of_int (Z.of_nat k / MAP_WIDTH)))
      ∨ (no_spawn pre d ∧ tl_starting_positions st !! d = Some (f_0_0, f_0_0)).

End Notions.

(** ** Concrete inputs, in rational coordinates *)

Definition empty_map : Map Q := mkMap [] EmptyString [] ∅ [] [].

(** The map of the game, as [Game.run] constructs it. *)
Definition map1 : Map Q := default empty_map (Map_init MAP1 PlaySetup_init).

(** Player 0 of that map, at its starting position (1.5, 1.5). *)
Definition player0 : Player Q := default Player_init (players map1 !! 0%nat).

(** The map after player 0 has reacted to one place-bomb action. *)
Definition map1_bomb : Map Q :=
  players_react 1 0 [(0, ACTION_BOMB)] 100 map1.

(** The tile sequence of [MAP1]. *)
Definition map1_tiles : list ascii := default [] (tile_sequence MAP1).

(** A map string that is three tiles long. *)
Definition short_map_data : string := "env1;;;x.#".

(** A map with one starting position, of player 5, in column 3 of row 2,
    and a setup in which only slot 5 is active. *)
Definition scenario_map_data : string :=
  ("env1;;;" ++
   "..............." ++
   "..............." ++
   "...5..........." ++
   "..............." ++
   "..............." ++
   "..............." ++
   "..............." ++
   "..............." ++
   "..............." ++
   "..............." ++
   "...............")%string.

Definition scenario_setup : PlaySetup :=
  mkPlaySetup (<[5%nat := Some (5, 0)]> (replicate 10 None)).

Definition scenario_map : Map Q :=
  default empty_map (Map_init scenario_map_data scenario_setup).

(** The map after five steps of the simulation on [map1]: player 0 has two
    bombs on the map, of ages 3000 and 2700, player 1 one of age 2700 and
    player 2 one of age 100. *)
Definition map1_crowded : Map Q :=
  default empty_map
    (simulation
       [([(0, ACTION_BOMB)], 100); ([(0, ACTION_RIGHT)], 200);
        ([(0, ACTION_BOMB); (1, ACTION_BOMB)], 100); ([], 2500);
        ([(2, ACTION_BOMB)], 100)]
       map1).

(** A valid map string in which no digit occurs but the 5. *)
Definition scenario_tiles : list ascii :=
  default [] (tile_sequence scenario_map_data).

(** ** The rest of [Positionable], [Player] and [Map] *)

Definition get_number {F : Type} (self : Player F) : Z := number self.
Definition get_state {F : Type} (self : Player F) : State := state self.
Definition get_state_time {F : Type} (self : Player F) : Z := state_time self.

(** The characters of [Map.__str__]. *)
Definition character_of_tile (tile : Tile) : ascii :=
  if decide (tile = TILE_FLOOR) then " "%char
  else if decide (tile = TILE_BLOCK) then "x"%char
  else "#"%char.

(** [Map.__str__]: the rows of the grid, each followed by a newline. *)
Definition Map_str {F : Type} (self : Map F) : string :=
  fold_left
    (λ result line,
       String.append
         (fold_left
            (λ result tile,
               String.append result (String (character_of_tile tile) EmptyString))
            line result)
         (String "010"%char EmptyString))
    (tiles self) EmptyString.

(** ** [PlayerKeyMaps] *)

(** [self.key_maps]: a dictionary from key codes to (player number, action). *)
Record PlayerKeyMaps : Type := mkPlayerKeyMaps {
  key_maps : gmap Z (Z * Action)
}.

(** [PlayerKeyMaps.__init__] *)
Definition PlayerKeyMaps_init : PlayerKeyMaps := mkPlayerKeyMaps ∅.

(** [PlayerKeyMaps.set_player_key_map]: six assignments, in this order. *)
Definition set_player_key_map (self : PlayerKeyMaps) (player_number : Z)
    (key_up key_right key_down key_left key_bomb key_special : Z)
    : PlayerKeyMaps :=
  let km := key_maps self in
  let km := <[key_up := (player_number, ACTION_UP)]> km in
  let km := <[key_right := (player_number, ACTION_RIGHT)]> km in
  let km := <[key_down := (player_number, ACTION_DOWN)]> km in
  let km := <[key_left := (player_number, ACTION_LEFT)]> km in
  let km := <[key_bomb := (player_number, ACTION_BOMB)]> km in
  let km := <[key_special := (player_number, ACTION_SPECIAL)]> km in
  mkPlayerKeyMaps km.

(** [PlayerKeyMaps.set_special_key_map] *)
Definition set_special_key_map (self : PlayerKeyMaps) (key_menu : Z)
    : PlayerKeyMaps :=
  mkPlayerKeyMaps (<[key_menu := (-1, ACTION_MENU)]> (key_maps self)).

(** The loop of [PlayerKeyMaps.get_current_actions].  [order] is the order
    in which [for key_code in self.key_maps] visits the keys, which Python
    leaves open; [keys_pressed] is the state of the keyboard that
    [pygame.key.get_pressed()] returns.  [None] is the [KeyError] of
    [self.key_maps[key_code]]. *)
Fixpoint get_current_actions_loop (km : gmap Z (Z * Action))
    (keys_pressed : Z → bool) (order : list Z) (result : list (Z * Action))
    : option (list (Z * Action)) :=
  match order with
  | [] => Some result
  | key_code :: order' =>
      if keys_pressed key_code then
        a ← km !! key_code;
        get_current_actions_loop km keys_pressed order' (result ++ [a])
      else get_current_actions_loop km keys_pressed order' result
  end.

Definition get_current_actions (self : PlayerKeyMaps) (order : list Z)
    (keys_pressed : Z → bool) : option (list (Z * Action)) :=
  get_current_actions_loop (key_maps self) keys_pressed order [].

(** [order] visits every key of the dictionary once. *)
Definition iteration_order (self : PlayerKeyMaps) (order : list Z) : Prop :=
  NoDup order ∧ ∀ k, k ∈ order ↔ is_Some (key_maps self !! k).

(** What a key contributes to the current actions. *)
Definition key_action (km : gmap Z (Z * Action)) (keys_pressed : Z → bool)
    (k : Z) : option (Z * Action) :=
  if keys_pressed k then km !! k else None.

(** ** Further notions *)

(** An item that [react_to_inputs] of player [n] looks at: it carries the
    player's number and a direction or the bomb action. *)
Definition relevant (n : Z) (item : Z * Action) : Prop :=
  item.1 = n ∧ item.2 ≠ ACTION_SPECIAL ∧ item.2 ≠ ACTION_MENU.

#[export] Instance relevant_dec n item : Decision (relevant n item).
Proof. unfold relevant. apply _. Defined.

(** The indices of the active slots, from index [i] on. *)
Fixpoint active_slots (i : nat) (slots : list (option (Z * Z))) : list nat :=
  match slots with
  | [] => []
  | Some _ :: slots' => i :: active_slots (S i) slots'
  | None :: slots' => active_slots (S i) slots'
  end.

Section FurtherNotions.
Context {F : Type} `{Coord F}.

(** The tile of a position. *)
Definition tile_of (pos : F * F) : Z * Z := (math_floor pos.1, math_floor pos.2).

(** The centre of every tile lies in that tile.  It holds in exact
    arithmetic; in binary floating point it holds for tiles of a magnitude
    below 2^52, among them all tiles of a map, and fails beyond. *)
Definition center_law : Prop :=
  ∀ z : Z, math_floor (fadd (float_of_int z) f_0_5) = z.

(** The live bombs of the map that the player at [o] owns. *)
Definition owned (m : Map F) (o : nat) : list nat :=
  filter (λ r, owner (bomb_objects m) r = Some o) (bombs m).

(** Every player's bombs are accounted for: those left plus those live. *)
Definition conserved (m : Map F) : Prop :=
  ∀ o p, players m !! o = Some p →
    bombs_left p + Z.of_nat (length (owned m o)) = 5.

(** The tiles of the live bombs, in the order of [self.bombs]. *)
Definition bomb_tiles (m : Map F) : list (Z * Z) :=
  omap (λ r, (λ b, tile_of (bomb_position b)) <$> bomb_objects m !! r) (bombs m).

(** Every live bomb has the fuse of 3000 ms and has not outlived it. *)
Definition bombs_in_time (m : Map F) : Prop :=
  ∀ r b, r ∈ bombs m → bomb_objects m !! r = Some b →
    explodes_in b = 3000 ∧ 0 <= time_of_existence b <= 3000.

(** The player object at [i] reacts and is written back, as in one round of
    the loop of [simulation_step]. *)
Definition player_reacts (i : nat) (p : Player F) (actions : list (Z * Action))
    (dt : Z) (m : Map F) : Map F :=
  set_players (<[i := (react_to_inputs i p actions dt m).1]>
                 (players (react_to_inputs i p actions dt m).2))
    (react_to_inputs i p actions dt m).2.

(** A player as [Player.__init__] leaves it, but for number and position. *)
Definition initial_attributes (p : Player F) : Prop :=
  team_color p = COLOR_WHITE ∧ state p = STATE_IDLE_DOWN ∧ state_time p = 0
  ∧ speed p = INITIAL_SPEED ∧ bombs_left p = 5.

(** A bomb as [react_to_inputs] of the player at [self] creates it. *)
Definition fresh_bomb (self : nat) (b : Bomb F) : Prop :=
  player b = Some self ∧ time_of_existence b = 0 ∧ explodes_in b = 3000.

(** [m'] is [m] with the bombs [new] allocated and appended to the live
    bombs, and nothing else changed. *)
Definition bombs_added (m m' : Map F) (new : list (Bomb F)) : Prop :=
  bomb_objects m' = bomb_objects m ++ new
  ∧ bombs m' = bombs m ++ seq (length (bomb_objects m)) (length new)
  ∧ tiles m' = tiles m
  ∧ environment_name m' = environment_name m
  ∧ players m' = players m
  ∧ players_by_numbers m' = players_by_numbers m.

End FurtherNotions.

(** * Properties *)

(** ** The loop of [react_to_inputs] *)

Section PlayerProperties.
Context {F : Type} `{Coord F}.

Implicit Types (p : Player F) (m : Map F) (st : LoopState F).
Implicit Types (acts : list (Z * Action)) (a : Action).


Lemma collapse_not_dead s : collapse s ≠ STATE_DEAD.
Proof. by destruct s. Qed.

Lemma walking_not_idle d s : walking d ≠ collapse s.
Proof. by destruct d, s. Qed.

(** What the bomb branch leaves alone. *)
Lemma react_bomb_frame self a p m :
  let p' := (react_bomb self a p m).1 in
  position p' = position p ∧ number p' = number p ∧ state p' = state p
  ∧ state_time p' = state_time p ∧ speed p' = speed p.
Proof.
  unfold react_bomb.
  destruct (bool_decide (a = ACTION_BOMB) && bool_decide (bombs_left p >= 1)
            && negb (tile_has_bomb m (position p))); simpl; auto.
Qed.

(** What the movement chain leaves alone. *)
Lemma react_move_frame d a p moved :
  let p' := (react_move d a p moved).1 in
  number p' = number p ∧ state_time p' = state_time p ∧ speed p' = speed p
  ∧ bombs_left p' = bombs_left p.
Proof. unfold react_move. destruct moved, a; simpl; auto. Qed.

(** The movement chain: a directional action moves a player that has not
    moved yet, and nothing else does. *)
Lemma react_move_spec d a p moved :
  react_move d a p moved =
    match moved, direction_of_action a with
    | false, Some dir =>
        (set_state (walking dir) (set_position (step_in dir d (position p)) p),
         true)
    | _, _ => (p, moved)
    end.
Proof. unfold react_move. destruct moved, a; reflexivity. Qed.

Lemma react_item_other self d st item :
  item.1 ≠ number (loop_player st) → react_item self d st item = st.
Proof. intros Hne. unfold react_item. by rewrite bool_decide_true. Qed.

Lemma react_item_own self d st item :
  item.1 = number (loop_player st) →
  react_item self d st item =
    let pm := react_move d item.2 (loop_player st) (loop_moved st) in
    let pg := react_bomb self item.2 pm.1 (loop_map st) in
    mkLoop pg.1 pm.2 pg.2.
Proof.
  intros He. unfold react_item. rewrite bool_decide_false; [done | ].
  intros Hne. by apply Hne.
Qed.

Lemma react_item_number self d st item :
  number (loop_player (react_item self d st item)) = number (loop_player st).
Proof.
  destruct (decide (item.1 = number (loop_player st))) as [He | Hne].
  - rewrite react_item_own by done. simpl.
    destruct (react_bomb_frame self item.2
                (react_move d item.2 (loop_player st) (loop_moved st)).1
                (loop_map st)) as (_ & -> & _).
    by destruct (react_move_frame d item.2 (loop_player st) (loop_moved st))
      as (-> & _).
  - by rewrite react_item_other.
Qed.

Lemma react_item_state_time self d st item :
  state_time (loop_player (react_item self d st item))
  = state_time (loop_player st).
Proof.
  destruct (decide (item.1 = number (loop_player st))) as [He | Hne].
  - rewrite react_item_own by done. simpl.
    destruct (react_bomb_frame self item.2
                (react_move d item.2 (loop_player st) (loop_moved st)).1
                (loop_map st)) as (_ & _ & _ & -> & _).
    by destruct (react_move_frame d item.2 (loop_player st) (loop_moved st))
      as (_ & -> & _).
  - by rewrite react_item_other.
Qed.

Lemma react_loop_cons self d item acts st :
  react_loop self d (item :: acts) st
  = react_loop self d acts (react_item self d st item).
Proof. reflexivity. Qed.


Lemma react_loop_state_time self d acts st :
  state_time (loop_player (react_loop self d acts st))
  = state_time (loop_player st).
Proof.
  revert st. induction acts as [| item acts IH]; intros st; [done | ].
  by rewrite react_loop_cons, IH, react_item_state_time.
Qed.

(** Once [moved] is set, the loop changes neither position nor state. *)
Lemma react_loop_moved self d acts st :
  loop_moved st = true →
  let st' := react_loop self d acts st in
  loop_moved st' = true
  ∧ position (loop_player st') = position (loop_player st)
  ∧ state (loop_player st') = state (loop_player st).
Proof.
  revert st. induction acts as [| item acts IH]; intros st Hm; [done | ].
  cbv zeta. rewrite react_loop_cons.
  destruct (decide (item.1 = number (loop_player st))) as [He | Hne].
  - rewrite react_item_own by done.
    rewrite react_move_spec, Hm. cbv zeta. cbn [fst snd].
    destruct (react_bomb_frame self item.2 (loop_player st) (loop_map st))
      as (Hpos & _ & Hst & _).
    destruct (IH (mkLoop (react_bomb self item.2 (loop_player st) (loop_map st)).1
                    true
                    (react_bomb self item.2 (loop_player st) (loop_map st)).2)
                eq_refl) as (-> & -> & ->).
    simpl. by rewrite Hpos, Hst.
  - rewrite react_item_other by done. by apply IH.
Qed.

(** The loop, from a state in which the player has not moved: the first
    directional action for the player decides, whatever follows it. *)
Lemma react_loop_first self d acts st :
  loop_moved st = false →
  let st' := react_loop self d acts st in
  match first_direction (number (loop_player st)) acts with
  | Some dir =>
      position (loop_player st') = step_in dir d (position (loop_player st))
      ∧ state (loop_player st') = walking dir
  | None =>
      position (loop_player st') = position (loop_player st)
      ∧ state (loop_player st') = state (loop_player st)
  end.
Proof.
  revert st. induction acts as [| item acts IH]; intros st Hm; [done | ].
  cbv zeta. rewrite react_loop_cons. simpl first_direction.
  destruct (decide (item.1 = number (loop_player st))) as [He | Hne].
  - rewrite react_item_own by done.
    rewrite react_move_spec, Hm.
    destruct (direction_of_action item.2) as [dir | ] eqn:Hdir;
      cbv zeta; cbn [fst snd].
    + set (q := set_state (walking dir)
                  (set_position (step_in dir d (position (loop_player st)))
                     (loop_player st))).
      destruct (react_bomb_frame self item.2 q (loop_map st))
        as (Hpos & _ & Hst & _).
      destruct (react_loop_moved self d acts
                  (mkLoop (react_bomb self item.2 q (loop_map st)).1 true
                     (react_bomb self item.2 q (loop_map st)).2) eq_refl)
        as (_ & Hp & Hs).
      rewrite Hp, Hs. simpl. by rewrite Hpos, Hst.
    + destruct (react_bomb_frame self item.2 (loop_player st) (loop_map st))
        as (Hpos & Hnum & Hst & _).
      specialize (IH (mkLoop
                        (react_bomb self item.2 (loop_player st) (loop_map st)).1
                        false
                        (react_bomb self item.2 (loop_player st) (loop_map st)).2)
                    eq_refl).
      simpl in IH. rewrite Hnum, Hpos, Hst in IH. exact IH.
  - rewrite react_item_other by done. by apply IH.
Qed.

(** [react_to_inputs] in terms of its loop. *)
Lemma react_to_inputs_unfold self p acts dt m :
  let st' := react_loop self (distance_to_travel dt p) acts
               (mkLoop (set_state (collapse (state p)) p) false m) in
  let r := react_to_inputs self p acts dt m in
  position r.1 = position (loop_player st')
  ∧ state r.1 = state (loop_player st')
  ∧ number r.1 = number (loop_player st')
  ∧ bombs_left r.1 = bombs_left (loop_player st')
  ∧ state_time r.1 =
      (if bool_decide (state p = state (loop_player st'))
       then state_time (loop_player st') + dt else 0)
  ∧ r.2 = loop_map st'.
Proof.
  unfold react_to_inputs. cbv zeta. cbn [fst snd].
  destruct (bool_decide (state p = _)); repeat split; reflexivity.
Qed.

(** Position and state after [react_to_inputs]. *)
Lemma react_to_inputs_result self p acts dt m :
  let p' := (react_to_inputs self p acts dt m).1 in
  match first_direction (number p) acts with
  | Some dir =>
      position p' = step_in dir (distance_to_travel dt p) (position p)
      ∧ state p' = walking dir
  | None => position p' = position p ∧ state p' = collapse (state p)
  end.
Proof.
  destruct (react_to_inputs_unfold self p acts dt m) as (Hpos & Hst & _).
  cbv zeta. rewrite Hpos, Hst.
  exact (react_loop_first self (distance_to_travel dt p) acts
           (mkLoop (set_state (collapse (state p)) p) false m) eq_refl).
Qed.

Lemma first_direction_app n pre dir post :
  first_direction n pre = None →
  first_direction n (pre ++ (n, action_of_direction dir) :: post) = Some dir.
Proof.
  induction pre as [| item pre IH]; simpl.
  - intros _. rewrite decide_True by done. by destruct dir.
  - destruct (decide (item.1 = n)); [ | done].
    by destruct (direction_of_action item.2).
Qed.

(** C3 (as amended).  Among several directional actions for one player in
    one tick, the one that takes effect is the first in list order: if no
    directional action for the player occurs in [pre], then after
    [pre ++ (n, dir) :: post] the player walks in direction [dir], whatever
    directional actions [post] holds.  The order Up, Down, Right, Left of
    the [elif] chain plays no role, since an item carries one action. *)
Theorem react_to_inputs_first_in_list_wins self p acts_before dir acts_after dt m :
  first_direction (number p) acts_before = None →
  let acts := acts_before ++ (number p, action_of_direction dir) :: acts_after in
  let p' := (react_to_inputs self p acts dt m).1 in
  state p' = walking dir
  ∧ position p' = step_in dir (distance_to_travel dt p) (position p).
Proof.
  intros Hpre acts p'.
  pose proof (react_to_inputs_result self p acts dt m) as Hr.
  unfold acts in Hr. rewrite (first_direction_app _ _ dir acts_after Hpre) in Hr.
  destruct Hr as [Hpos Hst]. by split.
Qed.

(** C6 (as amended).  After [react_to_inputs], [state_time] is reset to 0 when the
    resulting state differs from the state at the start of the call, and is
    the previous [state_time] plus [dt] when the state is the same; so,
    unless that sum is itself 0, [state_time] is 0 exactly when the state
    has changed. *)
Theorem react_to_inputs_state_time self p acts dt m :
  let p' := (react_to_inputs self p acts dt m).1 in
  (state p' ≠ state p → state_time p' = 0)
  ∧ (state p' = state p → state_time p' = state_time p + dt)
  ∧ (state_time p + dt ≠ 0 → (state_time p' = 0 ↔ state p' ≠ state p)).
Proof.
  destruct (react_to_inputs_unfold self p acts dt m)
    as (_ & Hst & _ & _ & Htime & _).
  cbv zeta. rewrite Hst, Htime, react_loop_state_time. simpl.
  split; [ | split].
  - intros Hs. by rewrite bool_decide_false.
  - intros Hs. by rewrite bool_decide_true.
  - intros Hnz. case_bool_decide as Hs.
    + split; [intros H0; by destruct Hnz | intros Hne; by destruct Hne].
    + split; [intros _ Heq; by apply Hs | done].
Qed.

(** C10.  [STATE_DEAD] does not survive a tick: a dead player that gets no
    directional action ends in [STATE_IDLE_LEFT] (the [else] branch of the
    collapse), and no call of [react_to_inputs] ends in [STATE_DEAD]. *)
Theorem react_to_inputs_leaves_dead self p acts dt m :
  let p' := (react_to_inputs self p acts dt m).1 in
  (state p = STATE_DEAD → first_direction (number p) acts = None →
   state p' = STATE_IDLE_LEFT)
  ∧ state p' ≠ STATE_DEAD.
Proof.
  intros p'. pose proof (react_to_inputs_result self p acts dt m) as Hr.
  fold p' in Hr. split.
  - intros Hd Hn. rewrite Hn in Hr. destruct Hr as [_ ->]. by rewrite Hd.
  - destruct (first_direction (number p) acts) as [dir | ].
    + destruct Hr as [_ ->]. by destruct dir.
    + destruct Hr as [_ ->]. apply collapse_not_dead.
Qed.

End PlayerProperties.



(** ** Placing bombs *)

Section BombPlacement.
Context {F : Type} `{Coord F}.

Implicit Types (p : Player F) (m : Map F) (st : LoopState F).
Implicit Types (acts : list (Z * Action)) (a : Action).

Lemma can_place_guard p m :
  bool_decide (bombs_left p >= 1) && negb (tile_has_bomb m (position p)) = true
  ↔ can_place p m.
Proof.
  unfold can_place. rewrite andb_true_iff, bool_decide_eq_true, negb_true_iff.
  done.
Qed.

(** The bomb branch on a place-bomb action. *)
Lemma react_bomb_spec self p m :
  react_bomb self ACTION_BOMB p m =
    if bool_decide (bombs_left p >= 1) && negb (tile_has_bomb m (position p))
    then (set_bombs_left (bombs_left p - 1) p,
          add_bomb m (placed_bomb self (position p)))
    else (p, m).
Proof.
  unfold react_bomb. rewrite bool_decide_true by done. simpl andb.
  by destruct (bool_decide (bombs_left p >= 1)
               && negb (tile_has_bomb m (position p))).
Qed.

(** Any other action leaves budget and map alone. *)
Lemma react_bomb_other self a p m :
  a ≠ ACTION_BOMB → react_bomb self a p m = (p, m).
Proof. intros Ha. unfold react_bomb. by rewrite bool_decide_false. Qed.

Lemma same_tile_true (pos pos' : F * F) :
  same_tile pos pos' = true ↔ tile_of pos = tile_of pos'.
Proof.
  unfold same_tile, tile_of. rewrite andb_true_iff, !bool_decide_eq_true.
  split; [intros [-> ->]; done | intros [= -> ->]; done].
Qed.

Lemma tile_has_bomb_loop_true (objects : list (Bomb F)) (l : list nat)
    (pos : F * F) :
  tile_has_bomb_loop objects l pos = true
  ↔ ∃ r b, r ∈ l ∧ objects !! r = Some b
           ∧ tile_of pos = tile_of (bomb_position b).
Proof.
  induction l as [| r l IH]; simpl.
  - split; [done | ]. intros (r & b & Hr & _). by apply elem_of_nil in Hr.
  - destruct (objects !! r) as [b | ] eqn:Hb.
    + destruct (same_tile pos (bomb_position b)) eqn:Hs.
      * split; [ | done]. intros _. exists r, b.
        split; [apply list_elem_of_here | ]. split; [done | ].
        by apply same_tile_true.
      * rewrite IH. split.
        -- intros (r' & b' & Hr' & Hb' & Ht). exists r', b'.
           split; [by apply list_elem_of_further | done].
        -- intros (r' & b' & Hr' & Hb' & Ht).
           apply elem_of_cons in Hr' as [-> | Hr'].
           ++ rewrite Hb in Hb'. injection Hb' as <-.
              apply same_tile_true in Ht. congruence.
           ++ by exists r', b'.
    + rewrite IH. split.
      * intros (r' & b' & Hr' & Hb' & Ht). exists r', b'.
        split; [by apply list_elem_of_further | done].
      * intros (r' & b' & Hr' & Hb' & Ht).
        apply elem_of_cons in Hr' as [-> | Hr']; [congruence | ].
        by exists r', b'.
Qed.






(** After a placement the map reports a bomb on the player's tile, provided
    the centre of a tile lies in that tile (as it does whenever the
    arithmetic is exact on the numbers involved). *)
Lemma placed_bomb_reported self p m :
  math_floor (tile_center (position p)).1 = math_floor (position p).1 →
  math_floor (tile_center (position p)).2 = math_floor (position p).2 →
  tile_has_bomb (add_bomb m (placed_bomb self (position p))) (position p) = true.
Proof.
  intros Hx Hy. unfold tile_has_bomb, add_bomb.
  cbn [bombs bomb_objects set_bombs set_bomb_objects].
  generalize (bombs m) as l. induction l as [| r l IH]; cbn [app tile_has_bomb_loop].
  - rewrite lookup_app_r, Nat.sub_diag by done. cbn [lookup list_lookup].
    unfold same_tile. cbn [bomb_position placed_bomb].
    by rewrite Hx, Hy, !bool_decide_true.
  - destruct ((bomb_objects m ++ [placed_bomb self (position p)]) !! r)
      as [b | ]; [ | done].
    by destruct (same_tile (position p) (bomb_position b)).
Qed.

(** Items of other players are skipped by the loop. *)
Lemma react_loop_skip self d acts st :
  Forall (λ item, item.1 ≠ number (loop_player st)) acts →
  react_loop self d acts st = st.
Proof.
  induction 1 as [| item acts Hne _ IH]; [done | ].
  by rewrite react_loop_cons, react_item_other.
Qed.

(** A whole call whose only action for the player is one place-bomb
    action: the bomb is placed from the position the player starts at. *)
Lemma react_to_inputs_only_bomb self p acts_before acts_after dt m :
  Forall (λ item, item.1 ≠ number p) acts_before →
  Forall (λ item, item.1 ≠ number p) acts_after →
  can_place p m →
  let r := react_to_inputs self p
             (acts_before ++ (number p, ACTION_BOMB) :: acts_after) dt m in
  bombs_left r.1 = bombs_left p - 1
  ∧ position r.1 = position p
  ∧ bombs r.2 = bombs m ++ [length (bomb_objects m)]
  ∧ bomb_objects r.2 = bomb_objects m ++ [placed_bomb self (position p)].
Proof.
  intros Hb Ha Hc.
  destruct (react_to_inputs_unfold self p
              (acts_before ++ (number p, ACTION_BOMB) :: acts_after) dt m)
    as (Hpos & _ & _ & Hbl & _ & Hm).
  cbv zeta. rewrite Hpos, Hbl, Hm. clear Hpos Hbl Hm.
  unfold react_loop. rewrite fold_left_app. simpl fold_left.
  fold (react_loop self (distance_to_travel dt p) acts_before
          (mkLoop (set_state (collapse (state p)) p) false m)).
  rewrite (react_loop_skip _ _ acts_before) by done.
  set (st1 := react_item _ _ _ _).
  fold (react_loop self (distance_to_travel dt p) acts_after st1).
  assert (Hst1 : st1 = mkLoop
                   (set_bombs_left (bombs_left p - 1)
                      (set_state (collapse (state p)) p)) false
                   (add_bomb m (placed_bomb self (position p)))).
  { unfold st1. rewrite react_item_own by done. cbn [fst snd loop_player loop_map loop_moved].
    rewrite react_move_spec. simpl direction_of_action. cbn [fst snd].
    rewrite react_bomb_spec.
    assert (Hg : bool_decide (bombs_left (set_state (collapse (state p)) p) >= 1)
                 && negb (tile_has_bomb m
                            (position (set_state (collapse (state p)) p))) = true)
      by by apply can_place_guard.
    by rewrite Hg. }
  rewrite react_loop_skip by (by rewrite Hst1).
  by rewrite Hst1.
Qed.

(** The loop body never takes the budget below zero and never raises it,
    and it does not touch the player objects stored in the map. *)
Lemma react_item_budget self d st item :
  0 <= bombs_left (loop_player st) →
  0 <= bombs_left (loop_player (react_item self d st item))
       <= bombs_left (loop_player st).
Proof.
  intros Hb.
  destruct (decide (item.1 = number (loop_player st))) as [He | Hne];
    [ | rewrite react_item_other by done; lia].
  rewrite react_item_own by done. cbn [fst snd loop_player].
  destruct (react_move_frame d item.2 (loop_player st) (loop_moved st))
    as (_ & _ & _ & Hbl).
  revert Hbl. generalize (react_move d item.2 (loop_player st) (loop_moved st)).1.
  intros q Hq. unfold react_bomb.
  destruct (bool_decide (item.2 = ACTION_BOMB)); simpl; [ | lia].
  destruct (bool_decide (bombs_left q >= 1)) eqn:Hge; simpl; [ | lia].
  apply bool_decide_eq_true in Hge.
  destruct (negb (tile_has_bomb (loop_map st) (position q))); simpl; lia.
Qed.

Lemma react_item_players self d st item :
  players (loop_map (react_item self d st item)) = players (loop_map st).
Proof.
  unfold react_item. destruct (bool_decide (item.1 ≠ _)); [done | ].
  cbn [fst snd loop_map]. unfold react_bomb.
  by destruct (bool_decide (item.2 = ACTION_BOMB) && _ && _).
Qed.

Lemma react_loop_budget self d acts st :
  0 <= bombs_left (loop_player st) →
  0 <= bombs_left (loop_player (react_loop self d acts st))
       <= bombs_left (loop_player st).
Proof.
  revert st. induction acts as [| item acts IH]; intros st Hb; [simpl; lia | ].
  rewrite react_loop_cons.
  pose proof (react_item_budget self d st item Hb) as H1.
  pose proof (IH (react_item self d st item) (proj1 H1)) as H2. lia.
Qed.

Lemma react_loop_players self d acts st :
  players (loop_map (react_loop self d acts st)) = players (loop_map st).
Proof.
  revert st. induction acts as [| item acts IH]; intros st; [done | ].
  by rewrite react_loop_cons, IH, react_item_players.
Qed.

Lemma react_to_inputs_budget self p acts dt m :
  0 <= bombs_left p →
  0 <= bombs_left (react_to_inputs self p acts dt m).1 <= bombs_left p.
Proof.
  intros Hb.
  destruct (react_to_inputs_unfold self p acts dt m) as (_ & _ & _ & -> & _).
  by apply (react_loop_budget self _ acts
              (mkLoop (set_state (collapse (state p)) p) false m)).
Qed.

Lemma react_to_inputs_players self p acts dt m :
  players (react_to_inputs self p acts dt m).2 = players m.
Proof.
  destruct (react_to_inputs_unfold self p acts dt m) as (_ & _ & _ & _ & _ & ->).
  by rewrite react_loop_players.
Qed.

End BombPlacement.

(** ** [Map.update] *)

Section UpdateProperties.
Context {F : Type} `{Coord F}.

Implicit Types (p : Player F) (m : Map F) (b : Bomb F).
Implicit Types (objs : list (Bomb F)) (ps : list (Player F)).
Implicit Types (l rest done : list nat) (r o : nat).

Lemma list_remove_middle (l1 l2 : list nat) (x : nat) :
  x ∉ l1 → list_remove x (l1 ++ x :: l2) = Some (l1 ++ l2).
Proof.
  induction l1 as [| y l1 IH]; simpl; intros Hx.
  - by rewrite decide_True.
  - rewrite decide_False by set_solver. rewrite IH by set_solver. done.
Qed.

Lemma expires_true dt objs r b :
  objs !! r = Some b →
  expires dt objs r = true ↔ time_of_existence b + dt > explodes_in b.
Proof. intros Hb. unfold expires. rewrite Hb. apply bool_decide_eq_true. Qed.

Lemma expires_false dt objs r b :
  objs !! r = Some b →
  expires dt objs r = false ↔ time_of_existence b + dt <= explodes_in b.
Proof.
  intros Hb. unfold expires. rewrite Hb, bool_decide_eq_false. lia.
Qed.

Lemma credit_length objs ps r : length (credit objs ps r) = length ps.
Proof.
  unfold credit. destruct (owner objs r) as [o | ]; [ | done].
  destruct (ps !! o); [ | done]. apply length_insert.
Qed.

Lemma credit_all_length objs l ps :
  length (fold_left (credit objs) l ps) = length ps.
Proof.
  revert ps. induction l as [| r l IH]; intros ps; [done | ].
  simpl. by rewrite IH, credit_length.
Qed.

(** Crediting the owners of the bombs of [l]: the player at [o] gets back
    as many bombs as [l] holds bombs owned by [o]. *)
Lemma credit_all_lookup objs l ps o p :
  ps !! o = Some p →
  fold_left (credit objs) l ps !! o
  = Some (set_bombs_left
            (bombs_left p
             + Z.of_nat (length (filter (λ r, owner objs r = Some o) l))) p).
Proof.
  revert ps p. induction l as [| r l IH]; intros ps p Hp.
  - simpl. rewrite Hp. f_equal. destruct p; unfold set_bombs_left; simpl.
    f_equal. lia.
  - simpl fold_left. destruct (decide (owner objs r = Some o)) as [Ho | Ho].
    + rewrite filter_cons_True by done.
      assert (Hc : credit objs ps r !! o = Some (bomb_exploded p)).
      { unfold credit. rewrite Ho, Hp.
        apply list_lookup_insert_eq. by eapply lookup_lt_Some. }
      rewrite (IH _ _ Hc). f_equal. unfold set_bombs_left, bomb_exploded.
      simpl. f_equal. lia.
    + rewrite filter_cons_False by done.
      assert (Hc : credit objs ps r !! o = Some p).
      { unfold credit. destruct (owner objs r) as [o' | ]; [ | done].
        destruct (ps !! o') eqn:Ho'; [ | done].
        rewrite list_lookup_insert_ne; [done | congruence]. }
      by rewrite (IH _ _ Hc).
Qed.

(** The invariant of the [while] loop.  The list [self.bombs] is
    [done ++ rest]: [done] are the bombs already aged that stay, [i] is
    [length done], and [rest] are untouched, as in the store [objs0] the
    call started with. *)
Lemma update_loop_inv dt objs0 rest :
  ∀ done m (fuel : nat),
  bombs m = done ++ rest →
  NoDup (done ++ rest) →
  (∀ r, r ∈ rest →
     ∃ b o, bomb_objects m !! r = Some b ∧ objs0 !! r = Some b
            ∧ player b = Some o ∧ (o < length (players m))%nat) →
  (length rest < fuel)%nat →
  ∃ m', update_loop fuel dt (length done) m = Some m'
    ∧ bombs m' = done ++ filter (λ r, expires dt objs0 r = false) rest
    ∧ (∀ r, r ∈ rest → bomb_objects m' !! r = aged dt <$> objs0 !! r)
    ∧ (∀ r, r ∉ rest → bomb_objects m' !! r = bomb_objects m !! r)
    ∧ players m'
      = fold_left (credit objs0) (filter (λ r, expires dt objs0 r = true) rest)
          (players m)
    ∧ tiles m' = tiles m
    ∧ environment_name m' = environment_name m
    ∧ players_by_numbers m' = players_by_numbers m.
Proof.
  induction rest as [| r rest IH]; intros done m fuel Hbombs Hnd Hrefs Hfuel.
  - destruct fuel as [| fuel]; [simpl in Hfuel; lia | ].
    exists m. simpl update_loop.
    rewrite bool_decide_false
      by (rewrite Hbombs, length_app; simpl; lia).
    repeat split; try done. intros r Hr. by apply elem_of_nil in Hr.
  - destruct fuel as [| fuel]; [simpl in Hfuel; lia | ].
    simpl in Hfuel.
    destruct (Hrefs r) as (b & o & Hb & Hb0 & Ho & Hlt); [set_solver | ].
    apply NoDup_app in Hnd as (Hnd1 & Hnd2 & Hnd3).
    apply NoDup_cons in Hnd3 as (Hr_rest & Hnd3).
    assert (Hr_done : r ∉ done) by (intros Hin; apply (Hnd2 r Hin); set_solver).
    destruct (lookup_lt_is_Some_2 (players m) o Hlt) as [pl Hpl].
    simpl update_loop.
    rewrite bool_decide_true
      by (rewrite Hbombs, length_app; simpl; lia).
    rewrite Hbombs, list_lookup_middle by done. simpl.
    rewrite Hb. simpl.
    destruct (decide (time_of_existence b + dt > explodes_in b)) as [Hexp | Hexp].
    + rewrite bool_decide_true by done. rewrite Ho. simpl. rewrite Hpl. simpl.
      rewrite list_remove_middle by done. simpl.
      set (m3 := set_bombs _ _).
      destruct (IH done m3 fuel) as (m' & Hrun & Hbs & Hin & Hout & Hps & Ht & He & Hn).
      * done.
      * apply NoDup_app. split; [done | ]. split; [ | done].
        intros x Hx Hx'. apply (Hnd2 x Hx). set_solver.
      * intros r' Hr'. destruct (Hrefs r') as (b' & o' & Hb' & Hb0' & Ho' & Hlt');
          [set_solver | ].
        exists b', o'. split; [ | split; [done | split; [done | ]]].
        -- simpl. rewrite list_lookup_insert_ne; [done | ].
           intros ->. done.
        -- simpl. by rewrite length_insert.
      * lia.
      * exists m'. split; [done | ].
        assert (Hex : expires dt objs0 r = true) by by apply (expires_true _ _ _ b).
        split; [ | split; [ | split; [ | split; [ | done]]]].
        -- rewrite Hbs. rewrite filter_cons_False; [done | ].
           rewrite Hex. done.
        -- intros r' Hr'. apply elem_of_cons in Hr' as [-> | Hr'].
           ++ rewrite Hout by done. simpl. rewrite Hb0. simpl.
              apply list_lookup_insert_eq. by eapply lookup_lt_Some.
           ++ by apply Hin.
        -- intros r' Hr'. rewrite Hout by set_solver. simpl.
           apply list_lookup_insert_ne. set_solver.
        -- rewrite Hps. rewrite filter_cons_True by done. simpl.
           f_equal. unfold credit, owner. rewrite Hb0. simpl. rewrite Ho.
           by rewrite Hpl.
    + rewrite bool_decide_false by done.
      set (m1 := set_bomb_objects _ _).
      destruct (IH (done ++ [r]) m1 fuel)
        as (m' & Hrun & Hbs & Hin & Hout & Hps & Ht & He & Hn).
      * simpl. rewrite Hbombs. by rewrite <- app_assoc.
      * rewrite <- app_assoc. simpl. apply NoDup_app. split; [done | ].
        split; [done | ]. by apply NoDup_cons.
      * intros r' Hr'. destruct (Hrefs r') as (b' & o' & Hb' & Hb0' & Ho' & Hlt');
          [set_solver | ].
        exists b', o'. split; [ | done].
        simpl. rewrite list_lookup_insert_ne; [done | ]. intros ->. done.
      * lia.
      * exists m'. split.
        { rewrite <- Hrun. f_equal. rewrite length_app. simpl. lia. }
        assert (Hex : expires dt objs0 r = false)
          by (apply (expires_false _ _ _ b); [done | lia]).
        split; [ | split; [ | split; [ | split; [ | done]]]].
        -- rewrite Hbs. rewrite filter_cons_True by done.
           by rewrite <- app_assoc.
        -- intros r' Hr'. apply elem_of_cons in Hr' as [-> | Hr'].
           ++ rewrite Hout by done. simpl. rewrite Hb0. simpl.
              apply list_lookup_insert_eq. by eapply lookup_lt_Some.
           ++ by apply Hin.
        -- intros r' Hr'. rewrite Hout by set_solver. simpl.
           apply list_lookup_insert_ne. set_solver.
        -- rewrite Hps. rewrite filter_cons_False; [done | ].
           rewrite Hex. done.
Qed.

(** [update] on a sound map: the loop terminates without an exception, and
    its result is described in terms of the map it started from. *)
Lemma update_run m dt :
  wf_map m →
  ∃ m', update m dt = Some m'
    ∧ bombs m' = filter (λ r, expires dt (bomb_objects m) r = false) (bombs m)
    ∧ (∀ r, r ∈ bombs m → bomb_objects m' !! r = aged dt <$> bomb_objects m !! r)
    ∧ (∀ r, r ∉ bombs m → bomb_objects m' !! r = bomb_objects m !! r)
    ∧ players m'
      = fold_left (credit (bomb_objects m))
          (filter (λ r, expires dt (bomb_objects m) r = true) (bombs m))
          (players m)
    ∧ tiles m' = tiles m
    ∧ environment_name m' = environment_name m
    ∧ players_by_numbers m' = players_by_numbers m.
Proof.
  intros [Hnd Hrefs]. unfold update.
  apply (update_loop_inv dt (bomb_objects m) (bombs m) [] m); try done.
  - intros r Hr. destruct (Hrefs r Hr) as (b & o & Hb & Ho & Hlt).
    by exists b, o.
  - lia.
Qed.

Lemma update_wf m dt m' : wf_map m → update m dt = Some m' → wf_map m'.
Proof.
  intros Hwf Hup.
  destruct (update_run m dt Hwf) as (m2 & Hrun & Hbs & Hin & _ & Hps & _).
  rewrite Hup in Hrun. injection Hrun as <-.
  destruct Hwf as [Hnd Hrefs]. split.
  - rewrite Hbs. by apply NoDup_filter.
  - intros r Hr. rewrite Hbs in Hr. apply list_elem_of_filter in Hr as [_ Hr].
    destruct (Hrefs r Hr) as (b & o & Hb & Ho & Hlt).
    exists (aged dt b), o. rewrite (Hin r Hr), Hb. split; [done | ].
    split; [done | ]. by rewrite Hps, credit_all_length.
Qed.

(** C7.  One call of [update] on a map whose live bombs are distinct
    objects owned by players of the map: the call returns; every live bomb
    has [dt] added to its [time_of_existence] exactly once and no other bomb
    object changes; the live bombs afterwards are exactly those that did not
    expire, in their old order; and each player is credited once per
    expired bomb it owns. *)
Theorem update_processes_each_bomb_once m dt :
  wf_map m →
  ∃ m', update m dt = Some m'
    ∧ bombs m' = filter (λ r, expires dt (bomb_objects m) r = false) (bombs m)
    ∧ (∀ r b, r ∈ bombs m → bomb_objects m !! r = Some b →
         bomb_objects m' !! r
         = Some (set_time_of_existence (time_of_existence b + dt) b))
    ∧ (∀ r, r ∉ bombs m → bomb_objects m' !! r = bomb_objects m !! r)
    ∧ (∀ o p, players m !! o = Some p →
         players m' !! o
         = Some (set_bombs_left
                   (bombs_left p
                    + Z.of_nat (length (expired_of dt (bomb_objects m) o (bombs m))))
                   p))
    ∧ length (players m') = length (players m).
Proof.
  intros Hwf.
  destruct (update_run m dt Hwf) as (m' & Hrun & Hbs & Hin & Hout & Hps & _).
  exists m'. split; [done | ]. split; [done | ].
  split; [ | split; [done | split]].
  - intros r b Hr Hb. by rewrite (Hin r Hr), Hb.
  - intros o p Hp. rewrite Hps, (credit_all_lookup _ _ _ _ _ Hp).
    unfold expired_of. by rewrite list_filter_filter.
  - by rewrite Hps, credit_all_length.
Qed.

(** Calls of [update] on a sound map return, and never bring a bomb back. *)
Lemma updates_run dts :
  ∀ m, wf_map m →
  ∃ m', updates m dts = Some m' ∧ wf_map m' ∧ ∀ r, r ∈ bombs m' → r ∈ bombs m.
Proof.
  induction dts as [| dt dts IH]; intros m Hwf.
  - by exists m.
  - destruct (update_run m dt Hwf) as (m1 & Hrun & Hbs & _).
    destruct (IH m1 (update_wf _ _ _ Hwf Hrun)) as (m' & Hruns & Hwf' & Hsub).
    exists m'. simpl. rewrite Hrun. simpl. split; [done | ]. split; [done | ].
    intros r Hr. apply Hsub in Hr. rewrite Hbs in Hr.
    by apply list_elem_of_filter in Hr as [_ Hr].
Qed.

Lemma total_time_nonneg dts : Forall (λ dt, 0 <= dt) dts → 0 <= total_time dts.
Proof. induction 1; simpl; lia. Qed.

(** A live bomb stays live exactly as long as its accumulated time of
    existence does not exceed its fuse. *)
Lemma updates_live dts :
  ∀ m r b, wf_map m → r ∈ bombs m → bomb_objects m !! r = Some b →
  time_of_existence b <= explodes_in b →
  Forall (λ dt, 0 <= dt) dts →
  ∃ m', updates m dts = Some m'
    ∧ (r ∈ bombs m' ↔ time_of_existence b + total_time dts <= explodes_in b).
Proof.
  induction dts as [| dt dts IH]; intros m r b Hwf Hr Hb Hle Hdts.
  - exists m. split; [done | ]. simpl. split; [lia | done].
  - apply Forall_cons in Hdts as [Hdt Hdts].
    destruct (update_run m dt Hwf) as (m1 & Hrun & Hbs & Hin & _).
    pose proof (update_wf _ _ _ Hwf Hrun) as Hwf1.
    simpl updates. rewrite Hrun. simpl.
    destruct (decide (time_of_existence b + dt <= explodes_in b)) as [Hlive | Hdead].
    + assert (Hr1 : r ∈ bombs m1).
      { rewrite Hbs. apply list_elem_of_filter. split; [ | done].
        by apply (expires_false _ _ _ b). }
      destruct (IH m1 r (aged dt b) Hwf1 Hr1) as (m' & Hruns & Hiff); try done.
      * by rewrite (Hin r Hr), Hb.
      * exists m'. split; [done | ]. rewrite Hiff. simpl. lia.
    + destruct (updates_run dts m1 Hwf1) as (m' & Hruns & _ & Hsub).
      exists m'. split; [done | ].
      pose proof (total_time_nonneg dts Hdts). split; [ | lia].
      intros Hr'. apply Hsub in Hr'. rewrite Hbs in Hr'.
      apply list_elem_of_filter in Hr' as [Hex _].
      apply (expires_false _ _ _ b) in Hex; [lia | done].
Qed.

(** C2 (as amended).  A bomb with the fuse of 3000 ms that has just been
    placed is live after calls [update(dt)] exactly while the accumulated
    time is at most 3000 ms: it is still live at 3000 ms and gone at every
    later time, since [update] removes a bomb when its time of existence
    exceeds the fuse.  The call that removes a bomb credits its owner once
    for each bomb of that owner removed in the call, hence by exactly 1 when
    it is the only one. *)
Theorem bomb_live_until_fuse_exceeded m r b :
  wf_map m → r ∈ bombs m → bomb_objects m !! r = Some b →
  (time_of_existence b = 0 → explodes_in b = 3000 →
   ∀ dts, Forall (λ dt, 0 <= dt) dts →
     ∃ m', updates m dts = Some m'
       ∧ (r ∈ bombs m' ↔ total_time dts <= 3000))
  ∧ (∀ dt m' o p,
       update m dt = Some m' → r ∉ bombs m' →
       player b = Some o → players m !! o = Some p →
       let removed := expired_of dt (bomb_objects m) o (bombs m) in
       r ∈ removed
       ∧ (∃ p', players m' !! o = Some p'
            ∧ bombs_left p' = bombs_left p + Z.of_nat (length removed))
       ∧ (removed = [r] →
          ∃ p', players m' !! o = Some p'
            ∧ bombs_left p' = bombs_left p + 1)).
Proof.
  intros Hwf Hr Hb. split.
  - intros Ht He dts Hdts.
    destruct (updates_live dts m r b Hwf Hr Hb) as (m' & Hrun & Hiff);
      [lia | done | ].
    exists m'. split; [done | ]. rewrite Hiff, Ht, He. lia.
  - intros dt m' o p Hup Hgone Ho Hp removed.
    destruct (update_run m dt Hwf) as (m2 & Hrun & Hbs & _ & _ & Hps & _).
    rewrite Hup in Hrun. injection Hrun as <-.
    assert (Hin : r ∈ removed).
    { unfold removed, expired_of. apply list_elem_of_filter. split; [ | done].
      split; [unfold owner; by rewrite Hb | ].
      destruct (expires dt (bomb_objects m) r) eqn:Hex; [done | ].
      exfalso. apply Hgone. rewrite Hbs. by apply list_elem_of_filter. }
    assert (Hp' : players m' !! o
                  = Some (set_bombs_left
                            (bombs_left p + Z.of_nat (length removed)) p)).
    { rewrite Hps, (credit_all_lookup _ _ _ _ _ Hp).
      unfold removed, expired_of. by rewrite list_filter_filter. }
    split; [done | ]. split.
    + eexists. split; [exact Hp' | done].
    + intros Hone. eexists. split; [exact Hp' | ]. by rewrite Hone.
Qed.

(** [update] only raises budgets, on any map. *)
Lemma update_loop_budget (fuel : nat) dt :
  ∀ (i : nat) m m', update_loop fuel dt i m = Some m' →
  length (players m') = length (players m)
  ∧ ∀ o p, players m !! o = Some p →
      ∃ p', players m' !! o = Some p' ∧ bombs_left p <= bombs_left p'.
Proof.
  induction fuel as [| fuel IH]; intros i m m' Hrun; [done | ].
  simpl in Hrun.
  destruct (bool_decide (Z.of_nat i <= Z.of_nat (length (bombs m)) - 1)).
  2: { injection Hrun as <-. split; [done | ]. intros o p Hp. exists p.
       split; [done | lia]. }
  destruct (bombs m !! i) as [r | ]; [simpl in Hrun | done].
  destruct (bomb_objects m !! r) as [b | ]; [simpl in Hrun | done].
  destruct (bool_decide (time_of_existence b + dt > explodes_in b)).
  2: { apply IH in Hrun. exact Hrun. }
  destruct (player b) as [o | ]; [simpl in Hrun | done].
  destruct (players m !! o) as [pl | ] eqn:Hpl; [simpl in Hrun | done].
  destruct (list_remove r (bombs m)) as [l | ]; [simpl in Hrun | done].
  apply IH in Hrun as [Hlen Hmono]. simpl in Hlen, Hmono.
  rewrite length_insert in Hlen. split; [done | ].
  intros o' p Hp. destruct (decide (o' = o)) as [-> | Hne].
  - destruct (Hmono o (bomb_exploded pl)) as (p' & Hp' & Hle).
    { apply list_lookup_insert_eq. by eapply lookup_lt_Some. }
    exists p'. split; [done | ]. simpl in Hle.
    assert (p = pl) by congruence. subst. lia.
  - apply Hmono. by rewrite list_lookup_insert_ne.
Qed.

(** C9.  [bombs_left] never goes below zero: it starts at 5;
    [react_to_inputs] takes it down only from a value of at least 1, so it
    keeps it between 0 and its old value, and leaves every other player of
    the map alone; [update] only raises it. *)
Theorem bombs_left_never_negative :
  bombs_left (Player_init (F := F)) = 5
  ∧ (∀ self p acts dt m,
       0 <= bombs_left p →
       0 <= bombs_left (react_to_inputs self p acts dt m).1 <= bombs_left p)
  ∧ (∀ self p acts dt m, players (react_to_inputs self p acts dt m).2 = players m)
  ∧ (∀ m dt m',
       update m dt = Some m' →
       length (players m') = length (players m)
       ∧ ∀ o p, players m !! o = Some p →
           ∃ p', players m' !! o = Some p' ∧ bombs_left p <= bombs_left p').
Proof.
  split; [done | ]. split; [ | split].
  - intros self p acts dt m. apply react_to_inputs_budget.
  - intros self p acts dt m. apply react_to_inputs_players.
  - intros m dt m' Hup.
    by apply (update_loop_budget (S (length (bombs m))) dt 0%nat m m').
Qed.

End UpdateProperties.

(** ** [Map.__init__] *)

Section MapInitProperties.
Context {F : Type} `{Coord F}.

Implicit Types (st : TileLoop F) (pre s : list ascii) (c : ascii).

Local Arguments Nat.div : simpl never.
Local Arguments Nat.modulo : simpl never.
Local Arguments Z.div : simpl never.
Local Arguments Z.modulo : simpl never.
Local Arguments Z.of_nat : simpl never.
Implicit Types (rows full : list (list Tile)) (row last : list Tile).

Lemma append_to_last_snoc rows row tile :
  append_to_last (rows ++ [row]) tile = Some (rows ++ [row ++ [tile]]).
Proof.
  induction rows as [| r rows IH]; [done | ].
  change ((r :: rows) ++ [row]) with (r :: (rows ++ [row])).
  simpl append_to_last. rewrite IH.
  by destruct (rows ++ [row]) eqn:E; [destruct rows; discriminate | ].
Qed.

Lemma isdigit_lt c : isdigit c = true → (int_of_digit c < 10)%nat.
Proof.
  unfold isdigit, int_of_digit. intros Hd.
  apply andb_true_iff in Hd as [H1 H2].
  apply Nat.leb_le in H1, H2. lia.
Qed.

(** Recording the character at place [length pre]. *)
Lemma spawn_inv_step pre c sp (col line : Z) :
  col = Z.of_nat (length pre) mod MAP_WIDTH →
  line = Z.of_nat (length pre) / MAP_WIDTH →
  spawn_inv pre (mkTileLoop 0 0 [] sp) →
  ∀ (ln cl : Z) rows,
  spawn_inv (pre ++ [c])
    (mkTileLoop ln cl rows
       (if isdigit c
        then <[int_of_digit c := (float_of_int col, float_of_int line)]> sp
        else sp)).
Proof.
  intros -> -> [Hlen Hsp] ln cl rows. unfold spawn_inv in *. simpl in *.
  split; [destruct (isdigit c); [by rewrite length_insert | done] | ].
  intros d Hd.
  destruct (decide (is_spawn d c)) as [Hs | Hs].
  - left. exists (length pre). destruct Hs as [Hdig <-]. rewrite Hdig. split.
    + split.
      * exists c. split; [ | done]. by rewrite lookup_app_r, Nat.sub_diag.
      * intros k' c'' Hlt Hk'. apply lookup_lt_Some in Hk'.
        rewrite length_app in Hk'. simpl in Hk'. lia.
    + apply list_lookup_insert_eq. lia.
  - assert (Hsame : (if isdigit c
                     then <[int_of_digit c :=
                              (float_of_int (Z.of_nat (length pre) mod MAP_WIDTH),
                               float_of_int (Z.of_nat (length pre) / MAP_WIDTH))]> sp
                     else sp) !! d = sp !! d).
    { destruct (isdigit c) eqn:Hdig; [ | done].
      apply list_lookup_insert_ne. intros Heq. by apply Hs. }
    rewrite Hsame.
    destruct (Hsp d Hd) as [(k & [(ck & Hk & Hck) Hlast] & Hpos) | [Hno Hpos]].
    + left. exists k. split; [ | done]. split.
      * exists ck. split; [ | done]. by apply lookup_app_l_Some.
      * intros k' c'' Hlt Hk'.
        destruct (decide (k' < length pre)%nat) as [Hin | Hout].
        -- rewrite lookup_app_l in Hk' by done. by eapply Hlast.
        -- rewrite lookup_app_r in Hk' by lia.
           destruct (k' - length pre)%nat; [ | done].
           injection Hk' as <-. done.
    + right. split; [ | done]. intros k ck Hk.
      destruct (decide (k < length pre)%nat) as [Hin | Hout].
      * rewrite lookup_app_l in Hk by done. by eapply Hno.
      * rewrite lookup_app_r in Hk by lia.
        destruct (k - length pre)%nat; [ | done].
        injection Hk as <-. done.
Qed.

(** Row and column of consecutive raster indices. *)
Lemma raster_next (j : nat) :
  let n := S j in
  (Z.of_nat n mod 15 = 0 →
     (j mod 15 = 14 ∧ n / 15 = j / 15 + 1 ∧ n mod 15 = 0)%nat)
  ∧ (Z.of_nat n mod 15 ≠ 0 →
     (n mod 15 = j mod 15 + 1 ∧ n / 15 = j / 15)%nat).
Proof. cbv zeta. split; intros Hm; zify; Z.div_mod_to_equations; lia. Qed.

Lemma spawn_inv_init :
  spawn_inv [] (mkTileLoop (-1) 0 [] (replicate 10 (f_0_0, f_0_0))).
Proof.
  split; [done | ]. intros d Hd. right. split.
  - intros k c Hk. by rewrite lookup_nil in Hk.
  - cbn [tl_starting_positions]. by apply lookup_replicate_2.
Qed.

(** The first round of the tile loop. *)
Lemma tile_step_first c :
  ∃ st', tile_step 0 c (mkTileLoop (-1) 0 [] (replicate 10 (f_0_0, f_0_0)))
         = Some st'
    ∧ rows_inv [c] st' ∧ spawn_inv [c] st'.
Proof.
  unfold tile_step. rewrite bool_decide_true by done. simpl.
  eexists. split; [reflexivity | ]. split.
  - exists [], [tile_of_character c]. by repeat split.
  - by apply (spawn_inv_step [] c _ 0 0 eq_refl eq_refl spawn_inv_init).
Qed.

(** A later round of the tile loop. *)
Lemma tile_step_inv pre c st :
  pre ≠ [] → rows_inv pre st → spawn_inv pre st →
  ∃ st', tile_step (Z.of_nat (length pre)) c st = Some st'
    ∧ rows_inv (pre ++ [c]) st' ∧ spawn_inv (pre ++ [c]) st'.
Proof.
  intros Hne Hrows Hsp. unfold rows_inv in Hrows. cbv zeta in Hrows.
  destruct (length pre) as [| j] eqn:Hlen; [by destruct pre | ].
  replace (S j - 1)%nat with j in Hrows by lia.
  destruct Hrows as (full & last & Ht & Hfull & Hall & Hlast & Hcat & Hline & Hcol).
  destruct (raster_next j) as [Hnew Hsame].
  assert (Hsp0 : spawn_inv pre (mkTileLoop 0 0 [] (tl_starting_positions st)))
    by exact Hsp.
  assert (Hj : (length (pre ++ [c]) - 1 = S j)%nat)
    by (rewrite length_app, Hlen; simpl; lia).
  unfold tile_step.
  destruct (decide (Z.of_nat (S j) mod MAP_WIDTH = 0)) as [Hz | Hz].
  - rewrite bool_decide_true by done. cbn [tl_tiles tl_line tl_column tl_starting_positions].
    destruct (Hnew Hz) as (Hj14 & Hdiv & Hmod).
    rewrite Ht, append_to_last_snoc. simpl.
    eexists. split; [reflexivity | ]. split.
    + unfold rows_inv. rewrite Hj.
      exists (full ++ [last]), [tile_of_character c].
      cbn [tl_tiles tl_line tl_column].
      split; [done | ]. split; [rewrite length_app, Hfull; simpl; lia | ].
      split; [apply Forall_app; split; [done | ];
              apply Forall_singleton; lia | ].
      split; [simpl; lia | ].
      split; [ | lia].
      rewrite fmap_app, <- Hcat, !concat_app. simpl. by rewrite !app_nil_r.
    + apply (spawn_inv_step pre c (tl_starting_positions st)); try done.
      * rewrite Hlen. unfold MAP_WIDTH in *. lia.
      * rewrite Hlen. unfold MAP_WIDTH in *.
        zify; Z.div_mod_to_equations; lia.
  - rewrite bool_decide_false by done.
    destruct (Hsame Hz) as (Hmod & Hdiv).
    rewrite Ht, append_to_last_snoc. simpl.
    eexists. split; [reflexivity | ]. split.
    + unfold rows_inv. rewrite Hj.
      exists full, (last ++ [tile_of_character c]).
      cbn [tl_tiles tl_line tl_column].
      split; [done | ]. split; [lia | ]. split; [done | ].
      split; [rewrite length_app; simpl; lia | ].
      split; [ | lia].
      rewrite fmap_app, <- Hcat, !concat_app. simpl.
      by rewrite !app_nil_r, app_assoc.
    + apply (spawn_inv_step pre c (tl_starting_positions st)); try done.
      * rewrite Hlen, Hcol. unfold MAP_WIDTH in *.
        zify; Z.div_mod_to_equations; lia.
      * rewrite Hlen, Hline. unfold MAP_WIDTH in *.
        zify; Z.div_mod_to_equations; lia.
Qed.

Lemma tile_loop_inv s :
  ∀ pre st, pre ≠ [] → rows_inv pre st → spawn_inv pre st →
  ∃ st', tile_loop (Z.of_nat (length pre)) s st = Some st'
    ∧ rows_inv (pre ++ s) st' ∧ spawn_inv (pre ++ s) st'.
Proof.
  induction s as [| c s IH]; intros pre st Hne Hrows Hsp.
  - exists st. by rewrite app_nil_r.
  - destruct (tile_step_inv pre c st Hne Hrows Hsp) as (st1 & Hstep & Hrows1 & Hsp1).
    destruct (IH (pre ++ [c]) st1) as (st' & Hrun & Hrows' & Hsp');
      [by destruct pre | done | done | ].
    exists st'. simpl tile_loop. rewrite Hstep. simpl.
    rewrite length_app, Nat2Z.inj_add in Hrun. simpl in Hrun.
    rewrite <- app_assoc in Hrows', Hsp'. done.
Qed.

(** The tile loop on a non-empty tile sequence. *)
Lemma tile_loop_run c s :
  ∃ st', tile_loop 0 (c :: s)
           (mkTileLoop (-1) 0 [] (replicate 10 (f_0_0, f_0_0))) = Some st'
    ∧ rows_inv (c :: s) st' ∧ spawn_inv (c :: s) st'.
Proof.
  destruct (tile_step_first c) as (st1 & Hstep & Hrows1 & Hsp1).
  destruct (tile_loop_inv s [c] st1) as (st' & Hrun & Hrows' & Hsp'); try done.
  exists st'. cbn [tile_loop]. rewrite Hstep. done.
Qed.

(** The grid the tile loop builds from a tile sequence of any length: the
    tiles in raster order, cut into rows of [MAP_WIDTH], the last row
    holding what is left. *)
Lemma tile_loop_grid s :
  ∃ st', tile_loop 0 s (mkTileLoop (-1) 0 [] (replicate 10 (f_0_0, f_0_0)))
         = Some st'
    ∧ concat (tl_tiles st') = tile_of_character <$> s
    ∧ length (tl_tiles st') = ((length s + 14) / 15)%nat
    ∧ (∀ r row, tl_tiles st' !! r = Some row →
         length row = (15 `min` (length s - 15 * r))%nat)
    ∧ spawn_inv s st'.
Proof.
  destruct s as [| c s].
  - eexists. split; [reflexivity | ]. split; [done | ]. split; [done | ].
    split; [ | apply spawn_inv_init]. intros r row Hr.
    cbn [tl_tiles] in Hr. by rewrite lookup_nil in Hr.
  - destruct (tile_loop_run c s) as (st' & Hrun & Hrows & Hsp).
    exists st'. split; [done | ].
    unfold rows_inv in Hrows. cbv zeta in Hrows.
    destruct Hrows as (full & last & Ht & Hfull & Hall & Hlast & Hcat & _).
    remember (length (c :: s)) as n eqn:Hn.
    assert (Hpos : (1 <= n)%nat) by (rewrite Hn; simpl; lia).
    rewrite Ht. split; [done | ]. split.
    + rewrite length_app, Hfull. simpl. lia.
    + split; [ | done]. intros r row Hr.
      destruct (decide (r < length full)%nat) as [Hlt | Hge].
      * rewrite lookup_app_l in Hr by done.
        rewrite (Forall_lookup_1 _ _ _ _ Hall Hr). lia.
      * rewrite lookup_app_r in Hr by lia.
        destruct (r - length full)%nat eqn:Hd; [ | done].
        injection Hr as <-. rewrite Hlast. lia.
Qed.

(** The player loop: the players created so far stay, the entries of
    [players_by_numbers] below the current index stay, and every slot
    processed gets its entry. *)
Lemma slot_loop_inv (sp : list (F * F)) :
  length sp = 10%nat →
  ∀ slots (i : nat) (acc : list (Player F) * gmap Z (option nat)),
  (i + length slots <= 10)%nat →
  ∃ acc', slot_loop i slots sp acc = Some acc'
    ∧ (∃ added, acc'.1 = acc.1 ++ added
                ∧ Forall (λ p, bombs_left p = 5) added)
    ∧ (∀ z, z < Z.of_nat i → acc'.2 !! z = acc.2 !! z)
    ∧ ∀ (j : nat) slot, slots !! j = Some slot →
        match slot with
        | Some _ =>
            ∃ ref p start,
              acc'.2 !! Z.of_nat (i + j) = Some (Some ref)
              ∧ acc'.1 !! ref = Some p
              ∧ sp !! (i + j)%nat = Some start
              ∧ number p = Z.of_nat (i + j)
              ∧ position p = (fadd start.1 f_0_5, fadd start.2 f_0_5)
        | None => acc'.2 !! Z.of_nat (i + j) = Some None
        end.
Proof.
  intros Hsp. induction slots as [| slot slots IH]; intros i acc Hi.
  - exists acc. split; [done | ]. split; [exists []; by rewrite app_nil_r | ].
    split; [done | ]. intros j slot Hj. by rewrite lookup_nil in Hj.
  - simpl in Hi. cbn [slot_loop].
    destruct (lookup_lt_is_Some_2 sp i) as [start Hstart]; [lia | ].
    assert (Hstep : ∃ acc1, slot_step i slot sp acc = Some acc1
              ∧ (∃ added, acc1.1 = acc.1 ++ added
                          ∧ Forall (λ p, bombs_left p = 5) added)
              ∧ (∀ z, z < Z.of_nat i → acc1.2 !! z = acc.2 !! z)
              ∧ match slot with
                | Some _ =>
                    ∃ p, acc1.2 !! Z.of_nat i = Some (Some (length acc.1))
                         ∧ acc1.1 !! length acc.1 = Some p
                         ∧ number p = Z.of_nat i
                         ∧ position p = (fadd start.1 f_0_5, fadd start.2 f_0_5)
                | None => acc1.2 !! Z.of_nat i = Some None
                end).
    { unfold slot_step. destruct slot as [x | ].
      - rewrite Hstart. simpl. eexists. split; [reflexivity | ]. simpl.
        split; [eexists; split; [reflexivity | by apply Forall_singleton] | ].
        split; [intros z Hz; apply lookup_insert_ne; lia | ].
        eexists. split; [by apply lookup_insert_eq | ].
        split; [by rewrite lookup_app_r, Nat.sub_diag | ]. done.
      - eexists. split; [reflexivity | ]. simpl.
        split; [exists []; by rewrite app_nil_r | ].
        split; [intros z Hz; apply lookup_insert_ne; lia | ].
        by apply lookup_insert_eq. }
    destruct Hstep as (acc1 & -> & (add1 & Hadd1 & Hfive1) & Hkeep1 & Hhere).
    destruct (IH (S i) acc1) as (acc' & Hrun & (add2 & Hadd2 & Hfive2) & Hkeep2 & Hrest);
      [lia | ].
    exists acc'. split; [done | ]. split.
    { exists (add1 ++ add2). rewrite Hadd2, Hadd1, app_assoc.
      split; [done | by apply Forall_app]. }
    split.
    { intros z Hz. rewrite Hkeep2 by lia. by apply Hkeep1. }
    intros j slot' Hj. destruct j as [| j].
    + injection Hj as <-. rewrite Nat.add_0_r. destruct slot as [x | ].
      * destruct Hhere as (p & Hkey & Hp & Hnum & Hpos).
        exists (length acc.1), p, start.
        split; [rewrite Hkeep2 by lia; done | ].
        split; [ | done].
        rewrite Hadd2. by apply lookup_app_l_Some.
      * rewrite Hkeep2 by lia. done.
    + replace (i + S j)%nat with (S i + j)%nat by lia.
      by apply Hrest.
Qed.

(** Reading a grid of rows of equal width by row and column. *)
Lemma concat_lookup_uniform {A : Type} (w : nat) (grid : list (list A)) :
  Forall (λ ln, length ln = w) grid →
  ∀ (r c : nat), (c < w)%nat →
  concat grid !! (w * r + c)%nat = grid !! r ≫= (λ ln, ln !! c).
Proof.
  induction 1 as [| ln grid Hln _ IH]; intros r c Hc.
  - by rewrite !lookup_nil.
  - destruct r as [| r]; simpl concat.
    + rewrite Nat.mul_0_r, Nat.add_0_l. simpl.
      apply lookup_app_l. lia.
    + rewrite lookup_app_r by (rewrite Hln; lia).
      replace (w * S r + c - length ln)%nat with (w * r + c)%nat
        by (rewrite Hln; lia).
      by apply IH.
Qed.

(** [Map.__init__] on a map string with a tile sequence [ts] of any length
    and a setup of at most ten slots. *)
Lemma Map_init_run map_data play_setup ts :
  tile_sequence map_data = Some ts →
  (length (get_slots play_setup) <= 10)%nat →
  ∃ (m : Map F) (sp : list (F * F)),
    Map_init map_data play_setup = Some m
    ∧ concat (tiles m) = tile_of_character <$> ts
    ∧ length (tiles m) = ((length ts + 14) / 15)%nat
    ∧ (∀ r ln, tiles m !! r = Some ln →
         length ln = (15 `min` (length ts - 15 * r))%nat)
    ∧ spawn_inv ts (mkTileLoop 0 0 [] sp)
    ∧ bombs m = [] ∧ bomb_objects m = []
    ∧ Forall (λ p, bombs_left p = 5) (players m)
    ∧ ∀ (i : nat) slot, get_slots play_setup !! i = Some slot →
        match slot with
        | Some _ =>
            ∃ ref p start,
              players_by_numbers m !! Z.of_nat i = Some (Some ref)
              ∧ players m !! ref = Some p
              ∧ sp !! i = Some start
              ∧ number p = Z.of_nat i
              ∧ position p = (fadd start.1 f_0_5, fadd start.2 f_0_5)
        | None => players_by_numbers m !! Z.of_nat i = Some None
        end.
Proof.
  unfold tile_sequence, Map_init. intros Hts Hslots.
  set (fields := split ";"%char _) in *.
  destruct (fields !! 3%nat) as [tile_string | ] eqn:H3; [ | done].
  injection Hts as <-.
  destruct (lookup_lt_is_Some_2 fields 0) as [environment H0].
  { apply lookup_lt_Some in H3. lia. }
  rewrite H0. cbn [mbind option_bind].
  destruct (tile_loop_grid (list_ascii_of_string tile_string))
    as (st & -> & Hcat & Hlen & Hrows & Hsp).
  cbn [mbind option_bind].
  destruct (slot_loop_inv (tl_starting_positions st) (proj1 Hsp)
              (get_slots play_setup) 0 ([], {[ (-1) := None ]}))
    as (acc & -> & (added & Hadd & Hfive) & _ & Hslot); [simpl; lia | ].
  cbn [mbind option_bind].
  eexists. exists (tl_starting_positions st). split; [reflexivity | ].
  cbn [tiles bombs bomb_objects players players_by_numbers].
  repeat (split; [done | ]). split.
  - rewrite Hadd. done.
  - intros i slot Hi. exact (Hslot i slot Hi).
Qed.

Lemma last_spawn_unique ts d k1 k2 :
  last_spawn ts d k1 → last_spawn ts d k2 → k1 = k2.
Proof.
  intros [(c1 & Hc1 & Hs1) Hl1] [(c2 & Hc2 & Hs2) Hl2].
  destruct (Nat.lt_trichotomy k1 k2) as [Hlt | [Heq | Hgt]]; [ | done | ].
  - by destruct (Hl1 k2 c2 Hlt Hc2).
  - by destruct (Hl2 k1 c1 Hgt Hc1).
Qed.

(** C5 (as amended).  [Map.__init__] does not look at the length of the tile
    sequence.  For a map string of at least four fields and a setup of at
    most ten slots it returns a map for a tile sequence of any length [n]:
    the tiles in raster order, in [(n + 14) / 15] rows, row [r] holding
    [min 15 (n - 15 r)] tiles.  So a sequence that is too short or too long
    gives a grid with fewer or more rows, the last of them partial when 15
    does not divide [n], and no error. *)
Theorem Map_init_accepts_any_length map_data play_setup ts :
  tile_sequence map_data = Some ts →
  (length (get_slots play_setup) <= 10)%nat →
  ∃ m : Map F,
    Map_init map_data play_setup = Some m
    ∧ concat (get_tiles m) = tile_of_character <$> ts
    ∧ length (get_tiles m) = ((length ts + 14) / 15)%nat
    ∧ ∀ r ln, get_tiles m !! r = Some ln →
        length ln = (15 `min` (length ts - 15 * r))%nat.
Proof.
  intros Hts Hslots.
  destruct (Map_init_run map_data play_setup ts Hts Hslots)
    as (m & sp & Hrun & Hcat & Hlen & Hrows & _).
  by exists m.
Qed.

Lemma is_spawn_digit (d : nat) (c : ascii) :
  (d < 10)%nat → is_spawn d c ↔ c = digit_of_slot d.
Proof.
  intros Hd. unfold is_spawn, isdigit, int_of_digit, digit_of_slot. split.
  - intros [Hdig Hint]. apply andb_true_iff in Hdig as [Hlo Hhi].
    apply Nat.leb_le in Hlo, Hhi.
    rewrite <- (ascii_nat_embedding c). f_equal. lia.
  - intros ->. rewrite nat_ascii_embedding by lia. split; [ | lia].
    apply andb_true_iff. split; apply Nat.leb_le; lia.
Qed.

Lemma last_spawn_occurrence (ts : list ascii) (d k : nat) :
  (d < 10)%nat → last_spawn ts d k ↔ last_occurrence ts (digit_of_slot d) k.
Proof.
  intros Hd. unfold last_spawn, last_occurrence. split.
  - intros [(c & Hc & Hs) Hlast]. apply (is_spawn_digit d c Hd) in Hs as ->.
    split; [done | ]. intros k' Hk' Hc'.
    apply (Hlast k' _ Hk' Hc'). by apply is_spawn_digit.
  - intros [Hc Hlast]. split.
    + exists (digit_of_slot d). split; [done | by apply is_spawn_digit].
    + intros k' c' Hk' Hc' Hs. apply (is_spawn_digit d c' Hd) in Hs as ->.
      by apply (Hlast k' Hk').
Qed.

Lemma no_spawn_absent (ts : list ascii) (d : nat) :
  (d < 10)%nat → no_spawn ts d ↔ digit_of_slot d ∉ ts.
Proof.
  intros Hd. unfold no_spawn. split.
  - intros Hno Hin. apply list_elem_of_lookup in Hin as [k Hk].
    apply (Hno k _ Hk). by apply is_spawn_digit.
  - intros Hnot k c Hk Hs. apply (is_spawn_digit d c Hd) in Hs as ->.
    apply Hnot. by eapply list_elem_of_lookup_2.
Qed.

(** C8 (as amended).  For a map string whose tile sequence has exactly 165
    characters and a setup of (at most) ten slots, the constructed map gives
    back the 15 x 11 grid: 11 rows of 15 tiles, the tile in row [r], column
    [c] being a block where the character at raster index [15 r + c] is
    ['x'], a wall where it is ['#'], and floor for any other character.
    Every active slot [i] has a player with number [i]; it stands at the
    centre of the last tile, in raster order, that carries the digit [i],
    and at [(0.0 + 0.5, 0.0 + 0.5)] when no tile carries that digit. *)
Theorem Map_init_reads_back map_data play_setup ts :
  tile_sequence map_data = Some ts →
  length ts = 165%nat →
  (length (get_slots play_setup) <= 10)%nat →
  ∃ m : Map F,
    Map_init map_data play_setup = Some m
    ∧ length (get_tiles m) = 11%nat
    ∧ Forall (λ ln, length ln = 15%nat) (get_tiles m)
    ∧ (∀ (r c : nat) ch, (r < 11)%nat → (c < 15)%nat →
         ts !! (15 * r + c)%nat = Some ch →
         ∃ tile,
           get_tiles m !! r ≫= (λ ln, ln !! c) = Some tile
           ∧ (ch = "x"%char → tile = TILE_BLOCK)
           ∧ (ch = "#"%char → tile = TILE_WALL)
           ∧ (ch ≠ "x"%char → ch ≠ "#"%char → tile = TILE_FLOOR))
    ∧ (∀ (i : nat) slot,
         get_slots play_setup !! i = Some (Some slot) →
         ∃ ref p,
           get_players_by_numbers m !! Z.of_nat i = Some (Some ref)
           ∧ get_players m !! ref = Some p
           ∧ number p = Z.of_nat i
           ∧ (∀ k, last_occurrence ts (digit_of_slot i) k →
                position p
                = (fadd (float_of_int (Z.of_nat k mod 15)) f_0_5,
                   fadd (float_of_int (Z.of_nat k / 15)) f_0_5))
           ∧ (digit_of_slot i ∉ ts →
                position p = (fadd f_0_0 f_0_5, fadd f_0_0 f_0_5))).
Proof.
  intros Hts Hn Hslots.
  destruct (Map_init_run map_data play_setup ts Hts Hslots)
    as (m & sp & Hrun & Hcat & Hlen & Hrows & Hsp & _ & _ & _ & Hslot).
  exists m. unfold get_tiles, get_players, get_players_by_numbers.
  rewrite Hn in Hlen, Hrows.
  assert (Hall : Forall (λ ln, length ln = 15%nat) (tiles m)).
  { apply Forall_lookup_2. intros r ln Hr. rewrite (Hrows r ln Hr).
    apply lookup_lt_Some in Hr. rewrite Hlen in Hr.
    change ((165 + 14) / 15)%nat with 11%nat in Hr. lia. }
  split; [done | ]. split; [done | ]. split; [done | ]. split.
  - intros r c ch Hr Hc Hch. exists (tile_of_character ch). split.
    + rewrite <- (concat_lookup_uniform 15 (tiles m) Hall r c Hc), Hcat.
      by rewrite list_lookup_fmap, Hch.
    + unfold tile_of_character. split; [ | split].
      * intros ->. done.
      * intros ->. done.
      * intros Hx Hw. by rewrite !decide_False.
  - intros i slot Hi.
    assert (Hi10 : (i < 10)%nat) by (apply lookup_lt_Some in Hi; lia).
    destruct (Hslot i _ Hi) as (ref & p & start & Hkey & Hp & Hstart & Hnum & Hpos).
    exists ref, p. split; [done | ]. split; [done | ]. split; [done | ].
    rewrite Hpos. destruct Hsp as [_ Hsp].
    cbn [tl_starting_positions] in Hsp. split.
    + intros k Hk. apply (last_spawn_occurrence ts i k Hi10) in Hk.
      destruct (Hsp i Hi10) as [(k' & Hk' & Hat) | [Hno _]].
      * rewrite (last_spawn_unique ts i k k' Hk Hk').
        rewrite Hstart in Hat. injection Hat as ->. done.
      * destruct Hk as [(c & Hc & Hs) _]. by destruct (Hno k c Hc).
    + intros Hnot. apply (no_spawn_absent ts i Hi10) in Hnot.
      destruct (Hsp i Hi10) as [(k' & Hk' & Hat) | [_ Hat]].
      * destruct Hk' as [(c & Hc & Hs) _]. by destruct (Hnot k' c Hc).
      * rewrite Hstart in Hat. injection Hat as ->. done.
Qed.

End MapInitProperties.

(** ** Whole runs: the references stay sound, the budgets stay non-negative *)

Section Runs.
Context {F : Type} `{Coord F}.

Implicit Types (p : Player F) (m : Map F) (st : LoopState F).
Implicit Types (acts : list (Z * Action)).

Lemma Map_init_wf map_data play_setup m :
  Map_init map_data play_setup = Some m → wf_map m.
Proof.
  unfold Map_init. intros Hinit.
  destruct (_ !! 0%nat); [ | done]. destruct (_ !! 3%nat); [ | done].
  cbn [mbind option_bind] in Hinit.
  destruct (tile_loop _ _ _); [ | done]. cbn [mbind option_bind] in Hinit.
  destruct (slot_loop _ _ _ _); [ | done]. injection Hinit as <-.
  split; [constructor | ]. intros r Hr. by apply elem_of_nil in Hr.
Qed.

Lemma add_bomb_wf m (b : Bomb F) (o : nat) :
  wf_map m → player b = Some o → (o < length (players m))%nat →
  wf_map (add_bomb m b).
Proof.
  intros [Hnd Hrefs] Ho Hlt. split; simpl.
  - apply NoDup_app. split; [done | ]. split; [ | apply NoDup_singleton].
    intros r Hr Hnew. apply list_elem_of_singleton in Hnew.
    destruct (Hrefs r Hr) as (b' & _ & Hb' & _).
    apply lookup_lt_Some in Hb'. lia.
  - intros r Hr. apply elem_of_app in Hr as [Hr | Hr].
    + destruct (Hrefs r Hr) as (b' & o' & Hb' & Ho' & Hlt').
      exists b', o'. split; [by apply lookup_app_l_Some | done].
    + apply list_elem_of_singleton in Hr as ->.
      exists b, o. split; [by rewrite lookup_app_r, Nat.sub_diag | done].
Qed.

Lemma react_item_wf (self : nat) d st item :
  (self < length (players (loop_map st)))%nat →
  wf_map (loop_map st) → wf_map (loop_map (react_item self d st item)).
Proof.
  intros Hself Hwf. unfold react_item.
  destruct (bool_decide (item.1 ≠ _)); [done | ].
  cbn [fst snd loop_map]. unfold react_bomb.
  destruct (bool_decide (item.2 = ACTION_BOMB) && _ && _); [ | done].
  cbn [snd]. by apply (add_bomb_wf _ _ self).
Qed.

Lemma react_loop_wf (self : nat) d acts st :
  (self < length (players (loop_map st)))%nat →
  wf_map (loop_map st) → wf_map (loop_map (react_loop self d acts st)).
Proof.
  revert st. induction acts as [| item acts IH]; intros st Hself Hwf; [done | ].
  rewrite react_loop_cons. apply IH.
  - by rewrite react_item_players.
  - by apply react_item_wf.
Qed.

Lemma react_to_inputs_wf (self : nat) p acts dt m :
  (self < length (players m))%nat →
  wf_map m → wf_map (react_to_inputs self p acts dt m).2.
Proof.
  intros Hself Hwf.
  destruct (react_to_inputs_unfold self p acts dt m) as (_ & _ & _ & _ & _ & ->).
  by apply react_loop_wf.
Qed.

(** Writing a player object back does not touch the bombs. *)
Lemma set_players_wf m (ps : list (Player F)) :
  length ps = length (players m) → wf_map m → wf_map (set_players ps m).
Proof.
  intros Hlen [Hnd Hrefs]. split; [done | ]. intros r Hr.
  destruct (Hrefs r Hr) as (b & o & Hb & Ho & Hlt).
  exists b, o. simpl. rewrite Hlen. done.
Qed.

Lemma players_react_inv (n i : nat) acts dt m :
  wf_map m → budgets_ok m →
  let m' := players_react n i acts dt m in
  wf_map m' ∧ budgets_ok m'.
Proof.
  revert i m. induction n as [| n IH]; intros i m Hwf Hok; [done | ].
  cbn [players_react].
  destruct (players m !! i) as [p | ] eqn:Hp; [ | done].
  pose proof (lookup_lt_Some _ _ _ Hp) as Hi.
  pose proof (react_to_inputs_players i p acts dt m) as Hps.
  apply IH.
  - apply set_players_wf; [by rewrite length_insert | ].
    by apply react_to_inputs_wf.
  - unfold budgets_ok, set_players. cbn [players]. rewrite Hps.
    apply Forall_insert; [done | ].
    apply react_to_inputs_budget.
    by apply (Forall_lookup_1 _ _ _ _ Hok Hp).
Qed.

Lemma update_budgets_ok m dt m' :
  update m dt = Some m' → budgets_ok m → budgets_ok m'.
Proof.
  intros Hup Hok.
  destruct (update_loop_budget _ _ _ _ _ Hup) as [Hlen Hmono].
  apply Forall_lookup_2. intros o p' Hp'.
  destruct (lookup_lt_is_Some_2 (players m) o) as [p Hp].
  { rewrite <- Hlen. by eapply lookup_lt_Some. }
  destruct (Hmono o p Hp) as (q & Hq & Hle).
  assert (q = p') by congruence. subst.
  pose proof (Forall_lookup_1 _ _ _ _ Hok Hp). simpl in *. lia.
Qed.

(** A simulation step on a sound map returns a sound map. *)
Lemma simulation_step_run acts dt m :
  wf_map m → budgets_ok m →
  ∃ m', simulation_step acts dt m = Some m' ∧ wf_map m' ∧ budgets_ok m'.
Proof.
  intros Hwf Hok. unfold simulation_step.
  destruct (players_react_inv (length (players m)) 0 acts dt m Hwf Hok)
    as [Hwf1 Hok1].
  destruct (update_run _ dt Hwf1) as (m' & Hrun & _).
  exists m'. split; [done | ]. split.
  - by apply (update_wf _ _ _ Hwf1 Hrun).
  - by apply (update_budgets_ok _ _ _ Hrun).
Qed.

Lemma simulation_run steps :
  ∀ m, wf_map m → budgets_ok m →
  ∃ m', simulation steps m = Some m' ∧ wf_map m' ∧ budgets_ok m'.
Proof.
  induction steps as [| step steps IH]; intros m Hwf Hok.
  - by exists m.
  - destruct (simulation_step_run step.1 step.2 m Hwf Hok)
      as (m1 & Hstep & Hwf1 & Hok1).
    destruct (IH m1 Hwf1 Hok1) as (m' & Hm').
    exists m'. cbn [simulation]. rewrite Hstep. done.
Qed.

(** Every simulation from a constructed map runs to its end, and no player
    ever has a negative number of bombs left. *)
Lemma simulation_budgets map_data play_setup ts steps :
  tile_sequence map_data = Some ts →
  (length (get_slots play_setup) <= 10)%nat →
  ∃ m0 m : Map F,
    Map_init map_data play_setup = Some m0
    ∧ simulation steps m0 = Some m
    ∧ Forall (λ p, 0 <= bombs_left p) (players m).
Proof.
  intros Hts Hslots.
  destruct (Map_init_run map_data play_setup ts Hts Hslots)
    as (m0 & sp & Hinit & _ & _ & _ & _ & _ & _ & Hfive & _).
  assert (Hwf : wf_map m0) by by eapply Map_init_wf.
  assert (Hok : budgets_ok m0).
  { unfold budgets_ok. eapply Forall_impl; [exact Hfive | ].
    intros p Hp. simpl in Hp. lia. }
  destruct (simulation_run steps m0 Hwf Hok) as (m & Hrun & _ & Hok').
  by exists m0, m.
Qed.

End Runs.

(** ** The definitions at work *)

Lemma wf_mapb_sound {F : Type} `{Coord F} (m : Map F) :
  wf_mapb m = true → wf_map m.
Proof.
  unfold wf_mapb, wf_map. intros Hb. apply andb_true_iff in Hb as [Hnd Hall].
  apply bool_decide_eq_true in Hnd. split; [done | ].
  intros r Hr. rewrite forallb_forall in Hall.
  apply list_elem_of_In in Hr. specialize (Hall r Hr).
  unfold owner in Hall.
  destruct (bomb_objects m !! r) as [b | ]; [ | done]. simpl in Hall.
  destruct (player b) as [o | ] eqn:Ho; [ | done].
  apply bool_decide_eq_true in Hall. by exists b, o.
Qed.

Lemma last_occurrenceb_sound (ts : list ascii) (c : ascii) (k : nat) :
  last_occurrenceb ts c k = true → last_occurrence ts c k.
Proof.
  unfold last_occurrenceb. intros Hb. apply andb_true_iff in Hb as [Hk Hlater].
  apply bool_decide_eq_true in Hk, Hlater. split; [done | ].
  intros k' Hlt Hk'. apply Hlater. apply list_elem_of_lookup.
  exists (k' - S k)%nat. rewrite lookup_drop.
  by replace (S k + (k' - S k))%nat with k' by lia.
Qed.

(** In exact arithmetic the centre of a tile lies in the tile. *)
Lemma Qfloor_tile_center (pos : Q * Q) :
  math_floor (tile_center pos).1 = math_floor pos.1
  ∧ math_floor (tile_center pos).2 = math_floor pos.2.
Proof.
  assert (Hc : ∀ z : Z, Qfloor (Qplus (inject_Z z) (1 # 2)) = z).
  { intros z. unfold Qfloor, Qplus, inject_Z. simpl.
    symmetry. apply Z.div_unique with (r := 1); lia. }
  split; apply Hc.
Qed.

Example map1_constructed :
  (λ m : Map Q, (length (tiles m), length <$> tiles m, position <$> players m,
                 number <$> players m)) <$> Map_init MAP1 PlaySetup_init
  = Some (11%nat, replicate 11 15%nat,
          [((3 # 2)%Q, (3 # 2)%Q); ((27 # 2)%Q, (19 # 2)%Q);
           ((3 # 2)%Q, (19 # 2)%Q); ((27 # 2)%Q, (3 # 2)%Q)],
          [0; 1; 2; 3]).
Proof. vm_compute. reflexivity. Qed.

(** The scenario of the specification: player 5, alone on the map, places
    one bomb; after the tick the map has one bomb, on tile (3, 2), and the
    player has 4 bombs left. *)
Example scenario_one_bomb :
  (λ m : Map Q,
     (bombs m,
      (λ b, (math_floor (bomb_position b).1, math_floor (bomb_position b).2,
             time_of_existence b, player b)) <$> bomb_objects m,
      (λ p, (number p, bombs_left p)) <$> players m))
    <$> simulation_step [(5, ACTION_BOMB)] 100 scenario_map
  = Some ([0%nat], [(3, 2, 100, Some 0%nat)], [(5, 4)]).
Proof. vm_compute. reflexivity. Qed.

(** Two players on one tile, the second reacting after the first: only the
    first bomb is placed. *)
Example second_placement_refused :
  let p1 := set_position (position player0) (set_number 1 Player_init) in
  let r := react_to_inputs 1 p1 [(1, ACTION_BOMB)] 100 map1_bomb in
  (bombs map1_bomb, bombs r.2, bombs_left r.1) = ([0%nat], [0%nat], 5).
Proof. vm_compute. reflexivity. Qed.

(** ** Instances of the theorems, and the inputs on which statements of the
    specification fail *)

Lemma map1_bomb_wf : wf_map map1_bomb.
Proof. apply wf_mapb_sound. vm_compute. reflexivity. Defined.


(** C2, the statement refuted: the bomb that player 0 has just placed is
    still live after exactly 3000 ms, where the specification has it gone
    for every accumulated time [t >= T + 3000]. *)
Lemma bomb_still_live_at_3000 :
  bombs map1_bomb = [0%nat]
  ∧ bomb_objects map1_bomb !! 0%nat = Some (placed_bomb 0 (position player0))
  ∧ total_time [3000] >= 3000
  ∧ bombs <$> updates map1_bomb [3000] = Some [0%nat]
  ∧ ¬ (∀ m', updates map1_bomb [3000] = Some m' →
             (0%nat ∈ bombs m' ↔ total_time [3000] < 3000)).
Proof.
  split; [vm_compute; reflexivity | ]. split; [vm_compute; reflexivity | ].
  split; [vm_compute; discriminate | ].
  assert (Hrun : bombs <$> updates map1_bomb [3000] = Some [0%nat])
    by (vm_compute; reflexivity).
  split; [exact Hrun | ]. intros Hclaim.
  destruct (updates map1_bomb [3000]) as [m' | ] eqn:Hm'; [ | discriminate].
  injection Hrun as Hb.
  assert (Hin : 0%nat ∈ bombs m') by (rewrite Hb; apply list_elem_of_here).
  apply (Hclaim m' eq_refl) in Hin. vm_compute in Hin. discriminate.
Qed.

Lemma bomb_live_until_fuse_exceeded_witness :
  wf_map map1_bomb
  ∧ 0%nat ∈ bombs map1_bomb
  ∧ bomb_objects map1_bomb !! 0%nat = Some (placed_bomb 0 (position player0))
  ∧ ∃ m', updates map1_bomb [1000; 2000] = Some m'
      ∧ (0%nat ∈ bombs m' ↔ total_time [1000; 2000] <= 3000).
Proof.
  assert (Hin : 0%nat ∈ bombs map1_bomb)
    by (apply (bool_decide_unpack _); vm_compute; exact I).
  assert (Hb : bomb_objects map1_bomb !! 0%nat
               = Some (placed_bomb 0 (position player0)))
    by (vm_compute; reflexivity).
  split; [exact map1_bomb_wf | ]. split; [exact Hin | ]. split; [exact Hb | ].
  destruct (bomb_live_until_fuse_exceeded map1_bomb 0
              (placed_bomb 0 (position player0)) map1_bomb_wf Hin Hb)
    as [Hlive _].
  apply (Hlive eq_refl eq_refl [1000; 2000]).
  repeat constructor; discriminate.
Defined.

(** C3, the statement refuted: with the actions Left and Up for player 0 in
    this order, the priority order would select Up, but the player walks
    left; with the same two actions in the other order the player walks
    up.  The order of the list decides. *)
Lemma priority_order_not_followed :
  let acts := [(0, ACTION_LEFT); (0, ACTION_UP)] in
  number player0 = 0
  ∧ priority_direction 0 acts = Some Up
  ∧ state (react_to_inputs 0 player0 acts 1000 map1).1 = STATE_WALKING_LEFT
  ∧ state (react_to_inputs 0 player0 (reverse acts) 1000 map1).1
    = STATE_WALKING_UP
  ∧ state (react_to_inputs 0 player0 acts 1000 map1).1 ≠ walking Up.
Proof.
  cbv zeta. split; [vm_compute; reflexivity | ].
  split; [vm_compute; reflexivity | ].
  assert (Hl : state (react_to_inputs 0 player0
                        [(0, ACTION_LEFT); (0, ACTION_UP)] 1000 map1).1
               = STATE_WALKING_LEFT) by (vm_compute; reflexivity).
  split; [exact Hl | ]. split; [vm_compute; reflexivity | ].
  rewrite Hl. discriminate.
Qed.

Lemma react_to_inputs_first_in_list_wins_witness :
  let acts_before := [(0, ACTION_BOMB); (1, ACTION_UP)] in
  let acts_after := [(0, ACTION_UP); (0, ACTION_DOWN)] in
  let acts := acts_before ++ (number player0, action_of_direction Left)
                :: acts_after in
  first_direction (number player0) acts_before = None
  ∧ state (react_to_inputs 0 player0 acts 1000 map1).1 = STATE_WALKING_LEFT.
Proof.
  cbv zeta.
  assert (Hn : first_direction (number player0)
                 [(0, ACTION_BOMB); (1, ACTION_UP)] = None)
    by (vm_compute; reflexivity).
  split; [exact Hn | ].
  exact (proj1 (react_to_inputs_first_in_list_wins 0 player0
                  [(0, ACTION_BOMB); (1, ACTION_UP)] Left
                  [(0, ACTION_UP); (0, ACTION_DOWN)] 1000 map1 Hn)).
Defined.


(** C5, the statement refuted: a map string whose tile sequence has three
    characters is not rejected; the constructor returns a map with one row
    of three tiles. *)
Lemma short_map_is_accepted :
  tile_sequence short_map_data = Some ["x"; "."; "#"]%char
  ∧ length ["x"; "."; "#"]%char ≠ 165%nat
  ∧ (Map_init short_map_data PlaySetup_init : option (Map Q)) ≠ None
  ∧ get_tiles <$> (Map_init short_map_data PlaySetup_init : option (Map Q))
    = Some [[TILE_BLOCK; TILE_FLOOR; TILE_WALL]].
Proof.
  split; [vm_compute; reflexivity | ]. split; [vm_compute; discriminate | ].
  assert (Ht : get_tiles <$> (Map_init short_map_data PlaySetup_init
                              : option (Map Q))
               = Some [[TILE_BLOCK; TILE_FLOOR; TILE_WALL]])
    by (vm_compute; reflexivity).
  split; [ | exact Ht]. intros Hnone. rewrite Hnone in Ht. discriminate.
Qed.

Lemma Map_init_accepts_any_length_witness :
  tile_sequence short_map_data = Some ["x"; "."; "#"]%char
  ∧ (length (get_slots PlaySetup_init) <= 10)%nat
  ∧ ∃ m : Map Q,
      Map_init short_map_data PlaySetup_init = Some m
      ∧ length (get_tiles m) = 1%nat.
Proof.
  assert (Hts : tile_sequence short_map_data = Some ["x"; "."; "#"]%char)
    by (vm_compute; reflexivity).
  assert (Hs : (length (get_slots PlaySetup_init) <= 10)%nat)
    by (vm_compute; lia).
  split; [exact Hts | ]. split; [exact Hs | ].
  destruct (Map_init_accepts_any_length (F := Q) short_map_data PlaySetup_init
              _ Hts Hs) as (m & Hm & _ & Hlen & _).
  exists m. split; [exact Hm | exact Hlen].
Defined.

(** C6, the statement refuted: on a tick of 0 ms in which player 0, whose
    [state_time] is 0, gets no action, the state does not change and
    [state_time] is 0 all the same. *)
Lemma state_time_zero_without_change :
  let p' := (react_to_inputs 0 player0 [] 0 map1).1 in
  state_time player0 = 0
  ∧ state p' = state player0
  ∧ state_time p' = 0
  ∧ ¬ (state_time p' = 0 ↔ state p' ≠ state player0).
Proof.
  cbv zeta.
  assert (Hs : state (react_to_inputs 0 player0 [] 0 map1).1 = state player0)
    by (vm_compute; reflexivity).
  assert (Ht : state_time (react_to_inputs 0 player0 [] 0 map1).1 = 0)
    by (vm_compute; reflexivity).
  split; [vm_compute; reflexivity | ]. split; [exact Hs | ].
  split; [exact Ht | ].
  intros [Hzero _]. by apply (Hzero Ht).
Qed.

Lemma react_to_inputs_state_time_witness :
  let p := set_state_time 40 player0 in
  let idle' := (react_to_inputs 0 p [] 16 map1).1 in
  let walk' := (react_to_inputs 0 p [(0, ACTION_UP)] 16 map1).1 in
  state idle' = state p ∧ state_time idle' = 40 + 16
  ∧ state walk' ≠ state p ∧ state_time walk' = 0.
Proof.
  cbv zeta.
  assert (Hi : state (react_to_inputs 0 (set_state_time 40 player0) [] 16
                        map1).1 = state (set_state_time 40 player0))
    by (vm_compute; reflexivity).
  assert (Hw : state (react_to_inputs 0 (set_state_time 40 player0)
                        [(0, ACTION_UP)] 16 map1).1
               ≠ state (set_state_time 40 player0))
    by (vm_compute; discriminate).
  split; [exact Hi | ]. split.
  - exact (proj1 (proj2 (react_to_inputs_state_time 0
                           (set_state_time 40 player0) [] 16 map1)) Hi).
  - split; [exact Hw | ].
    exact (proj1 (react_to_inputs_state_time 0 (set_state_time 40 player0)
                    [(0, ACTION_UP)] 16 map1) Hw).
Defined.

Lemma map1_crowded_wf : wf_map map1_crowded.
Proof. apply wf_mapb_sound. vm_compute. reflexivity. Defined.

Lemma update_processes_each_bomb_once_witness :
  wf_map map1_crowded
  ∧ bombs map1_crowded = [0; 1; 2; 3]%nat
  ∧ (λ b, (time_of_existence b, player b)) <$> bomb_objects map1_crowded
    = [(3000, Some 0%nat); (2700, Some 0%nat); (2700, Some 1%nat);
       (100, Some 2%nat)]
  ∧ bombs_left <$> players map1_crowded = [3; 4; 4; 5]
  ∧ ∃ m', update map1_crowded 400 = Some m'
      ∧ bombs m' = [3%nat]
      ∧ time_of_existence <$> bomb_objects m' = [3400; 3100; 3100; 500]
      ∧ bombs_left <$> players m' = [5; 5; 4; 5].
Proof.
  split; [exact map1_crowded_wf | ].
  split; [vm_compute; reflexivity | ]. split; [vm_compute; reflexivity | ].
  split; [vm_compute; reflexivity | ].
  destruct (update_processes_each_bomb_once map1_crowded 400 map1_crowded_wf)
    as (m' & Hrun & Hbs & _).
  exists m'. split; [exact Hrun | ]. split.
  - etrans; [exact Hbs | ]. vm_compute. reflexivity.
  - assert (Hm' : m' = default empty_map (update map1_crowded 400))
      by (by rewrite Hrun).
    rewrite Hm'. split; vm_compute; reflexivity.
Defined.

(** C8, the statement refuted: [scenario_map_data] is a valid map string,
    165 characters of the alphabet, and slot 0 of the default setup is
    active; no tile carries the digit 0, and the player of slot 0 stands at
    (0.5, 0.5), in the centre of a tile that is not a starting position. *)
Lemma player_without_spawn_tile :
  tile_sequence scenario_map_data = Some scenario_tiles
  ∧ length scenario_tiles = 165%nat
  ∧ Forall (λ c, c ∈ [".";"x";"#";"0";"1";"2";"3";"4";"5";"6";"7";"8";"9"]%char)
      scenario_tiles
  ∧ get_slots PlaySetup_init !! 0%nat = Some (Some (0, 0))
  ∧ ∃ (m : Map Q) p,
      Map_init scenario_map_data PlaySetup_init = Some m
      ∧ get_players m !! 0%nat = Some p
      ∧ number p = 0
      ∧ position p = ((1 # 2)%Q, (1 # 2)%Q)
      ∧ scenario_tiles !! 0%nat = Some "."%char
      ∧ ¬ ∃ k, scenario_tiles !! k = Some (digit_of_slot 0)
               ∧ position p
                 = (fadd (float_of_int (Z.of_nat k mod 15)) f_0_5,
                    fadd (float_of_int (Z.of_nat k / 15)) f_0_5).
Proof.
  split; [vm_compute; reflexivity | ]. split; [vm_compute; reflexivity | ].
  split; [apply (bool_decide_unpack _); vm_compute; exact I | ].
  split; [vm_compute; reflexivity | ].
  exists (default empty_map (Map_init scenario_map_data PlaySetup_init)).
  exists (default Player_init
            (players (default empty_map
                        (Map_init scenario_map_data PlaySetup_init)) !! 0%nat)).
  split; [vm_compute; reflexivity | ]. split; [vm_compute; reflexivity | ].
  split; [vm_compute; reflexivity | ]. split; [vm_compute; reflexivity | ].
  split; [vm_compute; reflexivity | ].
  intros (k & Hk & _).
  assert (Hnot : digit_of_slot 0 ∉ scenario_tiles)
    by (apply (bool_decide_unpack _); vm_compute; exact I).
  apply Hnot. by eapply list_elem_of_lookup_2.
Qed.

Lemma Map_init_reads_back_witness :
  tile_sequence MAP1 = Some map1_tiles
  ∧ length map1_tiles = 165%nat
  ∧ (length (get_slots PlaySetup_init) <= 10)%nat
  ∧ last_occurrence map1_tiles (digit_of_slot 3) 28
  ∧ map1_tiles !! (15 * 0 + 0)%nat = Some "x"%char
  ∧ map1_tiles !! (15 * 5 + 0)%nat = Some "#"%char
  ∧ ∃ m : Map Q,
      Map_init MAP1 PlaySetup_init = Some m
      ∧ length (get_tiles m) = 11%nat
      ∧ get_tiles m !! 0%nat ≫= (λ ln, ln !! 0%nat) = Some TILE_BLOCK
      ∧ get_tiles m !! 5%nat ≫= (λ ln, ln !! 0%nat) = Some TILE_WALL
      ∧ ∃ ref p, get_players_by_numbers m !! 3 = Some (Some ref)
                 ∧ get_players m !! ref = Some p
                 ∧ position p = ((27 # 2)%Q, (3 # 2)%Q).
Proof.
  assert (Hts : tile_sequence MAP1 = Some map1_tiles) by (vm_compute; reflexivity).
  assert (Hn : length map1_tiles = 165%nat) by (vm_compute; reflexivity).
  assert (Hs : (length (get_slots PlaySetup_init) <= 10)%nat)
    by (vm_compute; lia).
  assert (Hk : last_occurrence map1_tiles (digit_of_slot 3) 28).
  { apply last_occurrenceb_sound. vm_compute. reflexivity. }
  assert (Hx : map1_tiles !! (15 * 0 + 0)%nat = Some "x"%char)
    by (vm_compute; reflexivity).
  assert (Hw : map1_tiles !! (15 * 5 + 0)%nat = Some "#"%char)
    by (vm_compute; reflexivity).
  split; [exact Hts | ]. split; [exact Hn | ]. split; [exact Hs | ].
  split; [exact Hk | ]. split; [exact Hx | ]. split; [exact Hw | ].
  destruct (Map_init_reads_back (F := Q) MAP1 PlaySetup_init map1_tiles Hts Hn Hs)
    as (m & Hm & Hlen & _ & Hgrid & Hspawn).
  exists m. split; [exact Hm | ]. split; [exact Hlen | ].
  destruct (Hgrid 0%nat 0%nat _ ltac:(lia) ltac:(lia) Hx)
    as (t1 & Ht1 & Hb1 & _ & _).
  destruct (Hgrid 5%nat 0%nat _ ltac:(lia) ltac:(lia) Hw)
    as (t2 & Ht2 & _ & Hw2 & _).
  split; [by rewrite Ht1, (Hb1 eq_refl) | ].
  split; [by rewrite Ht2, (Hw2 eq_refl) | ].
  destruct (Hspawn 3%nat (-1, 3) eq_refl)
    as (ref & p & Hkey & Hp & _ & Hpos & _).
  exists ref, p. split; [exact Hkey | ]. split; [exact Hp | ].
  etrans; [exact (Hpos 28%nat Hk) | ]. vm_compute. reflexivity.
Defined.

Lemma bombs_left_never_negative_witness :
  0 <= bombs_left player0
  ∧ 0 <= bombs_left (react_to_inputs 0 player0 [(0, ACTION_BOMB)] 100 map1).1
    <= bombs_left player0.
Proof.
  assert (H0 : 0 <= bombs_left player0) by (vm_compute; discriminate).
  split; [exact H0 | ].
  exact (proj1 (proj2 (bombs_left_never_negative (F := Q))) 0%nat player0
           [(0, ACTION_BOMB)] 100 map1 H0).
Defined.

Lemma react_to_inputs_leaves_dead_witness :
  let p := set_state STATE_DEAD player0 in
  state p = STATE_DEAD
  ∧ first_direction (number p) [(0, ACTION_BOMB)] = None
  ∧ state (react_to_inputs 0 p [(0, ACTION_BOMB)] 100 map1).1 = STATE_IDLE_LEFT.
Proof.
  cbv zeta.
  assert (Hn : first_direction (number (set_state STATE_DEAD player0))
                 [(0, ACTION_BOMB)] = None) by (vm_compute; reflexivity).
  split; [reflexivity | ]. split; [exact Hn | ].
  exact (proj1 (react_to_inputs_leaves_dead 0 (set_state STATE_DEAD player0)
                  [(0, ACTION_BOMB)] 100 map1) eq_refl Hn).
Defined.

(** * Further properties of the program *)

(** ** More on [tile_has_bomb] and [react_to_inputs] *)

Section MoreOnReacting.
Context {F : Type} `{Coord F}.

Implicit Types (p : Player F) (m : Map F) (st : LoopState F).
Implicit Types (acts : list (Z * Action)) (a : Action).

(** X1.  [tile_has_bomb] answers true exactly when some live bomb lies on
    the tile of the given coordinates, that is, when the floors of both
    coordinates agree with those of the bomb's position. *)
Theorem tile_has_bomb_iff m (pos : F * F) :
  tile_has_bomb m pos = true
  ↔ ∃ r b, r ∈ bombs m ∧ bomb_objects m !! r = Some b
           ∧ math_floor pos.1 = math_floor (bomb_position b).1
           ∧ math_floor pos.2 = math_floor (bomb_position b).2.
Proof.
  unfold tile_has_bomb. rewrite tile_has_bomb_loop_true.
  split; intros (r & b & Hr & Hb & Ht); exists r, b.
  - injection Ht as H1 H2. done.
  - destruct Ht as [H1 H2]. unfold tile_of. by rewrite H1, H2.
Qed.

(** An item that is not relevant does nothing. *)
Lemma react_item_irrelevant (self : nat) d st item :
  ¬ relevant (number (loop_player st)) item → react_item self d st item = st.
Proof.
  intros Hirr.
  destruct (decide (item.1 = number (loop_player st))) as [He | Hne];
    [ | by apply react_item_other].
  rewrite react_item_own by done. cbv zeta.
  assert (Ha : item.2 = ACTION_SPECIAL ∨ item.2 = ACTION_MENU).
  { destruct (decide (item.2 = ACTION_SPECIAL)) as [ | H1]; [by left | ].
    destruct (decide (item.2 = ACTION_MENU)) as [ | H2]; [by right | ].
    by destruct Hirr. }
  rewrite react_move_spec.
  assert (Hd : direction_of_action item.2 = None) by (by destruct Ha as [-> | ->]).
  rewrite Hd.
  assert (Hm : (if loop_moved st then (loop_player st, loop_moved st)
                else (loop_player st, loop_moved st))
               = (loop_player st, loop_moved st)) by (by destruct (loop_moved st)).
  rewrite Hm. cbn [fst snd].
  rewrite react_bomb_other by (destruct Ha as [-> | ->]; done).
  by destruct st.
Qed.

Lemma react_loop_relevant (self : nat) d acts st :
  react_loop self d acts st
  = react_loop self d (filter (relevant (number (loop_player st))) acts) st.
Proof.
  revert st. induction acts as [| item acts IH]; intros st; [done | ].
  destruct (decide (relevant (number (loop_player st)) item)) as [Hr | Hr].
  - rewrite filter_cons_True by done. rewrite !react_loop_cons, IH.
    by rewrite react_item_number.
  - rewrite filter_cons_False by done.
    by rewrite react_loop_cons, react_item_irrelevant.
Qed.

(** X2.  [react_to_inputs] looks only at the items that carry the player's
    own number and a direction or the bomb action: items for other numbers
    (other players, inactive slots, the general number -1) and the actions
    Special and Menu can be dropped from the list without changing the
    result. *)
Theorem react_to_inputs_ignores_irrelevant (self : nat) p acts dt m :
  react_to_inputs self p acts dt m
  = react_to_inputs self p (filter (relevant (number p)) acts) dt m.
Proof.
  unfold react_to_inputs. cbv zeta.
  by rewrite (react_loop_relevant self _ acts).
Qed.

(** An item leaves a loop state alone when it is not the player's, or when
    it is neither a direction that can still be taken nor a bomb that can
    be placed. *)
Lemma react_item_refused (self : nat) d st item :
  (loop_moved st = true ∨ direction_of_action item.2 = None) →
  ¬ can_place (loop_player st) (loop_map st) →
  react_item self d st item = st.
Proof.
  intros Hmv Hno.
  destruct (decide (item.1 = number (loop_player st))) as [He | Hne];
    [ | by apply react_item_other].
  rewrite react_item_own by done. cbv zeta. rewrite react_move_spec.
  assert (Hm : match loop_moved st, direction_of_action item.2 with
               | false, Some dir =>
                   (set_state (walking dir)
                      (set_position (step_in dir d (position (loop_player st)))
                         (loop_player st)), true)
               | _, _ => (loop_player st, loop_moved st)
               end = (loop_player st, loop_moved st)).
  { destruct Hmv as [-> | ->]; [done | by destruct (loop_moved st)]. }
  rewrite Hm. cbn [fst snd].
  assert (Hb : react_bomb self item.2 (loop_player st) (loop_map st)
               = (loop_player st, loop_map st)).
  { destruct (decide (item.2 = ACTION_BOMB)) as [-> | Ha];
      [ | by apply react_bomb_other].
    rewrite react_bomb_spec.
    destruct (bool_decide _ && negb _) eqn:Hg; [ | done].
    apply can_place_guard in Hg. by destruct Hno. }
  rewrite Hb. by destruct st.
Qed.

Lemma react_loop_refused (self : nat) d acts st :
  (loop_moved st = true ∨ first_direction (number (loop_player st)) acts = None) →
  ¬ can_place (loop_player st) (loop_map st) →
  react_loop self d acts st = st.
Proof.
  revert st. induction acts as [| item acts IH]; intros st Hmv Hno; [done | ].
  rewrite react_loop_cons.
  destruct (decide (item.1 = number (loop_player st))) as [He | Hne].
  - assert (Hitem : loop_moved st = true ∨ direction_of_action item.2 = None).
    { destruct Hmv as [Hm | Hf]; [by left | ]. right. simpl in Hf.
      rewrite decide_True in Hf by done.
      by destruct (direction_of_action item.2). }
    rewrite react_item_refused by done. apply IH; [ | done].
    destruct Hmv as [Hm | Hf]; [by left | ]. right. simpl in Hf.
    rewrite decide_True in Hf by done.
    by destruct (direction_of_action item.2).
  - rewrite react_item_other by done. apply IH; [ | done].
    destruct Hmv as [Hm | Hf]; [by left | ]. right. simpl in Hf.
    by rewrite decide_False in Hf by done.
Qed.

(** What a call without effect on the loop state returns. *)
Lemma react_to_inputs_refused (self : nat) p acts dt m :
  first_direction (number p) acts = None →
  ¬ can_place p m →
  (react_to_inputs self p acts dt m).2 = m
  ∧ bombs_left (react_to_inputs self p acts dt m).1 = bombs_left p
  ∧ position (react_to_inputs self p acts dt m).1 = position p.
Proof.
  intros Hf Hno.
  destruct (react_to_inputs_unfold self p acts dt m)
    as (Hpos & _ & _ & Hbl & _ & Hm).
  rewrite Hpos, Hbl, Hm.
  by rewrite (react_loop_refused self _ acts
                (mkLoop (set_state (collapse (state p)) p) false m))
    by (by try right).
Qed.

(** X3.  A player without bombs left places none, whatever the actions:
    the map comes back unchanged and [bombs_left] stays. *)
Theorem react_to_inputs_without_budget (self : nat) p acts dt m :
  bombs_left p < 1 →
  (react_to_inputs self p acts dt m).2 = m
  ∧ bombs_left (react_to_inputs self p acts dt m).1 = bombs_left p.
Proof.
  intros Hb.
  destruct (react_to_inputs_unfold self p acts dt m)
    as (_ & _ & _ & Hbl & _ & Hm).
  rewrite Hbl, Hm. clear Hbl Hm.
  generalize (distance_to_travel dt p) as d. intros d.
  assert (Hgen : ∀ st, bombs_left (loop_player st) < 1 →
            loop_map (react_loop self d acts st) = loop_map st
            ∧ bombs_left (loop_player (react_loop self d acts st))
              = bombs_left (loop_player st)).
  { induction acts as [| item acts IH]; intros st Hst; [done | ].
    rewrite react_loop_cons.
    assert (Hstep : loop_map (react_item self d st item) = loop_map st
                    ∧ bombs_left (loop_player (react_item self d st item))
                      = bombs_left (loop_player st)).
    { unfold react_item. destruct (bool_decide (item.1 ≠ _)); [done | ].
      cbn [fst snd loop_map loop_player].
      destruct (react_move_frame d item.2 (loop_player st) (loop_moved st))
        as (_ & _ & _ & Hq).
      revert Hq. generalize (react_move d item.2 (loop_player st) (loop_moved st)).1.
      intros q Hq. unfold react_bomb.
      rewrite (bool_decide_false (bombs_left q >= 1)) by lia.
      rewrite andb_false_r. simpl. done. }
    destruct Hstep as [Hm1 Hb1].
    destruct (IH (react_item self d st item)) as [Hm2 Hb2]; [lia | ].
    split; congruence. }
  exact (Hgen (mkLoop (set_state (collapse (state p)) p) false m) Hb).
Qed.

(** X4.  A player that stands on a tile with a live bomb and does not
    move places no bomb: the map comes back unchanged, and so do
    [bombs_left] and the position. *)
Theorem react_to_inputs_on_occupied_tile (self : nat) p acts dt m :
  first_direction (number p) acts = None →
  tile_has_bomb m (position p) = true →
  (react_to_inputs self p acts dt m).2 = m
  ∧ bombs_left (react_to_inputs self p acts dt m).1 = bombs_left p
  ∧ position (react_to_inputs self p acts dt m).1 = position p.
Proof.
  intros Hf Ht. apply react_to_inputs_refused; [done | ].
  intros [_ Hfree]. congruence.
Qed.

End MoreOnReacting.

(** ** What a call of [react_to_inputs] adds to the map *)

Section Accounting.
Context {F : Type} `{Coord F}.

Implicit Types (p : Player F) (m : Map F) (st : LoopState F).
Implicit Types (acts : list (Z * Action)) (a : Action).

Lemma bombs_added_refl m : bombs_added m m [].
Proof. unfold bombs_added. simpl. by rewrite !app_nil_r. Qed.

Lemma bombs_added_trans m1 m2 m3 (new1 new2 : list (Bomb F)) :
  bombs_added m1 m2 new1 → bombs_added m2 m3 new2 →
  bombs_added m1 m3 (new1 ++ new2).
Proof.
  intros (Ho1 & Hb1 & Ht1 & He1 & Hp1 & Hn1) (Ho2 & Hb2 & Ht2 & He2 & Hp2 & Hn2).
  unfold bombs_added. rewrite Ho2, Hb2, Ho1, Hb1, Ht2, He2, Hp2, Hn2.
  rewrite !length_app, seq_app, !app_assoc. done.
Qed.

(** The loop body adds at most one bomb, and pays for it. *)
Lemma react_item_accounting (self : nat) d st item :
  let st' := react_item self d st item in
  ∃ new : list (Bomb F),
    bombs_added (loop_map st) (loop_map st') new
    ∧ Forall (fresh_bomb self) new
    ∧ bombs_left (loop_player st')
      = bombs_left (loop_player st) - Z.of_nat (length new)
    ∧ number (loop_player st') = number (loop_player st)
    ∧ team_color (loop_player st') = team_color (loop_player st)
    ∧ speed (loop_player st') = speed (loop_player st).
Proof.
  cbv zeta. unfold react_item.
  destruct (bool_decide (item.1 ≠ _)).
  { exists []. split; [apply bombs_added_refl | ]. split; [done | ].
    simpl. split; [lia | done]. }
  cbn [fst snd loop_map loop_player].
  assert (Hmv : ∀ q : Player F,
            q = (react_move d item.2 (loop_player st) (loop_moved st)).1 →
            number q = number (loop_player st)
            ∧ team_color q = team_color (loop_player st)
            ∧ speed q = speed (loop_player st)
            ∧ bombs_left q = bombs_left (loop_player st)).
  { intros q ->. unfold react_move.
    destruct (loop_moved st), item.2; simpl; done. }
  specialize (Hmv _ eq_refl). revert Hmv.
  generalize (react_move d item.2 (loop_player st) (loop_moved st)).1.
  intros q (Hn & Hc & Hs & Hb). unfold react_bomb.
  destruct (bool_decide (item.2 = ACTION_BOMB) && _ && _); cbn [fst snd].
  - exists [placed_bomb self (position q)]. split.
    { unfold bombs_added, add_bomb. simpl. done. }
    split; [by apply Forall_singleton | ]. simpl. split; [lia | done].
  - exists []. split; [apply bombs_added_refl | ]. split; [done | ].
    simpl. split; [lia | done].
Qed.

Lemma react_loop_accounting (self : nat) d acts st :
  let st' := react_loop self d acts st in
  ∃ new : list (Bomb F),
    bombs_added (loop_map st) (loop_map st') new
    ∧ Forall (fresh_bomb self) new
    ∧ bombs_left (loop_player st')
      = bombs_left (loop_player st) - Z.of_nat (length new)
    ∧ number (loop_player st') = number (loop_player st)
    ∧ team_color (loop_player st') = team_color (loop_player st)
    ∧ speed (loop_player st') = speed (loop_player st).
Proof.
  revert st. induction acts as [| item acts IH]; intros st.
  - exists []. split; [apply bombs_added_refl | ]. split; [done | ].
    simpl. split; [lia | done].
  - cbv zeta. rewrite react_loop_cons.
    destruct (react_item_accounting self d st item)
      as (new1 & Ha1 & Hf1 & Hb1 & Hn1 & Hc1 & Hs1).
    destruct (IH (react_item self d st item))
      as (new2 & Ha2 & Hf2 & Hb2 & Hn2 & Hc2 & Hs2).
    exists (new1 ++ new2). split; [by eapply bombs_added_trans | ].
    split; [by apply Forall_app | ].
    rewrite Hb2, Hb1, Hn2, Hn1, Hc2, Hc1, Hs2, Hs1, length_app.
    split; [lia | done].
Qed.

(** X5.  The bombs a call of [react_to_inputs] places are appended: the
    live bombs and the bomb objects the map had are prefixes of those it
    has afterwards, so no existing bomb is removed or changed; the tiles,
    the environment name, the player list and [players_by_numbers] stay as
    they are, as do the player's number, team colour and speed. *)
Theorem react_to_inputs_keeps_the_rest (self : nat) p acts dt m :
  let r := react_to_inputs self p acts dt m in
  bombs m `prefix_of` bombs r.2
  ∧ bomb_objects m `prefix_of` bomb_objects r.2
  ∧ tiles r.2 = tiles m
  ∧ environment_name r.2 = environment_name m
  ∧ players r.2 = players m
  ∧ players_by_numbers r.2 = players_by_numbers m
  ∧ number r.1 = number p ∧ team_color r.1 = team_color p
  ∧ speed r.1 = speed p.
Proof.
  destruct (react_loop_accounting self (distance_to_travel dt p) acts
              (mkLoop (set_state (collapse (state p)) p) false m))
    as (new & (Ho & Hb & Ht & He & Hp & Hn) & _ & _ & Hnum & Hcol & Hsp).
  unfold react_to_inputs. cbv zeta. cbn [fst snd].
  split; [rewrite Hb; by apply prefix_app_r | ].
  split; [rewrite Ho; by apply prefix_app_r | ].
  repeat (split; [done | ]).
  destruct (bool_decide _); simpl; rewrite ?Hnum, ?Hcol, ?Hsp; done.
Qed.

(** X6.  A call of [react_to_inputs] pays one bomb of the budget for every
    bomb it places: the map gains [k] new bomb objects, appended to the live
    bombs, each owned by the reacting player with [time_of_existence] 0 and
    the fuse of 3000 ms, and [bombs_left] drops by exactly [k]. *)
Theorem react_to_inputs_pays_per_bomb (self : nat) p acts dt m :
  let r := react_to_inputs self p acts dt m in
  ∃ new : list (Bomb F),
    bomb_objects r.2 = bomb_objects m ++ new
    ∧ bombs r.2 = bombs m ++ seq (length (bomb_objects m)) (length new)
    ∧ Forall (fresh_bomb self) new
    ∧ bombs_left r.1 = bombs_left p - Z.of_nat (length new).
Proof.
  destruct (react_loop_accounting self (distance_to_travel dt p) acts
              (mkLoop (set_state (collapse (state p)) p) false m))
    as (new & (Ho & Hb & _) & Hf & Hbl & _).
  exists new. unfold react_to_inputs. cbv zeta. cbn [fst snd].
  split; [done | ]. split; [done | ]. split; [done | ].
  destruct (bool_decide _); simpl; exact Hbl.
Qed.

(** A player that does not move, on a loop state whose tile centre lies in
    the player's tile: the loop changes nothing or places exactly one
    bomb. *)
Lemma react_loop_at_most_one (self : nat) d acts st :
  first_direction (number (loop_player st)) acts = None →
  tile_of (tile_center (position (loop_player st)))
  = tile_of (position (loop_player st)) →
  react_loop self d acts st = st
  ∨ (can_place (loop_player st) (loop_map st)
     ∧ react_loop self d acts st
       = mkLoop (set_bombs_left (bombs_left (loop_player st) - 1) (loop_player st))
           (loop_moved st)
           (add_bomb (loop_map st)
              (placed_bomb self (position (loop_player st))))).
Proof.
  revert st. induction acts as [| item acts IH]; intros st Hf Hlaw; [by left | ].
  rewrite react_loop_cons. simpl in Hf.
  destruct (decide (item.1 = number (loop_player st))) as [He | Hne].
  2: { rewrite react_item_other by done. by apply IH. }
  destruct (direction_of_action item.2) eqn:Hdir; [done | ].
  assert (Hmv : react_move d item.2 (loop_player st) (loop_moved st)
                = (loop_player st, loop_moved st)).
  { rewrite react_move_spec, Hdir. by destruct (loop_moved st). }
  rewrite react_item_own by done. cbv zeta. rewrite Hmv. cbn [fst snd].
  destruct (decide (item.2 = ACTION_BOMB)) as [Ha | Ha].
  - rewrite Ha, react_bomb_spec.
    destruct (bool_decide _ && negb _) eqn:Hg; cbn [fst snd].
    + right. apply can_place_guard in Hg. split; [done | ].
      apply react_loop_refused; [by right | ].
      intros [_ Hfree]. cbn [loop_player loop_map] in Hfree.
      injection Hlaw as Hx Hy.
      pose proof (placed_bomb_reported self (loop_player st) (loop_map st) Hx Hy)
        as Hrep.
      assert (Hno : true = false) by (rewrite <- Hrep; exact Hfree).
      discriminate Hno.
    + replace (mkLoop (loop_player st) (loop_moved st) (loop_map st)) with st
        by (by destruct st).
      by apply IH.
  - rewrite react_bomb_other by done. cbn [fst snd].
    replace (mkLoop (loop_player st) (loop_moved st) (loop_map st)) with st
      by (by destruct st).
    by apply IH.
Qed.

(** X7.  A player that does not move places at most one bomb in a call,
    however many place-bomb actions the list holds, provided the centre of
    the player's tile lies in that tile: either nothing happens, or the
    placement was possible and exactly one bomb, at the centre of the
    player's tile, is added and paid for. *)
Theorem react_to_inputs_places_at_most_one (self : nat) p acts dt m :
  first_direction (number p) acts = None →
  tile_of (tile_center (position p)) = tile_of (position p) →
  let r := react_to_inputs self p acts dt m in
  (r.2 = m ∧ bombs_left r.1 = bombs_left p)
  ∨ (can_place p m
     ∧ bombs r.2 = bombs m ++ [length (bomb_objects m)]
     ∧ bomb_objects r.2 = bomb_objects m ++ [placed_bomb self (position p)]
     ∧ bombs_left r.1 = bombs_left p - 1).
Proof.
  intros Hf Hlaw.
  destruct (react_to_inputs_unfold self p acts dt m)
    as (_ & _ & _ & Hbl & _ & Hm).
  cbv zeta. rewrite Hbl, Hm.
  destruct (react_loop_at_most_one self (distance_to_travel dt p) acts
              (mkLoop (set_state (collapse (state p)) p) false m) Hf Hlaw)
    as [-> | [Hc ->]].
  - by left.
  - right. done.
Qed.

End Accounting.

(** ** Invariants of whole runs *)

Section RunInvariants.
Context {F : Type} `{Coord F}.

Implicit Types (p : Player F) (m : Map F) (st : LoopState F).
Implicit Types (acts : list (Z * Action)) (I : Map F → Prop).

Lemma filter_ext_in {A : Type} (P Q : A → Prop)
    `{!∀ x, Decision (P x), !∀ x, Decision (Q x)} (l : list A) :
  (∀ x, x ∈ l → (P x ↔ Q x)) → filter P l = filter Q l.
Proof.
  induction l as [| x l IH]; intros Hext; [done | ].
  assert (Hl : filter P l = filter Q l).
  { apply IH. intros y Hy. apply Hext. by apply list_elem_of_further. }
  destruct (decide (P x)) as [Hp | Hp].
  - rewrite !filter_cons_True; [by rewrite Hl | | done].
    apply Hext; [apply list_elem_of_here | done].
  - rewrite !filter_cons_False; [done | | done].
    intros Hq. apply Hp. apply Hext; [apply list_elem_of_here | done].
Qed.

Lemma filter_all {A : Type} (P : A → Prop) `{!∀ x, Decision (P x)} (l : list A) :
  (∀ x, x ∈ l → P x) → filter P l = l.
Proof.
  induction l as [| x l IH]; intros Hall; [done | ].
  rewrite filter_cons_True by (apply Hall; apply list_elem_of_here).
  rewrite IH; [done | ]. intros y Hy. apply Hall. by apply list_elem_of_further.
Qed.

Lemma filter_none {A : Type} (P : A → Prop) `{!∀ x, Decision (P x)} (l : list A) :
  (∀ x, x ∈ l → ¬ P x) → filter P l = [].
Proof.
  induction l as [| x l IH]; intros Hall; [done | ].
  rewrite filter_cons_False by (apply Hall; apply list_elem_of_here).
  apply IH. intros y Hy. apply Hall. by apply list_elem_of_further.
Qed.

(** Splitting a count by a boolean test. *)
Lemma length_filter_split {A : Type} (P : A → Prop) `{!∀ x, Decision (P x)}
    (e : A → bool) (l : list A) :
  (length (filter P (filter (λ x, e x = false) l))
   + length (filter (λ x, P x ∧ e x = true) l))%nat
  = length (filter P l).
Proof.
  induction l as [| x l IH]; [done | ].
  destruct (e x) eqn:He.
  - rewrite (filter_cons_False (λ x, e x = false)) by congruence.
    destruct (decide (P x)) as [Hp | Hp].
    + rewrite (filter_cons_True P), (filter_cons_True (λ x, P x ∧ e x = true))
        by done.
      simpl. lia.
    + rewrite (filter_cons_False P), (filter_cons_False (λ x, P x ∧ e x = true))
        by (try done; by intros [? _]).
      done.
  - rewrite (filter_cons_True (λ x, e x = false)) by done.
    rewrite (filter_cons_False (λ x, P x ∧ e x = true)) by (intros [_ ?]; congruence).
    destruct (decide (P x)) as [Hp | Hp].
    + rewrite !(filter_cons_True P) by done. simpl. lia.
    + rewrite !(filter_cons_False P) by done. done.
Qed.

(** The references of a sound map point into the store. *)
Lemma wf_map_lt m r : wf_map m → r ∈ bombs m → (r < length (bomb_objects m))%nat.
Proof.
  intros [_ Hrefs] Hr. destruct (Hrefs r Hr) as (b & _ & Hb & _).
  by eapply lookup_lt_Some.
Qed.

(** Looking at an added bomb, or at an old one, after bombs were added. *)
Lemma bombs_added_lookup m m' (new : list (Bomb F)) r :
  wf_map m → bombs_added m m' new → r ∈ bombs m' →
  (r ∈ bombs m ∧ bomb_objects m' !! r = bomb_objects m !! r)
  ∨ ((r ∉ bombs m) ∧ ∃ b, b ∈ new ∧ bomb_objects m' !! r = Some b).
Proof.
  intros Hwf (Ho & Hb & _) Hr. rewrite Hb in Hr.
  apply elem_of_app in Hr as [Hr | Hr].
  - left. split; [done | ]. rewrite Ho.
    apply lookup_app_l. by apply wf_map_lt.
  - right. apply elem_of_seq in Hr as [Hge Hlt]. split.
    + intros Hin. apply (wf_map_lt _ _ Hwf) in Hin. lia.
    + destruct (lookup_lt_is_Some_2 new (r - length (bomb_objects m))) as [b Hnew];
        [lia | ].
      exists b. split; [by eapply list_elem_of_lookup_2 | ].
      rewrite Ho, lookup_app_r by lia. done.
Qed.

(** The bombs a player owns after bombs of the player at [self] were
    added. *)
Lemma owned_added m m' (new : list (Bomb F)) (self o : nat) :
  wf_map m → bombs_added m m' new → Forall (fresh_bomb self) new →
  length (owned m' o)
  = (length (owned m o) + (if decide (o = self) then length new else 0))%nat.
Proof.
  intros Hwf Hadd Hfresh. pose proof Hadd as (Ho & Hb & _).
  unfold owned. rewrite Hb, filter_app, length_app. f_equal.
  - f_equal. apply filter_ext_in. intros r Hr. unfold owner.
    rewrite Ho, lookup_app_l by (by apply wf_map_lt). done.
  - assert (Hown : ∀ r, r ∈ seq (length (bomb_objects m)) (length new) →
              owner (bomb_objects m') r = Some self).
    { intros r Hr. apply elem_of_seq in Hr as [Hge Hlt].
      destruct (lookup_lt_is_Some_2 new (r - length (bomb_objects m))) as [b Hnew];
        [lia | ].
      unfold owner. rewrite Ho, lookup_app_r, Hnew by lia. simpl.
      rewrite Forall_forall in Hfresh.
      apply Hfresh. by eapply list_elem_of_lookup_2. }
    destruct (decide (o = self)) as [-> | Hne].
    + rewrite filter_all by done. by rewrite length_seq.
    + rewrite filter_none; [done | ]. intros r Hr Hr'.
      rewrite (Hown r Hr) in Hr'. congruence.
Qed.

(** One round of the player loop keeps the references sound. *)
Lemma player_reacts_wf (i : nat) p acts dt m :
  wf_map m → players m !! i = Some p → wf_map (player_reacts i p acts dt m).
Proof.
  intros Hwf Hp. pose proof (lookup_lt_Some _ _ _ Hp) as Hi.
  unfold player_reacts. apply set_players_wf.
  - by rewrite length_insert.
  - by apply react_to_inputs_wf.
Qed.

Lemma player_reacts_conserved (i : nat) p acts dt m :
  wf_map m → conserved m → players m !! i = Some p →
  conserved (player_reacts i p acts dt m).
Proof.
  intros Hwf Hcons Hp.
  destruct (react_loop_accounting i (distance_to_travel dt p) acts
              (mkLoop (set_state (collapse (state p)) p) false m))
    as (new & Hadd & Hfresh & Hbl & _).
  destruct (react_to_inputs_unfold i p acts dt m) as (_ & _ & _ & Hbl' & _ & Hm).
  cbn [loop_player loop_map] in Hadd, Hbl.
  rewrite <- Hm in Hadd. rewrite <- Hbl' in Hbl. clear Hbl' Hm.
  change (bombs_left (set_state (collapse (state p)) p)) with (bombs_left p) in Hbl.
  intros o q Hq. unfold player_reacts in Hq. cbn [players set_players] in Hq.
  assert (Hown : length (owned (player_reacts i p acts dt m) o)
                 = (length (owned m o)
                    + (if decide (o = i) then length new else 0))%nat)
    by exact (owned_added m _ new i o Hwf Hadd Hfresh).
  rewrite Hown. destruct Hadd as (_ & _ & _ & _ & Hps & _). rewrite Hps in Hq.
  destruct (decide (o = i)) as [-> | Hne].
  - rewrite list_lookup_insert_eq in Hq by (by eapply lookup_lt_Some).
    assert (Hq' : (react_to_inputs i p acts dt m).1 = q) by congruence.
    rewrite <- Hq', Hbl. specialize (Hcons i p Hp). lia.
  - rewrite list_lookup_insert_ne in Hq by done.
    specialize (Hcons o q Hq). lia.
Qed.

Lemma owner_aged (objs objs' : list (Bomb F)) dt r :
  objs' !! r = aged dt <$> objs !! r → owner objs' r = owner objs r.
Proof. unfold owner. intros ->. by destruct (objs !! r). Qed.

Lemma update_conserved m dt m' :
  wf_map m → conserved m → update m dt = Some m' → conserved m'.
Proof.
  intros Hwf Hcons Hup.
  destruct (update_run m dt Hwf) as (m2 & Hrun & Hbs & Hin & _ & Hps & _).
  rewrite Hup in Hrun. injection Hrun as <-.
  intros o q Hq.
  destruct (lookup_lt_is_Some_2 (players m) o) as [p Hp].
  { apply lookup_lt_Some in Hq. by rewrite Hps, credit_all_length in Hq. }
  rewrite Hps, (credit_all_lookup _ _ _ _ _ Hp) in Hq. injection Hq as <-.
  cbn [bombs_left set_bombs_left]. specialize (Hcons o p Hp).
  assert (Hown : owned m' o
                 = filter (λ r, owner (bomb_objects m) r = Some o)
                     (filter (λ r, expires dt (bomb_objects m) r = false) (bombs m))).
  { unfold owned. rewrite Hbs. apply filter_ext_in. intros r Hr.
    apply list_elem_of_filter in Hr as [_ Hr].
    by rewrite (owner_aged _ _ dt r (Hin r Hr)). }
  rewrite Hown, list_filter_filter.
  pose proof (length_filter_split (λ r, owner (bomb_objects m) r = Some o)
                (expires dt (bomb_objects m)) (bombs m)) as Hsplit.
  unfold owned in Hcons. lia.
Qed.

(** A property that every round of the player loop and every [update]
    keeps holds throughout a run. *)
Lemma players_react_invariant I :
  (∀ (i : nat) p acts dt m, I m → players m !! i = Some p →
     I (player_reacts i p acts dt m)) →
  ∀ (n i : nat) acts dt m, I m → I (players_react n i acts dt m).
Proof.
  intros Hreact. induction n as [| n IH]; intros i acts dt m Hm; [done | ].
  cbn [players_react]. destruct (players m !! i) as [p | ] eqn:Hp; [ | done].
  apply IH. by apply (Hreact i p acts dt m).
Qed.

Lemma simulation_invariant I (P : Z → Prop) :
  (∀ (i : nat) p acts dt m, I m → players m !! i = Some p →
     I (player_reacts i p acts dt m)) →
  (∀ m dt m', P dt → I m → update m dt = Some m' → I m') →
  ∀ steps m m', Forall (λ step, P step.2) steps → I m →
    simulation steps m = Some m' → I m'.
Proof.
  intros Hreact Hupdate. induction steps as [| step steps IH];
    intros m m' Hsteps Hm Hrun.
  - injection Hrun as <-. done.
  - apply Forall_cons in Hsteps as [Hdt Hsteps]. cbn [simulation] in Hrun.
    destruct (simulation_step step.1 step.2 m) as [m1 | ] eqn:Hstep; [ | done].
    cbn [mbind option_bind] in Hrun. apply (IH m1 m' Hsteps); [ | done].
    unfold simulation_step in Hstep.
    apply (Hupdate (players_react (length (players m)) 0 step.1 step.2 m)
             step.2 m1 Hdt); [ | done].
    by apply players_react_invariant.
Qed.

(** Every run from a constructed map goes through. *)
Lemma simulation_from_init map_data play_setup ts steps :
  tile_sequence map_data = Some ts →
  (length (get_slots play_setup) <= 10)%nat →
  ∃ m0 m : Map F,
    Map_init map_data play_setup = Some m0
    ∧ simulation steps m0 = Some m
    ∧ wf_map m0 ∧ bombs m0 = []
    ∧ Forall (λ p, bombs_left p = 5) (players m0).
Proof.
  intros Hts Hslots.
  destruct (Map_init_run map_data play_setup ts Hts Hslots)
    as (m0 & sp & Hinit & _ & _ & _ & _ & Hb & _ & Hfive & _).
  assert (Hwf : wf_map m0) by by eapply Map_init_wf.
  assert (Hok : budgets_ok m0).
  { unfold budgets_ok. eapply Forall_impl; [exact Hfive | ].
    intros p Hp. simpl in Hp. lia. }
  destruct (simulation_run steps m0 Hwf Hok) as (m & Hrun & _).
  by exists m0, m.
Qed.

(** X8.  The bombs of a player are conserved.  In every run of the
    simulation from a constructed map, after every step and for every
    player, [bombs_left] plus the number of live bombs the player owns is
    5; so [bombs_left] stays between 0 and 5 and a player never has more
    than 5 bombs on the map. *)
Theorem simulation_conserves_bombs map_data play_setup ts steps :
  tile_sequence map_data = Some ts →
  (length (get_slots play_setup) <= 10)%nat →
  ∃ m0 m : Map F,
    Map_init map_data play_setup = Some m0
    ∧ simulation steps m0 = Some m
    ∧ ∀ o p, players m !! o = Some p →
        bombs_left p + Z.of_nat (length (owned m o)) = 5
        ∧ 0 <= bombs_left p <= 5
        ∧ (length (owned m o) <= 5)%nat.
Proof.
  intros Hts Hslots.
  destruct (simulation_from_init map_data play_setup ts steps Hts Hslots)
    as (m0 & m & Hinit & Hrun & Hwf & Hb & Hfive).
  exists m0, m. split; [done | ]. split; [done | ].
  assert (Hinv : wf_map m ∧ conserved m).
  { apply (simulation_invariant (λ m, wf_map m ∧ conserved m) (λ _, True))
      with (steps := steps) (m := m0); try done.
    - intros i p acts dt m1 [Hwf1 Hc1] Hp.
      split; [by apply player_reacts_wf | by apply player_reacts_conserved].
    - intros m1 dt m2 _ [Hwf1 Hc1] Hup.
      split; [by eapply update_wf | by eapply update_conserved].
    - by apply Forall_forall.
    - split; [done | ]. intros o p Hp. unfold owned. rewrite Hb. simpl.
      rewrite (Forall_lookup_1 _ _ _ _ Hfive Hp). done. }
  destruct Hinv as [_ Hcons]. intros o p Hp. specialize (Hcons o p Hp).
  assert (Hbud : 0 <= bombs_left p).
  { destruct (simulation_budgets map_data play_setup ts steps Hts Hslots)
      as (m0' & m' & Hinit' & Hrun' & Hok).
    assert (m0' = m0) by congruence. subst.
    assert (m' = m) by congruence. subst.
    by apply (Forall_lookup_1 _ _ _ _ Hok Hp). }
  lia.
Qed.

Lemma omap_cons_eq {A B : Type} (f : A → option B) (x : A) (l : list A) :
  omap f (x :: l)
  = match f x with Some y => y :: omap f l | None => omap f l end.
Proof. reflexivity. Qed.

Lemma omap_ext_in {A B : Type} (f g : A → option B) (l : list A) :
  (∀ x, x ∈ l → f x = g x) → omap f l = omap g l.
Proof.
  induction l as [| x l IH]; intros Hext; [done | ].
  rewrite !omap_cons_eq. rewrite (Hext x) by apply list_elem_of_here.
  rewrite IH; [done | ]. intros y Hy. apply Hext. by apply list_elem_of_further.
Qed.

Lemma NoDup_omap_filter {A B : Type} (f : A → option B) (P : A → Prop)
    `{!∀ x, Decision (P x)} (l : list A) :
  NoDup (omap f l) → NoDup (omap f (filter P l)).
Proof.
  assert (Hsub : ∀ y, y ∈ omap f (filter P l) → y ∈ omap f l).
  { intros y Hy. apply list_elem_of_omap in Hy as (x & Hx & Hfx).
    apply list_elem_of_omap. exists x. split; [ | done].
    by apply list_elem_of_filter in Hx as [_ Hx]. }
  revert Hsub. induction l as [| x l IH]; intros Hsub Hnd; [done | ].
  assert (Htail : NoDup (omap f l) → NoDup (omap f (filter P l))).
  { intros Hl. apply IH; [ | done]. intros y Hy.
    apply list_elem_of_omap in Hy as (z & Hz & Hfz).
    apply list_elem_of_omap. exists z. split; [ | done].
    by apply list_elem_of_filter in Hz as [_ Hz]. }
  rewrite omap_cons_eq in Hnd. destruct (decide (P x)) as [Hp | Hp].
  - rewrite filter_cons_True by done. rewrite omap_cons_eq.
    destruct (f x) as [y | ] eqn:Hfx; [ | by apply Htail].
    apply NoDup_cons in Hnd as [Hy Hl]. apply NoDup_cons. split; [ | by apply Htail].
    intros Hin. apply Hy. apply list_elem_of_omap in Hin as (z & Hz & Hfz).
    apply list_elem_of_omap. exists z. split; [ | done].
    by apply list_elem_of_filter in Hz as [_ Hz].
  - rewrite filter_cons_False by done.
    destruct (f x) as [y | ]; [ | by apply Htail].
    apply NoDup_cons in Hnd as [_ Hl]. by apply Htail.
Qed.

(** The tiles of the live bombs after one more bomb. *)
Lemma bomb_tiles_add m (b : Bomb F) :
  wf_map m →
  bomb_tiles (add_bomb m b) = bomb_tiles m ++ [tile_of (bomb_position b)].
Proof.
  intros Hwf. unfold bomb_tiles, add_bomb.
  cbn [bombs bomb_objects set_bombs set_bomb_objects].
  rewrite omap_app. f_equal.
  - apply omap_ext_in. intros r Hr.
    rewrite lookup_app_l by (by apply wf_map_lt). done.
  - rewrite omap_cons_eq, lookup_app_r, Nat.sub_diag by done. done.
Qed.

(** A tile that [tile_has_bomb] reports free carries no live bomb. *)
Lemma bomb_tiles_free m (pos : F * F) :
  tile_has_bomb m pos = false → tile_of pos ∉ bomb_tiles m.
Proof.
  intros Hfree Hin. apply list_elem_of_omap in Hin as (r & Hr & Hb).
  destruct (bomb_objects m !! r) as [b | ] eqn:Hobj; [ | done].
  injection Hb as Hx Hy.
  assert (Ht : tile_has_bomb m pos = true).
  { apply tile_has_bomb_loop_true. exists r, b.
    split; [done | ]. split; [done | ]. unfold tile_of. by rewrite Hx, Hy. }
  congruence.
Qed.

Lemma react_item_tiles (self : nat) d st item :
  center_law →
  (self < length (players (loop_map st)))%nat →
  wf_map (loop_map st) → NoDup (bomb_tiles (loop_map st)) →
  NoDup (bomb_tiles (loop_map (react_item self d st item))).
Proof.
  intros Hlaw Hself Hwf Hnd. unfold react_item.
  destruct (bool_decide (item.1 ≠ _)); [done | ].
  cbn [fst snd loop_map].
  generalize (react_move d item.2 (loop_player st) (loop_moved st)).1.
  intros q. unfold react_bomb.
  destruct (bool_decide (item.2 = ACTION_BOMB)); [ | done].
  destruct (bool_decide (bombs_left q >= 1)); [ | done].
  destruct (tile_has_bomb (loop_map st) (position q)) eqn:Hfree; [done | ].
  cbn [andb negb snd]. rewrite bomb_tiles_add by done.
  apply NoDup_app. split; [done | ]. split; [ | apply NoDup_singleton].
  intros t Ht Ht'. apply list_elem_of_singleton in Ht'. subst t.
  apply (bomb_tiles_free _ _ Hfree).
  replace (tile_of (position q))
    with (tile_of (bomb_position
                     (move_to_tile_center
                        (set_player (Some self)
                           (set_position (position q) Bomb_init))))); [done | ].
  unfold tile_of. simpl. by rewrite !Hlaw.
Qed.

Lemma react_loop_tiles (self : nat) d acts st :
  center_law →
  (self < length (players (loop_map st)))%nat →
  wf_map (loop_map st) → NoDup (bomb_tiles (loop_map st)) →
  NoDup (bomb_tiles (loop_map (react_loop self d acts st))).
Proof.
  intros Hlaw. revert st.
  induction acts as [| item acts IH]; intros st Hself Hwf Hnd; [done | ].
  rewrite react_loop_cons. apply IH.
  - by rewrite react_item_players.
  - by apply react_item_wf.
  - by apply react_item_tiles.
Qed.

Lemma player_reacts_tiles (i : nat) p acts dt m :
  center_law → wf_map m → NoDup (bomb_tiles m) → players m !! i = Some p →
  NoDup (bomb_tiles (player_reacts i p acts dt m)).
Proof.
  intros Hlaw Hwf Hnd Hp. pose proof (lookup_lt_Some _ _ _ Hp) as Hi.
  unfold player_reacts.
  change (bomb_tiles (set_players ?ps ?m')) with (bomb_tiles m').
  destruct (react_to_inputs_unfold i p acts dt m) as (_ & _ & _ & _ & _ & ->).
  by apply react_loop_tiles.
Qed.

Lemma update_tiles m dt m' :
  wf_map m → NoDup (bomb_tiles m) → update m dt = Some m' →
  NoDup (bomb_tiles m').
Proof.
  intros Hwf Hnd Hup.
  destruct (update_run m dt Hwf) as (m2 & Hrun & Hbs & Hin & _).
  rewrite Hup in Hrun. injection Hrun as <-.
  unfold bomb_tiles. rewrite Hbs.
  rewrite (omap_ext_in _
             (λ r, (λ b, tile_of (bomb_position b)) <$> bomb_objects m !! r)).
  - by apply NoDup_omap_filter.
  - intros r Hr. apply list_elem_of_filter in Hr as [_ Hr].
    rewrite (Hin r Hr). by destruct (bomb_objects m !! r).
Qed.

(** Reading the tiles of the live bombs of a sound map by index. *)
Lemma bomb_tiles_lookup m (i r : nat) (b : Bomb F) :
  wf_map m → bombs m !! i = Some r → bomb_objects m !! r = Some b →
  bomb_tiles m !! i = Some (tile_of (bomb_position b)).
Proof.
  intros [_ Hrefs]. unfold bomb_tiles. revert i.
  induction (bombs m) as [| x l IH]; intros i Hi Hb; [done | ].
  destruct (Hrefs x) as (bx & _ & Hbx & _); [apply list_elem_of_here | ].
  rewrite omap_cons_eq, Hbx. simpl. destruct i as [| i].
  - injection Hi as ->. rewrite Hb in Hbx. by injection Hbx as <-.
  - simpl. apply IH; [ | done | done].
    intros y Hy. apply Hrefs. by apply list_elem_of_further.
Qed.

(** X9.  One bomb per tile.  In every run of the simulation from a
    constructed map, provided the centre of every tile lies in that tile,
    two live bombs on the same tile are the same bomb. *)
Theorem simulation_one_bomb_per_tile map_data play_setup ts steps :
  center_law →
  tile_sequence map_data = Some ts →
  (length (get_slots play_setup) <= 10)%nat →
  ∃ m0 m : Map F,
    Map_init map_data play_setup = Some m0
    ∧ simulation steps m0 = Some m
    ∧ ∀ (r1 r2 : nat) (b1 b2 : Bomb F),
        r1 ∈ bombs m → r2 ∈ bombs m →
        bomb_objects m !! r1 = Some b1 → bomb_objects m !! r2 = Some b2 →
        math_floor (bomb_position b1).1 = math_floor (bomb_position b2).1 →
        math_floor (bomb_position b1).2 = math_floor (bomb_position b2).2 →
        r1 = r2.
Proof.
  intros Hlaw Hts Hslots.
  destruct (simulation_from_init map_data play_setup ts steps Hts Hslots)
    as (m0 & m & Hinit & Hrun & Hwf & Hb & _).
  exists m0, m. split; [done | ]. split; [done | ].
  assert (Hinv : wf_map m ∧ NoDup (bomb_tiles m)).
  { apply (simulation_invariant (λ m, wf_map m ∧ NoDup (bomb_tiles m)) (λ _, True))
      with (steps := steps) (m := m0); try done.
    - intros i p acts dt m1 [Hwf1 Hnd1] Hp.
      split; [by apply player_reacts_wf | by apply player_reacts_tiles].
    - intros m1 dt m2 _ [Hwf1 Hnd1] Hup.
      split; [by eapply update_wf | by eapply update_tiles].
    - by apply Forall_forall.
    - split; [done | ]. unfold bomb_tiles. rewrite Hb. constructor. }
  destruct Hinv as [Hwf' Hnd]. intros r1 r2 b1 b2 Hr1 Hr2 Hb1 Hb2 Hx Hy.
  apply list_elem_of_lookup in Hr1 as [i1 Hi1].
  apply list_elem_of_lookup in Hr2 as [i2 Hi2].
  pose proof (bomb_tiles_lookup m i1 r1 b1 Hwf' Hi1 Hb1) as Ht1.
  pose proof (bomb_tiles_lookup m i2 r2 b2 Hwf' Hi2 Hb2) as Ht2.
  assert (Heq : tile_of (bomb_position b1) = tile_of (bomb_position b2))
    by (unfold tile_of; by rewrite Hx, Hy).
  rewrite Heq in Ht1.
  assert (i1 = i2) by exact (NoDup_lookup _ _ _ _ Hnd Ht1 Ht2).
  congruence.
Qed.

Lemma player_reacts_in_time (i : nat) p acts dt m :
  wf_map m → bombs_in_time m → players m !! i = Some p →
  bombs_in_time (player_reacts i p acts dt m).
Proof.
  intros Hwf Htime Hp.
  destruct (react_loop_accounting i (distance_to_travel dt p) acts
              (mkLoop (set_state (collapse (state p)) p) false m))
    as (new & Hadd & Hfresh & _).
  destruct (react_to_inputs_unfold i p acts dt m) as (_ & _ & _ & _ & _ & Hm).
  cbn [loop_map] in Hadd. rewrite <- Hm in Hadd. clear Hm.
  intros r b Hr Hb. unfold player_reacts in Hr, Hb.
  cbn [bombs bomb_objects set_players] in Hr, Hb.
  destruct (bombs_added_lookup m _ new r Hwf Hadd Hr)
    as [[Hold Hsame] | [_ (b' & Hnew & Hb')]].
  - rewrite Hsame in Hb. by apply (Htime r b).
  - rewrite Hb' in Hb. injection Hb as <-.
    rewrite Forall_forall in Hfresh. destruct (Hfresh b' Hnew) as (_ & -> & ->).
    lia.
Qed.

Lemma update_in_time m dt m' :
  0 <= dt → wf_map m → bombs_in_time m → update m dt = Some m' →
  bombs_in_time m'.
Proof.
  intros Hdt Hwf Htime Hup.
  destruct (update_run m dt Hwf) as (m2 & Hrun & Hbs & Hin & _).
  rewrite Hup in Hrun. injection Hrun as <-.
  intros r b' Hr Hb'. rewrite Hbs in Hr.
  apply list_elem_of_filter in Hr as [Hlive Hr].
  rewrite (Hin r Hr) in Hb'.
  destruct (bomb_objects m !! r) as [b | ] eqn:Hb; [ | done].
  injection Hb' as <-. destruct (Htime r b Hr Hb) as [Hfuse Hrange].
  apply (expires_false _ _ _ b Hb) in Hlive. simpl. lia.
Qed.

(** X10.  In every run of the simulation from a constructed map with
    steps of non-negative [dt], every live bomb has the fuse of 3000 ms and
    a [time_of_existence] between 0 and 3000. *)
Theorem simulation_bombs_in_time map_data play_setup ts steps :
  Forall (λ step, 0 <= step.2) steps →
  tile_sequence map_data = Some ts →
  (length (get_slots play_setup) <= 10)%nat →
  ∃ m0 m : Map F,
    Map_init map_data play_setup = Some m0
    ∧ simulation steps m0 = Some m
    ∧ ∀ r b, r ∈ bombs m → bomb_objects m !! r = Some b →
        explodes_in b = 3000 ∧ 0 <= time_of_existence b <= 3000.
Proof.
  intros Hsteps Hts Hslots.
  destruct (simulation_from_init map_data play_setup ts steps Hts Hslots)
    as (m0 & m & Hinit & Hrun & Hwf & Hb & _).
  exists m0, m. split; [done | ]. split; [done | ].
  assert (Hinv : wf_map m ∧ bombs_in_time m).
  { apply (simulation_invariant (λ m, wf_map m ∧ bombs_in_time m) (λ dt, 0 <= dt))
      with (steps := steps) (m := m0); try done.
    - intros i p acts dt m1 [Hwf1 Ht1] Hp.
      split; [by apply player_reacts_wf | by apply player_reacts_in_time].
    - intros m1 dt m2 Hdt [Hwf1 Ht1] Hup.
      split; [by eapply update_wf | by eapply update_in_time].
    - split; [done | ]. intros r b Hr. rewrite Hb in Hr.
      by apply elem_of_nil in Hr. }
  by destruct Hinv.
Qed.

(** X11.  A bomb that is still live after a sequence of [update] calls has
    aged by the sum of their [dt]: its [time_of_existence] is what it was
    plus the total time, and its position, owner and fuse are as before. *)
Theorem updates_age_live_bombs dts :
  ∀ m m' r b,
  wf_map m → updates m dts = Some m' → r ∈ bombs m' →
  bomb_objects m !! r = Some b →
  bomb_objects m' !! r
  = Some (set_time_of_existence (time_of_existence b + total_time dts) b).
Proof.
  induction dts as [| dt dts IH]; intros m m' r b Hwf Hrun Hr Hb.
  - injection Hrun as <-. rewrite Hb. simpl. f_equal.
    destruct b; unfold set_time_of_existence; simpl. f_equal. lia.
  - cbn [updates] in Hrun.
    destruct (update_run m dt Hwf) as (m1 & Hup & Hbs & Hin & _).
    rewrite Hup in Hrun. cbn [mbind option_bind] in Hrun.
    pose proof (update_wf _ _ _ Hwf Hup) as Hwf1.
    destruct (updates_run dts m1 Hwf1) as (m2 & Hrun2 & _ & Hsub).
    rewrite Hrun in Hrun2. injection Hrun2 as <-.
    pose proof (Hsub r Hr) as Hr1. pose proof Hr1 as Hr0. rewrite Hbs in Hr0.
    apply list_elem_of_filter in Hr0 as [_ Hr0].
    rewrite (IH m1 m' r (aged dt b) Hwf1 Hrun Hr); [ | by rewrite (Hin r Hr0), Hb].
    f_equal. unfold aged, set_time_of_existence. simpl. f_equal. lia.
Qed.

(** The players after [update] on a sound map. *)
Lemma update_players_lookup m dt m' (o : nat) p :
  wf_map m → update m dt = Some m' → players m !! o = Some p →
  players m' !! o
  = Some (set_bombs_left
            (bombs_left p
             + Z.of_nat (length (expired_of dt (bomb_objects m) o (bombs m)))) p).
Proof.
  intros Hwf Hup Hp.
  destruct (update_run m dt Hwf) as (m2 & Hrun & _ & _ & _ & Hps & _).
  rewrite Hup in Hrun. injection Hrun as <-.
  rewrite Hps, (credit_all_lookup _ _ _ _ _ Hp).
  unfold expired_of. by rewrite list_filter_filter.
Qed.

Lemma expires_aged dt1 dt2 (objs objs1 : list (Bomb F)) (r : nat) :
  objs1 !! r = aged dt1 <$> objs !! r →
  expires dt2 objs1 r = expires (dt1 + dt2) objs r.
Proof.
  intros Hr. unfold expires. rewrite Hr.
  destruct (objs !! r) as [b | ]; [ | done]. simpl.
  apply bool_decide_ext. lia.
Qed.

Lemma expires_later dt1 dt2 (objs : list (Bomb F)) (r : nat) :
  0 <= dt2 → expires dt1 objs r = true → expires (dt1 + dt2) objs r = true.
Proof.
  intros Hdt. unfold expires. destruct (objs !! r) as [b | ]; [ | done].
  rewrite !bool_decide_eq_true. lia.
Qed.

(** X12.  Two calls of [update] compose: on a sound map, [update(dt1)]
    followed by [update(dt2)] with [dt2 >= 0] leaves the same live bombs,
    with the same contents, and the same players as the single call
    [update(dt1 + dt2)]. *)
Theorem update_twice m dt1 dt2 m1 m2 m12 :
  wf_map m → 0 <= dt2 →
  update m dt1 = Some m1 → update m1 dt2 = Some m2 →
  update m (dt1 + dt2) = Some m12 →
  bombs m2 = bombs m12
  ∧ players m2 = players m12
  ∧ ∀ r, r ∈ bombs m2 → bomb_objects m2 !! r = bomb_objects m12 !! r.
Proof.
  intros Hwf Hdt Hup1 Hup2 Hup12.
  pose proof (update_wf _ _ _ Hwf Hup1) as Hwf1.
  destruct (update_run m dt1 Hwf) as (x1 & Hrun1 & Hbs1 & Hin1 & _).
  rewrite Hup1 in Hrun1. injection Hrun1 as <-.
  destruct (update_run m1 dt2 Hwf1) as (x2 & Hrun2 & Hbs2 & Hin2 & _).
  rewrite Hup2 in Hrun2. injection Hrun2 as <-.
  destruct (update_run m (dt1 + dt2) Hwf) as (x12 & Hrun12 & Hbs12 & Hin12 & _).
  rewrite Hup12 in Hrun12. injection Hrun12 as <-.
  assert (Hbombs : bombs m2 = bombs m12).
  { rewrite Hbs2, Hbs1, Hbs12, list_filter_filter.
    apply filter_ext_in. intros r Hr.
    rewrite (expires_aged dt1 dt2 _ _ r (Hin1 r Hr)). split; [by intros [? _] | ].
    intros Hlive. split; [done | ].
    destruct (expires dt1 (bomb_objects m) r) eqn:He; [ | done].
    apply (expires_later dt1 dt2) in He; [congruence | done]. }
  split; [done | ]. split.
  - apply list_eq. intros o.
    destruct (players m !! o) as [p | ] eqn:Hp.
    + pose proof (update_players_lookup m dt1 m1 o p Hwf Hup1 Hp) as Hp1.
      rewrite (update_players_lookup m1 dt2 m2 o _ Hwf1 Hup2 Hp1).
      rewrite (update_players_lookup m (dt1 + dt2) m12 o p Hwf Hup12 Hp).
      f_equal. unfold set_bombs_left. cbn [position number team_color state
        state_time speed bombs_left]. f_equal.
      pose proof (length_filter_split
                    (λ r, owner (bomb_objects m) r = Some o
                          ∧ expires (dt1 + dt2) (bomb_objects m) r = true)
                    (expires dt1 (bomb_objects m)) (bombs m)) as Hsplit.
      assert (H1 : expired_of dt1 (bomb_objects m) o (bombs m)
                   = filter (λ r, (owner (bomb_objects m) r = Some o
                                   ∧ expires (dt1 + dt2) (bomb_objects m) r = true)
                                  ∧ expires dt1 (bomb_objects m) r = true)
                       (bombs m)).
      { unfold expired_of. apply filter_ext_in. intros r Hr. split.
        - intros [Ho He]. split; [ | done]. split; [done | ].
          by apply expires_later.
        - by intros [[Ho _] He]. }
      assert (H2 : expired_of dt2 (bomb_objects m1) o (bombs m1)
                   = filter (λ r, owner (bomb_objects m) r = Some o
                                  ∧ expires (dt1 + dt2) (bomb_objects m) r = true)
                       (filter (λ r, expires dt1 (bomb_objects m) r = false)
                          (bombs m))).
      { unfold expired_of. rewrite Hbs1. apply filter_ext_in. intros r Hr.
        apply list_elem_of_filter in Hr as [_ Hr].
        rewrite (expires_aged dt1 dt2 _ _ r (Hin1 r Hr)).
        by rewrite (owner_aged _ _ dt1 r (Hin1 r Hr)). }
      rewrite H1, H2. unfold expired_of. lia.
    + assert (Hlen : ∀ (x : Map F) (dt : Z) (x' : Map F),
                update x dt = Some x' →
                length (players x') = length (players x)).
      { intros x dt x' Hx. by apply (update_loop_budget _ _ _ _ _ Hx). }
      apply lookup_ge_None in Hp.
      rewrite !(proj2 (lookup_ge_None _ _)); [done | | ].
      * by rewrite (Hlen _ _ _ Hup12).
      * by rewrite (Hlen _ _ _ Hup2), (Hlen _ _ _ Hup1).
  - intros r Hr2. pose proof Hr2 as Hr1. rewrite Hbs2 in Hr1.
    apply list_elem_of_filter in Hr1 as [_ Hr1].
    pose proof Hr1 as Hr. rewrite Hbs1 in Hr.
    apply list_elem_of_filter in Hr as [_ Hr].
    rewrite (Hin2 r Hr1), (Hin1 r Hr), (Hin12 r Hr).
    destruct (bomb_objects m !! r) as [b | ]; [ | done]. simpl. f_equal.
    unfold aged, set_time_of_existence. simpl. f_equal. lia.
Qed.

End RunInvariants.

(** ** More on [Map.__init__] *)

Section MoreOnMapInit.
Context {F : Type} `{Coord F}.

Implicit Types (slots : list (option (Z * Z))) (sp : list (F * F)).
Implicit Types (acc : list (Player F) * gmap Z (option nat)).

Lemma active_slots_elem slots : ∀ (i k : nat),
  k ∈ active_slots i slots
  ↔ ∃ (j : nat) slot, k = (i + j)%nat ∧ slots !! j = Some (Some slot).
Proof.
  induction slots as [| s slots IH]; intros i k.
  - split; [intros Hk; by apply elem_of_nil in Hk | intros (j & slot & _ & Hj); done].
  - assert (Htail : k ∈ active_slots (S i) slots
              ↔ ∃ (j : nat) slot, k = (i + S j)%nat ∧ slots !! j = Some (Some slot)).
    { rewrite IH. split; intros (j & slot & -> & Hj); exists j, slot;
        (split; [lia | done]). }
    destruct s as [x | ]; simpl.
    + rewrite elem_of_cons, Htail. split.
      * intros [-> | (j & slot & -> & Hj)].
        -- exists 0%nat, x. split; [lia | done].
        -- by exists (S j), slot.
      * intros (j & slot & -> & Hj). destruct j as [| j].
        -- left. lia.
        -- right. by exists j, slot.
    + rewrite Htail. split.
      * intros (j & slot & -> & Hj). by exists (S j), slot.
      * intros (j & slot & -> & Hj). destruct j as [| j]; [done | ].
        by exists j, slot.
Qed.

(** The player loop, whenever it returns. *)
Lemma slot_loop_spec sp slots : ∀ (i : nat) acc acc',
  slot_loop i slots sp acc = Some acc' →
  number <$> acc'.1 = (number <$> acc.1) ++ (Z.of_nat <$> active_slots i slots)
  ∧ (∀ z, z < Z.of_nat i → acc'.2 !! z = acc.2 !! z)
  ∧ (∀ j : nat, slots !! j = Some None → acc'.2 !! Z.of_nat (i + j) = Some None)
  ∧ (∀ (j : nat) slot, slots !! j = Some (Some slot) →
       acc'.2 !! Z.of_nat (i + j)
       = Some (Some (length acc.1
                     + length (active_slots 0 (take j slots)))%nat))
  ∧ (Forall initial_attributes acc.1 → Forall initial_attributes acc'.1).
Proof.
  induction slots as [| s slots IH]; intros i acc acc' Hrun.
  - injection Hrun as <-. simpl. rewrite app_nil_r.
    split; [done | ]. split; [done | ]. split; [done | ]. split; done.
  - cbn [slot_loop] in Hrun.
    destruct (slot_step i s sp acc) as [acc1 | ] eqn:Hstep; [ | done].
    cbn [mbind option_bind] in Hrun.
    destruct (IH (S i) acc1 acc' Hrun) as (Hnum & Hkeep & Hnone & Hsome & Hinit).
    assert (Hshift : ∀ l : list (option (Z * Z)),
              length (active_slots 1 l) = length (active_slots 0 l)).
    { intros l. generalize 0%nat 1%nat. induction l as [| [y | ] l IHl];
        intros a b; simpl; [done | by rewrite (IHl (S a) (S b)) | apply IHl]. }
    unfold slot_step in Hstep. destruct s as [x | ].
    + destruct (sp !! i) as [start | ]; [ | done].
      cbn [mbind option_bind] in Hstep. injection Hstep as <-.
      cbn [fst snd] in *.
      split; [rewrite Hnum, fmap_app; simpl; by rewrite <- app_assoc | ].
      split; [intros z Hz; rewrite Hkeep by lia;
              apply lookup_insert_ne; lia | ].
      split.
      { intros j Hj. destruct j as [| j]; [done | ].
        replace (i + S j)%nat with (S i + j)%nat by lia. by apply Hnone. }
      split.
      { intros j slot Hj. destruct j as [| j].
        - rewrite Nat.add_0_r, Hkeep by lia. rewrite lookup_insert_eq.
          simpl. do 2 f_equal. lia.
        - replace (i + S j)%nat with (S i + j)%nat by lia.
          rewrite (Hsome j slot Hj), length_app. simpl.
          rewrite Hshift. do 2 f_equal. lia. }
      intros Hacc. apply Hinit. apply Forall_app. split; [done | ].
      by apply Forall_singleton.
    + injection Hstep as <-. cbn [fst snd] in *.
      split; [done | ].
      split; [intros z Hz; rewrite Hkeep by lia;
              apply lookup_insert_ne; lia | ].
      split.
      { intros j Hj. destruct j as [| j].
        - rewrite Nat.add_0_r, Hkeep by lia. by rewrite lookup_insert_eq.
        - replace (i + S j)%nat with (S i + j)%nat by lia. by apply Hnone. }
      split; [ | done].
      intros j slot Hj. destruct j as [| j]; [done | ].
      replace (i + S j)%nat with (S i + j)%nat by lia.
      rewrite (Hsome j slot Hj). simpl. by rewrite Hshift.
Qed.

(** When the player loop fails. *)
Lemma slot_loop_None sp slots :
  length sp = 10%nat →
  ∀ (i : nat) acc,
  slot_loop i slots sp acc = None
  ↔ ∃ (j : nat) slot, slots !! j = Some (Some slot) ∧ (10 <= i + j)%nat.
Proof.
  intros Hsp. induction slots as [| s slots IH]; intros i acc.
  - split; [done | intros (j & slot & Hj & _); done].
  - cbn [slot_loop]. unfold slot_step. destruct s as [x | ].
    + destruct (sp !! i) as [start | ] eqn:Hstart; cbn [mbind option_bind].
      * apply lookup_lt_Some in Hstart. rewrite IH. split.
        -- intros (j & slot & Hj & Hge). exists (S j), slot. split; [done | lia].
        -- intros (j & slot & Hj & Hge). destruct j as [| j]; [lia | ].
           exists j, slot. split; [done | lia].
      * apply lookup_ge_None in Hstart. split; [ | done]. intros _.
        exists 0%nat, x. split; [done | lia].
    + cbn [mbind option_bind]. rewrite IH. split.
      * intros (j & slot & Hj & Hge). exists (S j), slot. split; [done | lia].
      * intros (j & slot & Hj & Hge). destruct j as [| j]; [done | ].
        exists j, slot. split; [done | lia].
Qed.

(** X13.  The errors of [Map.__init__]: the construction fails exactly when
    the map string has fewer than four fields, or when some active slot has
    an index of 10 or more (its starting position does not exist).  Nothing
    else about the map string or the setup makes it fail. *)
Theorem Map_init_fails_iff map_data play_setup :
  (Map_init map_data play_setup : option (Map F)) = None
  ↔ tile_sequence map_data = None
    ∨ ∃ (i : nat) slot,
        get_slots play_setup !! i = Some (Some slot) ∧ (10 <= i)%nat.
Proof.
  unfold Map_init, tile_sequence.
  set (fields := split ";"%char _).
  destruct (fields !! 3%nat) as [tile_string | ] eqn:H3.
  - destruct (lookup_lt_is_Some_2 fields 0) as [environment H0].
    { apply lookup_lt_Some in H3. lia. }
    rewrite H0. cbn [mbind option_bind fmap option_fmap option_map].
    destruct (tile_loop_grid (list_ascii_of_string tile_string))
      as (st & -> & _ & _ & _ & [Hsp _]).
    cbn [mbind option_bind].
    destruct (slot_loop 0 (get_slots play_setup) (tl_starting_positions st)
                ([], {[ (-1) := None ]})) as [acc | ] eqn:Hloop.
    + cbn [mbind option_bind]. split; [done | ]. intros [Hno | Hbad]; [done | ].
      apply (slot_loop_None _ _ Hsp 0 ([], {[ (-1) := None ]})) in Hbad.
      congruence.
    + cbn [mbind option_bind]. split; [ | done]. intros _. right.
      by apply (slot_loop_None _ _ Hsp 0 ([], {[ (-1) := None ]})).
  - cbn [fmap option_fmap option_map].
    destruct (fields !! 0%nat); cbn [mbind option_bind]; split; try done;
      intros _; by left.
Qed.

(** The place of an active slot among the active slots. *)
Lemma active_slots_place : ∀ (l : list (option (Z * Z))) (a j ref : nat) slot,
  l !! j = Some (Some slot) →
  active_slots a l !! ref = Some (a + j)%nat →
  length (active_slots a (take j l)) = ref.
Proof.
  induction l as [| [y | ] l IHl]; intros a j ref slot Hj Href; [done | | ].
  - destruct j as [| j].
    + destruct ref as [| ref]; [done | ]. simpl in Href.
      apply list_elem_of_lookup_2, active_slots_elem in Href
        as (j' & _ & Hj' & _). lia.
    + destruct ref as [| ref]; [simpl in Href; injection Href; lia | ].
      simpl in Href. simpl. f_equal.
      apply (IHl (S a) j ref slot Hj).
      rewrite Href. f_equal. lia.
  - destruct j as [| j]; [done | ]. simpl in Href. simpl.
    apply (IHl (S a) j ref slot Hj). rewrite Href. f_equal. lia.
Qed.

(** X14.  The players of a constructed map are the active slots in slot
    order: their numbers are the indices of the active slots, ascending,
    and each has the attributes of [Player.__init__].  [players_by_numbers]
    is the inverse of the player list: it sends a player's number to the
    player's place in the list, an inactive slot and -1 to no player. *)
Theorem Map_init_players map_data play_setup (m : Map F) :
  Map_init map_data play_setup = Some m →
  number <$> get_players m
  = Z.of_nat <$> active_slots 0 (get_slots play_setup)
  ∧ Forall initial_attributes (get_players m)
  ∧ (∀ (ref : nat) p, get_players m !! ref = Some p →
       get_players_by_numbers m !! number p = Some (Some ref))
  ∧ (∀ i : nat, get_slots play_setup !! i = Some None →
       get_players_by_numbers m !! Z.of_nat i = Some None)
  ∧ get_players_by_numbers m !! (-1) = Some None.
Proof.
  unfold Map_init, get_players, get_players_by_numbers. intros Hinit.
  destruct (_ !! 0%nat) as [environment | ]; [ | done].
  destruct (_ !! 3%nat) as [tile_string | ]; [ | done].
  cbn [mbind option_bind] in Hinit.
  destruct (tile_loop _ _ _) as [st | ]; [ | done].
  cbn [mbind option_bind] in Hinit.
  destruct (slot_loop 0 (get_slots play_setup) (tl_starting_positions st)
              ([], {[ (-1) := None ]})) as [acc | ] eqn:Hloop; [ | done].
  injection Hinit as <-. cbn [players players_by_numbers].
  destruct (slot_loop_spec _ _ _ _ _ Hloop) as (Hnum & Hkeep & Hnone & Hsome & Hattr).
  cbn [fst snd] in *. rewrite app_nil_l in Hnum.
  split; [done | ]. split; [by apply Hattr | ]. split; [ | split].
  - intros ref p Hp.
    assert (Hk : (Z.of_nat <$> active_slots 0 (get_slots play_setup)) !! ref
                 = Some (number p)).
    { rewrite <- Hnum, list_lookup_fmap, Hp. done. }
    rewrite list_lookup_fmap in Hk.
    destruct (active_slots 0 (get_slots play_setup) !! ref) as [k | ] eqn:Hkref;
      [ | done].
    injection Hk as Hk. rewrite <- Hk.
    assert (Hin : k ∈ active_slots 0 (get_slots play_setup))
      by (by eapply list_elem_of_lookup_2).
    apply active_slots_elem in Hin as (j & slot & -> & Hj).
    rewrite (Hsome j slot Hj). do 2 f_equal. simpl.
    exact (active_slots_place _ 0%nat j ref slot Hj Hkref).
  - intros i Hi. exact (Hnone i Hi).
  - rewrite Hkeep by lia. done.
Qed.

End MoreOnMapInit.

(** ** The map string and the printed map *)

Section MapStrings.
Context {F : Type} `{Coord F}.

Lemma slot_loop_activity (sp : list (F * F)) (slots1 slots2 : list (option (Z * Z))) :
  Forall2 (λ s1 s2, is_Some s1 ↔ is_Some s2) slots1 slots2 →
  ∀ (i : nat) (acc : list (Player F) * gmap Z (option nat)),
  slot_loop i slots1 sp acc = slot_loop i slots2 sp acc.
Proof.
  induction 1 as [| s1 s2 slots1 slots2 Hs _ IH]; intros i acc; [done | ].
  cbn [slot_loop].
  assert (Hstep : slot_step i s1 sp acc = slot_step i s2 sp acc).
  { destruct s1 as [x1 | ], s2 as [x2 | ]; try done.
    - destruct Hs as [Hs _]. by destruct Hs.
    - destruct Hs as [_ Hs]. by destruct Hs. }
  rewrite Hstep. destruct (slot_step i s2 sp acc); [apply IH | done].
Qed.

(** X15.  [Map.__init__] looks only at which slots are active.  What a
    slot holds, its player number and its team colour, has no effect on
    the constructed map: two setups with the same active slots give the
    same result. *)
Theorem Map_init_ignores_slot_contents map_data play_setup1 play_setup2 :
  Forall2 (λ s1 s2, is_Some s1 ↔ is_Some s2)
    (get_slots play_setup1) (get_slots play_setup2) →
  (Map_init map_data play_setup1 : option (Map F))
  = Map_init map_data play_setup2.
Proof.
  intros Hsame. unfold Map_init.
  destruct (_ !! 0%nat); [ | done]. destruct (_ !! 3%nat); [ | done].
  cbn [mbind option_bind]. destruct (tile_loop _ _ _) as [st | ]; [ | done].
  cbn [mbind option_bind]. by rewrite (slot_loop_activity _ _ _ Hsame).
Qed.

Lemma remove_char_app (c : ascii) (s1 s2 : string) :
  remove_char c (s1 ++ s2) = (remove_char c s1 ++ remove_char c s2)%string.
Proof.
  induction s1 as [| a s1 IH]; [done | ]. simpl.
  destruct (decide (a = c)); [done | ]. simpl. by rewrite IH.
Qed.

(** X16.  Spaces and newlines in a map string are ignored: inserting one
    anywhere in the string does not change the constructed map. *)
Theorem Map_init_ignores_white (c : ascii) (s1 s2 : string) play_setup :
  c = " "%char ∨ c = "010"%char →
  (Map_init (s1 ++ String c s2) play_setup : option (Map F))
  = Map_init (s1 ++ s2) play_setup.
Proof.
  intros Hc.
  assert (Hstrip : remove_char "010"%char (remove_char " "%char (s1 ++ String c s2))
                   = remove_char "010"%char (remove_char " "%char (s1 ++ s2))).
  { rewrite !remove_char_app. destruct Hc as [-> | ->].
    - done.
    - done. }
  unfold Map_init. by rewrite Hstrip.
Qed.

End MapStrings.

Section MapStr.
Context {F : Type}.

Lemma string_app_assoc (s1 s2 s3 : string) :
  ((s1 ++ s2) ++ s3 = s1 ++ (s2 ++ s3))%string.
Proof. induction s1 as [| a s1 IH]; [done | ]. exact (f_equal (String a) IH). Qed.

Lemma string_app_nil_r (s : string) : (s ++ EmptyString = s)%string.
Proof. induction s as [| a s IH]; [done | ]. exact (f_equal (String a) IH). Qed.

(** The characters of a row, as [Map.__str__] prints them. *)
Lemma Map_str_row (line : list Tile) (result : string) :
  fold_left
    (λ result tile,
       String.append result (String (character_of_tile tile) EmptyString))
    line result
  = (result ++ string_of_list_ascii (character_of_tile <$> line))%string.
Proof.
  revert result. induction line as [| tile line IH]; intros result.
  - simpl. by rewrite string_app_nil_r.
  - simpl. rewrite IH, string_app_assoc. done.
Qed.

Lemma split_row (line : list Tile) (rest : string) :
  split "010"%char
    (string_of_list_ascii (character_of_tile <$> line)
     ++ String "010"%char rest)%string
  = string_of_list_ascii (character_of_tile <$> line)
    :: split "010"%char rest.
Proof.
  induction line as [| tile line IH]; [done | ].
  change (split "010"%char
            (String (character_of_tile tile)
               (string_of_list_ascii (character_of_tile <$> line)
                +:+ String "010"%char rest))
          = String (character_of_tile tile)
              (string_of_list_ascii (character_of_tile <$> line))
            :: split "010"%char rest).
  cbn [split]. rewrite IH. by destruct tile.
Qed.

Lemma tile_of_character_of_tile (tile : Tile) :
  tile_of_character (character_of_tile tile) = tile.
Proof. by destruct tile. Qed.

(** X17.  The printed map can be read back: cutting [Map.__str__] at the
    newlines and reading every character with the table of the constructor
    (['x'] block, ['#'] wall, anything else floor) gives the rows of the
    grid, followed by one empty row for the final newline. *)
Theorem Map_str_reads_back (m : Map F) :
  (λ s, tile_of_character <$> list_ascii_of_string s)
    <$> split "010"%char (Map_str m)
  = get_tiles m ++ [[]].
Proof.
  unfold Map_str, get_tiles.
  assert (Hgen : ∀ (rows : list (list Tile)) (result : string),
            fold_left
              (λ result line,
                 String.append
                   (fold_left
                      (λ result tile,
                         String.append result
                           (String (character_of_tile tile) EmptyString))
                      line result)
                   (String "010"%char EmptyString))
              rows result
            = (result
               ++ fold_right
                    (λ line rest,
                       string_of_list_ascii (character_of_tile <$> line)
                       ++ String "010"%char rest)
                    EmptyString rows)%string).
  { induction rows as [| line rows IH]; intros result.
    - simpl. by rewrite string_app_nil_r.
    - simpl. rewrite IH, Map_str_row, !string_app_assoc. done. }
  rewrite Hgen.
  change (String.append EmptyString ?s) with s.
  induction (tiles m) as [| line rows IH]; [done | ].
  cbn [foldr]. rewrite split_row, fmap_cons, IH.
  rewrite list_ascii_of_string_of_list_ascii, <- list_fmap_compose.
  cbn [app]. f_equal. rewrite <- (list_fmap_id line) at 2.
  apply list_fmap_ext. intros i tile _. apply tile_of_character_of_tile.
Qed.

End MapStr.

(** ** [PlayerKeyMaps] *)

Section KeyMaps.

Implicit Types (self : PlayerKeyMaps) (order : list Z).
Implicit Types (keys_pressed : Z → bool) (result : list (Z * Action)).

Lemma get_current_actions_loop_spec (km : gmap Z (Z * Action)) keys_pressed order :
  (∀ k, k ∈ order → is_Some (km !! k)) →
  ∀ result,
  get_current_actions_loop km keys_pressed order result
  = Some (result ++ omap (key_action km keys_pressed) order).
Proof.
  induction order as [| k order IH]; intros Hbound result.
  - simpl. by rewrite app_nil_r.
  - assert (Hrest : ∀ k', k' ∈ order → is_Some (km !! k'))
      by (intros k' Hk'; apply Hbound; by apply list_elem_of_further).
    destruct (Hbound k) as [a Ha]; [apply list_elem_of_here | ].
    cbn [get_current_actions_loop]. rewrite omap_cons_eq. unfold key_action at 1.
    destruct (keys_pressed k).
    + rewrite Ha. cbn [mbind option_bind]. rewrite (IH Hrest).
      by rewrite <- app_assoc.
    + by rewrite (IH Hrest).
Qed.

(** X19.  [get_current_actions] returns, whatever the order in which the
    dictionary is visited, exactly the actions bound to the keys that are
    pressed: an item is in the result if and only if some pressed key is
    bound to it, and the result has one item per pressed bound key.  Two
    visiting orders give the same items, up to their order in the list. *)
Theorem get_current_actions_spec self order1 order2 keys_pressed :
  iteration_order self order1 → iteration_order self order2 →
  ∃ result1 result2,
    get_current_actions self order1 keys_pressed = Some result1
    ∧ get_current_actions self order2 keys_pressed = Some result2
    ∧ (∀ item, item ∈ result1
         ↔ ∃ k, keys_pressed k = true ∧ key_maps self !! k = Some item)
    ∧ length result1 = length (filter (λ k, keys_pressed k = true) order1)
    ∧ result1 ≡ₚ result2.
Proof.
  intros [Hnd1 Hdom1] [Hnd2 Hdom2]. unfold get_current_actions.
  rewrite (get_current_actions_loop_spec _ _ order1)
    by (intros k Hk; by apply Hdom1).
  rewrite (get_current_actions_loop_spec _ _ order2)
    by (intros k Hk; by apply Hdom2).
  eexists _, _. split; [reflexivity | ]. split; [reflexivity | ].
  rewrite !app_nil_l. split; [ | split].
  - intros item. rewrite list_elem_of_omap. unfold key_action. split.
    + intros (k & Hk & Ha). exists k. destruct (keys_pressed k); [done | done].
    + intros (k & Hp & Ha). exists k. split.
      * apply Hdom1. by exists item.
      * by rewrite Hp.
  - clear Hnd1. induction order1 as [| k order1 IH]; [done | ].
    assert (Hrest : ∀ k', k' ∈ order1 → is_Some (key_maps self !! k')).
    { intros k' Hk'. apply Hdom1. by apply list_elem_of_further. }
    assert (IH' : length (omap (key_action (key_maps self) keys_pressed) order1)
                  = length (filter (λ k, keys_pressed k = true) order1)).
    { clear IH Hdom1. induction order1 as [| k' order1 IH]; [done | ].
      destruct (Hrest k') as [a Ha]; [apply list_elem_of_here | ].
      rewrite omap_cons_eq. unfold key_action at 1.
      destruct (keys_pressed k') eqn:Hp.
      - rewrite Ha, filter_cons_True by done. simpl. f_equal. apply IH.
        intros k'' Hk''. apply Hrest. by apply list_elem_of_further.
      - rewrite filter_cons_False by congruence. apply IH.
        intros k'' Hk''. apply Hrest. by apply list_elem_of_further. }
    destruct (Hdom1 k) as [[a Ha] _]; [apply list_elem_of_here | ].
    rewrite omap_cons_eq. unfold key_action at 1.
    destruct (keys_pressed k) eqn:Hp.
    + rewrite Ha, filter_cons_True by done. simpl. by rewrite IH'.
    + rewrite filter_cons_False by congruence. exact IH'.
  - apply omap_Permutation. apply NoDup_Permutation; [done | done | ].
    intros k. by rewrite Hdom1, Hdom2.
Qed.

Lemma omap_single {A B : Type} `{EqDecision A} (f : A → option B)
    (l : list A) (x : A) (y : B) :
  NoDup l → x ∈ l → f x = Some y → (∀ z, z ≠ x → f z = None) →
  omap f l = [y].
Proof.
  intros Hnd Hx Hfx Hne. induction l as [| a l IH];
    [by apply elem_of_nil in Hx | ].
  apply NoDup_cons in Hnd as [Ha Hnd]. rewrite omap_cons_eq.
  destruct (decide (a = x)) as [-> | Hax].
  - rewrite Hfx. f_equal.
    clear -Ha Hne. induction l as [| b l IH]; [done | ].
    rewrite omap_cons_eq, (Hne b).
    + apply IH. intros Hin. apply Ha. by apply list_elem_of_further.
    + intros ->. apply Ha. apply list_elem_of_here.
  - rewrite (Hne a Hax). apply IH; [done | ].
    apply elem_of_cons in Hx as [-> | Hx]; done.
Qed.

(** X20.  Binding and pressing: after [set_player_key_map] with six
    different keys, pressing one of them alone yields exactly the action it
    was bound to, for the player it was bound for, whatever else the
    dictionary held (also another binding of that key) and in whatever
    order the dictionary is visited. *)
Theorem set_player_key_map_then_press self (player_number : Z)
    (key_up key_right key_down key_left key_bomb key_special : Z)
    order keys_pressed (pressed : Z) (a : Action) :
  NoDup [key_up; key_right; key_down; key_left; key_bomb; key_special] →
  (pressed, a) ∈ [(key_up, ACTION_UP); (key_right, ACTION_RIGHT);
                  (key_down, ACTION_DOWN); (key_left, ACTION_LEFT);
                  (key_bomb, ACTION_BOMB); (key_special, ACTION_SPECIAL)] →
  (∀ k, keys_pressed k = true ↔ k = pressed) →
  let self' := set_player_key_map self player_number key_up key_right key_down
                 key_left key_bomb key_special in
  iteration_order self' order →
  get_current_actions self' order keys_pressed = Some [(player_number, a)].
Proof.
  intros Hnd Hin Hpress self' [Hndo Hdom].
  unfold get_current_actions.
  rewrite get_current_actions_loop_spec by (intros k Hk; by apply Hdom).
  rewrite app_nil_l. f_equal.
  assert (Hbound : key_maps self' !! pressed = Some (player_number, a)).
  { unfold self', set_player_key_map. cbn [key_maps].
    apply NoDup_cons in Hnd as [H1 Hnd]. apply NoDup_cons in Hnd as [H2 Hnd].
    apply NoDup_cons in Hnd as [H3 Hnd]. apply NoDup_cons in Hnd as [H4 Hnd].
    apply NoDup_cons in Hnd as [H5 _].
    repeat match goal with
           | Hk : _ ∉ _ :: _ |- _ => apply not_elem_of_cons in Hk as [? ?]
           end.
    rewrite !elem_of_cons in Hin.
    destruct Hin as [Hin | [Hin | [Hin | [Hin | [Hin | [Hin | Hin]]]]]];
      [injection Hin as Hk Ha; rewrite Hk, Ha .. | by apply elem_of_nil in Hin];
      repeat (rewrite lookup_insert_ne by congruence);
      apply lookup_insert_eq. }
  apply (omap_single _ _ pressed); [done | | | ].
  - apply Hdom. by eexists.
  - unfold key_action. by rewrite (proj2 (Hpress pressed) eq_refl).
  - intros k Hk. unfold key_action.
    destruct (keys_pressed k) eqn:Hp; [ | done].
    apply Hpress in Hp. done.
Qed.

End KeyMaps.

(** ** Instances of the further properties *)

(** In exact arithmetic the centre of every tile lies in that tile. *)
Lemma center_law_Q : center_law (F := Q).
Proof.
  intros z. unfold math_floor, fadd, float_of_int, f_0_5. simpl.
  unfold Qfloor, Qplus, inject_Z. simpl.
  symmetry. apply Z.div_unique with (r := 1); lia.
Qed.

(** The keys of a dictionary, in the order of [map_to_list], are a visiting
    order, and so is every rearrangement of a visiting order. *)
Lemma iteration_order_map_to_list (self : PlayerKeyMaps) :
  iteration_order self (map_to_list (key_maps self)).*1.
Proof.
  split; [apply NoDup_fst_map_to_list | ].
  intros k. rewrite list_elem_of_fmap. split.
  - intros ([k' a] & -> & Hin). apply elem_of_map_to_list in Hin. by exists a.
  - intros [a Ha]. exists (k, a). split; [done | ].
    by apply elem_of_map_to_list.
Qed.

Lemma iteration_order_reverse (self : PlayerKeyMaps) (order : list Z) :
  iteration_order self order → iteration_order self (reverse order).
Proof.
  intros [Hnd Hdom]. split; [by rewrite reverse_Permutation | ].
  intros k. by rewrite reverse_Permutation.
Qed.

Lemma react_to_inputs_without_budget_witness :
  let p := set_bombs_left 0 player0 in
  let r := react_to_inputs 0 p [(0, ACTION_BOMB); (0, ACTION_BOMB)] 100 map1 in
  bombs_left p < 1 ∧ r.2 = map1 ∧ bombs_left r.1 = bombs_left p.
Proof.
  cbv zeta.
  assert (Hb : bombs_left (set_bombs_left 0 player0) < 1)
    by (vm_compute; reflexivity).
  split; [exact Hb | ].
  exact (react_to_inputs_without_budget 0 (set_bombs_left 0 player0)
           [(0, ACTION_BOMB); (0, ACTION_BOMB)] 100 map1 Hb).
Defined.

Lemma react_to_inputs_on_occupied_tile_witness :
  let p := set_position (position player0) (set_number 1 Player_init) in
  let r := react_to_inputs 1 p [(1, ACTION_BOMB)] 100 map1_bomb in
  first_direction (number p) [(1, ACTION_BOMB)] = None
  ∧ tile_has_bomb map1_bomb (position p) = true
  ∧ r.2 = map1_bomb ∧ bombs_left r.1 = bombs_left p
  ∧ position r.1 = position p.
Proof.
  cbv zeta.
  assert (Hn : first_direction
                 (number (set_position (position player0)
                            (set_number 1 Player_init)))
                 [(1, ACTION_BOMB)] = None) by (vm_compute; reflexivity).
  assert (Ht : tile_has_bomb map1_bomb
                 (position (set_position (position player0)
                              (set_number 1 Player_init))) = true)
    by (vm_compute; reflexivity).
  split; [exact Hn | ]. split; [exact Ht | ].
  exact (react_to_inputs_on_occupied_tile 1
           (set_position (position player0) (set_number 1 Player_init))
           [(1, ACTION_BOMB)] 100 map1_bomb Hn Ht).
Defined.

Lemma react_to_inputs_places_at_most_one_witness :
  let acts := [(0, ACTION_BOMB); (0, ACTION_BOMB); (0, ACTION_BOMB)] in
  let r := react_to_inputs 0 player0 acts 100 map1 in
  first_direction (number player0) acts = None
  ∧ tile_of (tile_center (position player0)) = tile_of (position player0)
  ∧ ((r.2 = map1 ∧ bombs_left r.1 = bombs_left player0)
     ∨ (can_place player0 map1
        ∧ bombs r.2 = bombs map1 ++ [length (bomb_objects map1)]
        ∧ bomb_objects r.2
          = bomb_objects map1 ++ [placed_bomb 0 (position player0)]
        ∧ bombs_left r.1 = bombs_left player0 - 1)).
Proof.
  cbv zeta.
  assert (Hn : first_direction (number player0)
                 [(0, ACTION_BOMB); (0, ACTION_BOMB); (0, ACTION_BOMB)] = None)
    by (vm_compute; reflexivity).
  assert (Hc : tile_of (tile_center (position player0))
               = tile_of (position player0)) by (vm_compute; reflexivity).
  split; [exact Hn | ]. split; [exact Hc | ].
  exact (react_to_inputs_places_at_most_one 0 player0
           [(0, ACTION_BOMB); (0, ACTION_BOMB); (0, ACTION_BOMB)] 100 map1
           Hn Hc).
Defined.

Lemma simulation_conserves_bombs_witness :
  let steps := [([(0, ACTION_BOMB); (1, ACTION_BOMB)], 100);
                ([(0, ACTION_RIGHT)], 1000); ([(0, ACTION_BOMB)], 2500)] in
  tile_sequence MAP1 = Some map1_tiles
  ∧ (length (get_slots PlaySetup_init) <= 10)%nat
  ∧ ∃ m0 m : Map Q,
      Map_init MAP1 PlaySetup_init = Some m0
      ∧ simulation steps m0 = Some m
      ∧ ∀ o p, players m !! o = Some p →
          bombs_left p + Z.of_nat (length (owned m o)) = 5
          ∧ 0 <= bombs_left p <= 5
          ∧ (length (owned m o) <= 5)%nat.
Proof.
  cbv zeta.
  assert (Hts : tile_sequence MAP1 = Some map1_tiles) by (vm_compute; reflexivity).
  assert (Hs : (length (get_slots PlaySetup_init) <= 10)%nat)
    by (vm_compute; lia).
  split; [exact Hts | ]. split; [exact Hs | ].
  exact (simulation_conserves_bombs (F := Q) MAP1 PlaySetup_init map1_tiles
           [([(0, ACTION_BOMB); (1, ACTION_BOMB)], 100);
            ([(0, ACTION_RIGHT)], 1000); ([(0, ACTION_BOMB)], 2500)] Hts Hs).
Defined.

Lemma simulation_one_bomb_per_tile_witness :
  let steps := [([(0, ACTION_BOMB); (0, ACTION_BOMB)], 100);
                ([(0, ACTION_BOMB); (1, ACTION_BOMB)], 100)] in
  center_law (F := Q)
  ∧ tile_sequence MAP1 = Some map1_tiles
  ∧ (length (get_slots PlaySetup_init) <= 10)%nat
  ∧ ∃ m0 m : Map Q,
      Map_init MAP1 PlaySetup_init = Some m0
      ∧ simulation steps m0 = Some m
      ∧ ∀ (r1 r2 : nat) (b1 b2 : Bomb Q),
          r1 ∈ bombs m → r2 ∈ bombs m →
          bomb_objects m !! r1 = Some b1 → bomb_objects m !! r2 = Some b2 →
          math_floor (bomb_position b1).1 = math_floor (bomb_position b2).1 →
          math_floor (bomb_position b1).2 = math_floor (bomb_position b2).2 →
          r1 = r2.
Proof.
  cbv zeta.
  assert (Hts : tile_sequence MAP1 = Some map1_tiles) by (vm_compute; reflexivity).
  assert (Hs : (length (get_slots PlaySetup_init) <= 10)%nat)
    by (vm_compute; lia).
  split; [exact center_law_Q | ]. split; [exact Hts | ]. split; [exact Hs | ].
  exact (simulation_one_bomb_per_tile (F := Q) MAP1 PlaySetup_init map1_tiles
           [([(0, ACTION_BOMB); (0, ACTION_BOMB)], 100);
            ([(0, ACTION_BOMB); (1, ACTION_BOMB)], 100)]
           center_law_Q Hts Hs).
Defined.

Lemma simulation_bombs_in_time_witness :
  let steps := [([(0, ACTION_BOMB)], 100); ([(1, ACTION_BOMB)], 2900);
                ([], 1)] in
  Forall (λ step : list (Z * Action) * Z, 0 <= step.2) steps
  ∧ tile_sequence MAP1 = Some map1_tiles
  ∧ (length (get_slots PlaySetup_init) <= 10)%nat
  ∧ ∃ m0 m : Map Q,
      Map_init MAP1 PlaySetup_init = Some m0
      ∧ simulation steps m0 = Some m
      ∧ ∀ r b, r ∈ bombs m → bomb_objects m !! r = Some b →
          explodes_in b = 3000 ∧ 0 <= time_of_existence b <= 3000.
Proof.
  cbv zeta.
  assert (Hdt : Forall (λ step : list (Z * Action) * Z, 0 <= step.2)
                  [([(0, ACTION_BOMB)], 100); ([(1, ACTION_BOMB)], 2900);
                   ([], 1)]).
  { repeat (constructor; [simpl; lia | ]). constructor. }
  assert (Hts : tile_sequence MAP1 = Some map1_tiles) by (vm_compute; reflexivity).
  assert (Hs : (length (get_slots PlaySetup_init) <= 10)%nat)
    by (vm_compute; lia).
  split; [exact Hdt | ]. split; [exact Hts | ]. split; [exact Hs | ].
  exact (simulation_bombs_in_time (F := Q) MAP1 PlaySetup_init map1_tiles
           _ Hdt Hts Hs).
Defined.

Lemma updates_age_live_bombs_witness :
  let m' := default empty_map (updates map1_bomb [1000; 500; 1500]) in
  wf_map map1_bomb
  ∧ updates map1_bomb [1000; 500; 1500] = Some m'
  ∧ 0%nat ∈ bombs m'
  ∧ bomb_objects map1_bomb !! 0%nat = Some (placed_bomb 0 (position player0))
  ∧ bomb_objects m' !! 0%nat
    = Some (set_time_of_existence
              (time_of_existence (placed_bomb 0 (position player0))
               + total_time [1000; 500; 1500])
              (placed_bomb 0 (position player0))).
Proof.
  cbv zeta.
  assert (Hrun : updates map1_bomb [1000; 500; 1500]
                 = Some (default empty_map
                           (updates map1_bomb [1000; 500; 1500])))
    by (vm_compute; reflexivity).
  assert (Hin : 0%nat ∈ bombs (default empty_map
                                (updates map1_bomb [1000; 500; 1500])))
    by (apply (bool_decide_unpack _); vm_compute; exact I).
  assert (Hb : bomb_objects map1_bomb !! 0%nat
               = Some (placed_bomb 0 (position player0)))
    by (vm_compute; reflexivity).
  split; [exact map1_bomb_wf | ]. split; [exact Hrun | ].
  split; [exact Hin | ]. split; [exact Hb | ].
  exact (updates_age_live_bombs [1000; 500; 1500] map1_bomb _ 0%nat _
           map1_bomb_wf Hrun Hin Hb).
Defined.

Lemma update_twice_witness :
  let m1 := default empty_map (update map1_bomb 1000) in
  let m2 := default empty_map (update m1 1500) in
  let m12 := default empty_map (update map1_bomb (1000 + 1500)) in
  wf_map map1_bomb ∧ 0 <= 1500
  ∧ update map1_bomb 1000 = Some m1 ∧ update m1 1500 = Some m2
  ∧ update map1_bomb (1000 + 1500) = Some m12
  ∧ bombs m2 = bombs m12
  ∧ players m2 = players m12
  ∧ ∀ r, r ∈ bombs m2 → bomb_objects m2 !! r = bomb_objects m12 !! r.
Proof.
  cbv zeta.
  assert (Hdt : 0 <= 1500) by lia.
  assert (H1 : update map1_bomb 1000
               = Some (default empty_map (update map1_bomb 1000)))
    by (vm_compute; reflexivity).
  assert (H2 : update (default empty_map (update map1_bomb 1000)) 1500
               = Some (default empty_map
                         (update (default empty_map (update map1_bomb 1000))
                            1500)))
    by (vm_compute; reflexivity).
  assert (H12 : update map1_bomb (1000 + 1500)
                = Some (default empty_map (update map1_bomb (1000 + 1500))))
    by (vm_compute; reflexivity).
  split; [exact map1_bomb_wf | ]. split; [exact Hdt | ].
  split; [exact H1 | ]. split; [exact H2 | ]. split; [exact H12 | ].
  exact (update_twice map1_bomb 1000 1500 _ _ _ map1_bomb_wf Hdt H1 H2 H12).
Defined.

Lemma Map_init_players_witness :
  Map_init MAP1 PlaySetup_init = Some map1
  ∧ number <$> get_players map1 = [0; 1; 2; 3]
  ∧ Forall initial_attributes (get_players map1)
  ∧ get_players_by_numbers map1 !! 7 = Some None
  ∧ get_players_by_numbers map1 !! (-1) = Some None.
Proof.
  assert (Hm : Map_init MAP1 PlaySetup_init = Some map1)
    by (vm_compute; reflexivity).
  split; [exact Hm | ].
  destruct (Map_init_players MAP1 PlaySetup_init map1 Hm)
    as (Hnum & Hattr & _ & Hnone & Hminus).
  split; [etrans; [exact Hnum | vm_compute; reflexivity] | ].
  split; [exact Hattr | ]. split; [ | exact Hminus].
  exact (Hnone 7%nat eq_refl).
Defined.

Lemma Map_init_ignores_slot_contents_witness :
  let play_setup :=
    mkPlaySetup (<[2%nat := Some (4, 1)]> (get_slots PlaySetup_init)) in
  Forall2 (λ s1 s2 : option (Z * Z), is_Some s1 ↔ is_Some s2)
    (get_slots PlaySetup_init) (get_slots play_setup)
  ∧ (Map_init MAP1 PlaySetup_init : option (Map Q)) = Map_init MAP1 play_setup.
Proof.
  cbv zeta.
  assert (Hs : Forall2 (λ s1 s2 : option (Z * Z), is_Some s1 ↔ is_Some s2)
                 (get_slots PlaySetup_init)
                 (get_slots (mkPlaySetup
                               (<[2%nat := Some (4, 1)]>
                                  (get_slots PlaySetup_init)))))
    by (apply (bool_decide_unpack _); vm_compute; exact I).
  split; [exact Hs | ].
  exact (Map_init_ignores_slot_contents (F := Q) MAP1 PlaySetup_init _ Hs).
Defined.

Lemma Map_init_ignores_white_witness :
  (" "%char = " "%char ∨ " "%char = "010"%char)
  ∧ (Map_init ("env1;;;x" ++ String " " ".#") PlaySetup_init : option (Map Q))
    = Map_init ("env1;;;x" ++ ".#") PlaySetup_init.
Proof.
  split; [left; reflexivity | ].
  exact (Map_init_ignores_white (F := Q) " " "env1;;;x" ".#" PlaySetup_init
           (or_introl eq_refl)).
Defined.

Lemma get_current_actions_spec_witness :
  let self :=
    set_special_key_map
      (set_player_key_map PlayerKeyMaps_init 0 119 100 115 97 32 102) 27 in
  let order := (map_to_list (key_maps self)).*1 in
  let keys_pressed := λ k : Z, bool_decide (k = 119 ∨ k = 32 ∨ k = 13) in
  iteration_order self order ∧ iteration_order self (reverse order)
  ∧ ∃ result1 result2,
      get_current_actions self order keys_pressed = Some result1
      ∧ get_current_actions self (reverse order) keys_pressed = Some result2
      ∧ (∀ item, item ∈ result1
           ↔ ∃ k, keys_pressed k = true ∧ key_maps self !! k = Some item)
      ∧ length result1 = length (filter (λ k, keys_pressed k = true) order)
      ∧ result1 ≡ₚ result2.
Proof.
  cbv zeta.
  pose proof (iteration_order_map_to_list
                (set_special_key_map
                   (set_player_key_map PlayerKeyMaps_init 0 119 100 115 97 32
                      102) 27)) as H1.
  pose proof (iteration_order_reverse _ _ H1) as H2.
  split; [exact H1 | ]. split; [exact H2 | ].
  exact (get_current_actions_spec _ _ _
           (λ k : Z, bool_decide (k = 119 ∨ k = 32 ∨ k = 13)) H1 H2).
Defined.

Lemma set_player_key_map_then_press_witness :
  let self := set_player_key_map PlayerKeyMaps_init 0 119 100 115 97 32 102 in
  let self' := set_player_key_map self 1 105 108 107 106 32 111 in
  let order := (map_to_list (key_maps self')).*1 in
  let keys_pressed := λ k : Z, bool_decide (k = 32) in
  NoDup [105; 108; 107; 106; 32; 111]
  ∧ (32, ACTION_BOMB) ∈ [(105, ACTION_UP); (108, ACTION_RIGHT);
                         (107, ACTION_DOWN); (106, ACTION_LEFT);
                         (32, ACTION_BOMB); (111, ACTION_SPECIAL)]
  ∧ (∀ k, keys_pressed k = true ↔ k = 32)
  ∧ iteration_order self' order
  ∧ get_current_actions self' order keys_pressed = Some [(1, ACTION_BOMB)].
Proof.
  cbv zeta.
  assert (Hnd : NoDup [105; 108; 107; 106; 32; 111])
    by (apply (bool_decide_unpack _); vm_compute; exact I).
  assert (Hin : (32, ACTION_BOMB)
                ∈ [(105, ACTION_UP); (108, ACTION_RIGHT); (107, ACTION_DOWN);
                   (106, ACTION_LEFT); (32, ACTION_BOMB);
                   (111, ACTION_SPECIAL)])
    by (apply (bool_decide_unpack _); vm_compute; exact I).
  assert (Hp : ∀ k, bool_decide (k = 32) = true ↔ k = 32)
    by (intros k; apply bool_decide_eq_true).
  pose proof (iteration_order_map_to_list
                (set_player_key_map
                   (set_player_key_map PlayerKeyMaps_init 0 119 100 115 97 32
                      102) 1 105 108 107 106 32 111)) as Ho.
  split; [exact Hnd | ]. split; [exact Hin | ]. split; [exact Hp | ].
  split; [exact Ho | ].
  exact (set_player_key_map_then_press
           (set_player_key_map PlayerKeyMaps_init 0 119 100 115 97 32 102)
           1 105 108 107 106 32 111 _ (λ k : Z, bool_decide (k = 32))
           32 ACTION_BOMB Hnd Hin Hp Ho).
Defined.
